(** * Tax filing backend: credential vault, Finch payroll sync and login

    A shallow embedding of
      - utils/encryption.js            (encrypt, decrypt, the process key,
                                        password digests, maskSSN),
      - controllers/finchController.js (OAuth callback, sync trigger,
                                        background payroll sync,
                                        getConnections),
      - controllers/authController.js  (register, login),
      - the access check of the business dashboard (route, controller
        and service) and encryptSSN of the seed script,
    over an explicit model of the PostgreSQL tables they touch.

    Conventions.
      - A JavaScript string is the list of its UTF-16 code units
        ([jsstring]); SQL identifiers, status literals, UUIDs and error
        messages are plain [string]s.
      - A call that may throw returns a [result]; code that also talks
        to the database lives in the [io] monad, which threads the
        tables and keeps the table state reached when an error is
        thrown, so that a [catch] block sees what was already written.
      - Everything outside the repository (the provider's HTTP
        answers, database faults, the clock, fresh UUIDs, the random
        IV, the AES primitive) is an explicit input. *)

From Stdlib Require Import ZArith List Bool Lia.
From Stdlib Require Import Strings.Byte Strings.Ascii Strings.String.
From stdpp Require Import gmap strings list fin_maps sorting.

Local Open Scope Z_scope.

(* ===================================================================== *)
(** ** JavaScript values and thrown errors                                *)
(* ===================================================================== *)

(** UTF-16 code units. *)
Definition jsstring := list Z.

(** An ASCII literal as a JavaScript string. *)
Definition str (s : string) : jsstring :=
  map (fun a => Z.of_nat (nat_of_ascii a)) (list_ascii_of_string s).

(** The values the modelled code inspects.  Numbers are the integers
    (no NaN, no fractions); [JObj r] is an object of the request or of
    an answer (never a Buffer), identified by its reference;
    [JBuiltin n] is the built-in object or function that
    [Object.prototype] holds under the name [n]. *)
Inductive jsval :=
| JUndefined
| JNull
| JBool (b : bool)
| JNum (n : Z)
| JStr (s : jsstring)
| JObj (r : positive)
| JBuiltin (n : string).

(** [!v] is false exactly on the truthy values. *)
Definition truthy (v : jsval) : bool :=
  match v with
  | JUndefined | JNull => false
  | JBool b => b
  | JNum n => negb (n =? 0)
  | JStr s => match s with [] => false | _ => true end
  | JObj _ | JBuiltin _ => true
  end.

Definition jsstring_eqb (a b : jsstring) : bool := bool_decide (a = b).

(** [a === b]. *)
Definition strict_eq (a b : jsval) : bool :=
  match a, b with
  | JUndefined, JUndefined => true
  | JNull, JNull => true
  | JBool x, JBool y => Bool.eqb x y
  | JNum x, JNum y => x =? y
  | JStr x, JStr y => jsstring_eqb x y
  | JObj x, JObj y => Pos.eqb x y
  | JBuiltin x, JBuiltin y => String.eqb x y
  | _, _ => false
  end.

(** Outcome of a call that may throw; [Throw] carries [error.message]. *)
Inductive result (A : Type) :=
| Ok (a : A)
| Throw (msg : string).
Arguments Ok {A} a.
Arguments Throw {A} msg.

Definition bind_result {A B} (r : result A) (k : A -> result B) : result B :=
  match r with
  | Ok a => k a
  | Throw m => Throw m
  end.

Notation "x <-? r ; k" := (bind_result r (fun x => k))
  (at level 100, r at next level, right associativity).

(* ===================================================================== *)
(** ** Buffers: hex and UTF-8 (Node's Buffer / StringDecoder)             *)
(* ===================================================================== *)

Definition byte_of_Z (z : Z) : byte :=
  match Byte.of_N (Z.to_N z) with
  | Some b => b
  | None => x00
  end.

Definition Z_of_byte (b : byte) : Z := Z.of_N (Byte.to_N b).

(** Lower-case hex digit of a nibble, as a code unit. *)
Definition hexDigit (n : Z) : Z :=
  if n <? 10 then 48 + n else 87 + n.

(** Value of the hex digit a byte spells; upper and lower case are
    both accepted. *)
Definition unhex (b : Z) : option Z :=
  if (48 <=? b) && (b <=? 57) then Some (b - 48)
  else if (97 <=? b) && (b <=? 102) then Some (b - 87)
  else if (65 <=? b) && (b <=? 70) then Some (b - 55)
  else None.

(** Value of a code unit as a hex digit.  Node's decoder looks a
    character up by the low byte of its code unit, so that a character
    above U+00FF counts as the digit its low byte spells (U+0130 as
    '0'). *)
Definition hexVal (c : Z) : option Z := unhex (c mod 256).

(** [buf.toString('hex')]. *)
Fixpoint hexEncode (bs : list byte) : jsstring :=
  match bs with
  | [] => []
  | b :: rest =>
      hexDigit (Z_of_byte b / 16) :: hexDigit (Z_of_byte b mod 16)
        :: hexEncode rest
  end.

(** [Buffer.from(s, 'hex')]: whole pairs of hex digits are decoded; the
    decoding stops silently at the first pair that is not hex (by
    [hexVal]) and drops a trailing odd digit. *)
Fixpoint hexDecode (s : jsstring) : list byte :=
  match s with
  | c1 :: c2 :: rest =>
      match hexVal c1, hexVal c2 with
      | Some h, Some l => byte_of_Z (16 * h + l) :: hexDecode rest
      | _, _ => []
      end
  | _ => []
  end.

Definition REPLACEMENT : Z := 0xFFFD.

Definition isHighSurrogate (u : Z) : bool := (0xD800 <=? u) && (u <=? 0xDBFF).
Definition isLowSurrogate (u : Z) : bool := (0xDC00 <=? u) && (u <=? 0xDFFF).

Definition utf8_1 (c : Z) : list byte := [byte_of_Z c].
Definition utf8_2 (c : Z) : list byte :=
  [byte_of_Z (0xC0 + c / 64); byte_of_Z (0x80 + c mod 64)].
Definition utf8_3 (c : Z) : list byte :=
  [byte_of_Z (0xE0 + c / 4096); byte_of_Z (0x80 + (c / 64) mod 64);
   byte_of_Z (0x80 + c mod 64)].
Definition utf8_4 (c : Z) : list byte :=
  [byte_of_Z (0xF0 + c / 262144); byte_of_Z (0x80 + (c / 4096) mod 64);
   byte_of_Z (0x80 + (c / 64) mod 64); byte_of_Z (0x80 + c mod 64)].

(** Encoding a string argument with the 'utf8' encoding, as
    [cipher.update(text, 'utf8', ...)] and [Buffer.from(text, 'utf8')]
    do: a surrogate pair becomes one four-byte sequence, and a
    surrogate without its partner, which UTF-8 cannot represent, is
    written as U+FFFD (EF BF BD). *)
Fixpoint utf8Encode (s : jsstring) : list byte :=
  match s with
  | [] => []
  | u :: rest =>
      if u <? 0x80 then utf8_1 u ++ utf8Encode rest
      else if u <? 0x800 then utf8_2 u ++ utf8Encode rest
      else if isHighSurrogate u then
        match rest with
        | v :: rest' =>
            if isLowSurrogate v
            then utf8_4 (0x10000 + (u - 0xD800) * 1024 + (v - 0xDC00))
                   ++ utf8Encode rest'
            else utf8_3 REPLACEMENT ++ utf8Encode rest
        | [] => utf8_3 REPLACEMENT
        end
      else if isLowSurrogate u then utf8_3 REPLACEMENT ++ utf8Encode rest
      else utf8_3 u ++ utf8Encode rest
  end.

Definition inRange (lo hi : Z) (b : byte) : bool :=
  (lo <=? Z_of_byte b) && (Z_of_byte b <=? hi).

Definition cont (b : byte) : Z := Z_of_byte b - 0x80.

(** Code units of a code point. *)
Definition unitsOf (c : Z) : jsstring :=
  if c <? 0x10000 then [c]
  else [0xD800 + (c - 0x10000) / 1024; 0xDC00 + (c - 0x10000) mod 1024].

(** Decoding bytes with the 'utf8' encoding.  Every maximal ill-formed
    prefix is replaced by one U+FFFD and decoding resumes at the byte
    that broke the sequence. *)
Fixpoint utf8Decode (bs : list byte) : jsstring :=
  match bs with
  | [] => []
  | b0 :: t0 =>
      let x0 := Z_of_byte b0 in
      if x0 <? 0x80 then x0 :: utf8Decode t0
      else if (0xC2 <=? x0) && (x0 <=? 0xDF) then
        match t0 with
        | b1 :: t1 =>
            if inRange 0x80 0xBF b1
            then ((x0 - 0xC0) * 64 + cont b1) :: utf8Decode t1
            else REPLACEMENT :: utf8Decode t0
        | [] => [REPLACEMENT]
        end
      else if (0xE0 <=? x0) && (x0 <=? 0xEF) then
        match t0 with
        | b1 :: t1 =>
            if inRange (if x0 =? 0xE0 then 0xA0 else 0x80)
                       (if x0 =? 0xED then 0x9F else 0xBF) b1
            then
              match t1 with
              | b2 :: t2 =>
                  if inRange 0x80 0xBF b2
                  then ((x0 - 0xE0) * 4096 + cont b1 * 64 + cont b2)
                         :: utf8Decode t2
                  else REPLACEMENT :: utf8Decode t1
              | [] => [REPLACEMENT]
              end
            else REPLACEMENT :: utf8Decode t0
        | [] => [REPLACEMENT]
        end
      else if (0xF0 <=? x0) && (x0 <=? 0xF4) then
        match t0 with
        | b1 :: t1 =>
            if inRange (if x0 =? 0xF0 then 0x90 else 0x80)
                       (if x0 =? 0xF4 then 0x8F else 0xBF) b1
            then
              match t1 with
              | b2 :: t2 =>
                  if inRange 0x80 0xBF b2
                  then
                    match t2 with
                    | b3 :: t3 =>
                        if inRange 0x80 0xBF b3
                        then unitsOf ((x0 - 0xF0) * 262144 + cont b1 * 4096
                                      + cont b2 * 64 + cont b3)
                               ++ utf8Decode t3
                        else REPLACEMENT :: utf8Decode t2
                    | [] => [REPLACEMENT]
                    end
                  else REPLACEMENT :: utf8Decode t1
              | [] => [REPLACEMENT]
              end
            else REPLACEMENT :: utf8Decode t0
        | [] => [REPLACEMENT]
        end
      else REPLACEMENT :: utf8Decode t0
  end.

(** A string every surrogate of which is half of a pair, over 16-bit
    code units. *)
Fixpoint wellFormed (s : jsstring) : bool :=
  match s with
  | [] => true
  | u :: rest =>
      if isHighSurrogate u then
        match rest with
        | v :: rest' => isLowSurrogate v && wellFormed rest'
        | [] => false
        end
      else (0 <=? u) && (u <? 0x10000) && negb (isLowSurrogate u)
           && wellFormed rest
  end.

(** [s.split(sep)] for a one-character separator: never empty. *)
Fixpoint split (sep : Z) (s : jsstring) : list jsstring :=
  match s with
  | [] => [[]]
  | c :: rest =>
      if c =? sep then [] :: split sep rest
      else match split sep rest with
           | p :: ps => (c :: p) :: ps
           | [] => [[c]]
           end
  end.

(** [parts.join(sep)]. *)
Fixpoint join (sep : Z) (parts : list jsstring) : jsstring :=
  match parts with
  | [] => []
  | [p] => p
  | p :: ps => p ++ sep :: join sep ps
  end.

Definition COLON : Z := 58.

(* ===================================================================== *)
(** ** utils/encryption.js                                                *)
(* ===================================================================== *)

(** The 'aes-256-cbc' primitive of Node's crypto module, for a key and
    an IV of the right sizes: [cipherRun key iv p] is the output of
    [update] followed by [final]; [decipherRun] is [None] when [final]
    rejects the input (length or padding). *)
Class NodeCrypto := {
  cipherRun : list byte -> list byte -> list byte -> list byte;
  decipherRun : list byte -> list byte -> list byte -> option (list byte)
}.

(** Decryption inverts encryption under the same key and IV. *)
Definition cipherLaw (C : NodeCrypto) : Prop :=
  forall key iv p,
    length key = 32%nat -> length iv = 16%nat ->
    decipherRun key iv (cipherRun key iv p) = Some p.

Definition KEY_LENGTH : nat := 32.
Definition IV_LENGTH : nat := 16.

(** ['0'.repeat(64)]. *)
Definition DEFAULT_KEY_HEX : jsstring := repeat 48 64.

(** [Buffer.from(process.env.ENCRYPTION_KEY || '0'.repeat(64), 'hex')],
    evaluated once when the module is loaded. *)
Definition ENCRYPTION_KEY (env : option jsstring) : list byte :=
  hexDecode (match env with
             | Some (c :: s) => c :: s
             | _ => DEFAULT_KEY_HEX
             end).

(** [crypto.randomBytes(n)] over the entropy of this call. *)
Definition randomBytes (n : nat) (rng : nat -> byte) : list byte :=
  map rng (seq 0 n).

(** Argument checks shared by [createCipheriv] and [createDecipheriv]. *)
Definition checkCipherArgs (key iv : list byte) : result unit :=
  if negb (Nat.eqb (length iv) IV_LENGTH)
  then Throw "Invalid initialization vector"
  else if negb (Nat.eqb (length key) KEY_LENGTH)
  then Throw "Invalid key length"
  else Ok tt.

Section Vault.
Context {C : NodeCrypto}.

Definition encrypt (key : list byte) (rng : nat -> byte) (text : jsval)
  : result jsval :=
  if negb (truthy text) then Ok JNull
  else
    let iv := randomBytes IV_LENGTH rng in
    _ <-? checkCipherArgs key iv;
    match text with
    | JStr s =>
        let encrypted := hexEncode (cipherRun key iv (utf8Encode s)) in
        Ok (JStr (hexEncode iv ++ COLON :: encrypted))
    | _ => Throw "The data argument must be of type string"
    end.

Definition decrypt (key : list byte) (text : jsval) : result jsval :=
  if negb (truthy text) then Ok JNull
  else
    match text with
    | JStr s =>
        match split COLON s with
        | ivHex :: parts =>
            let iv := hexDecode ivHex in
            let encryptedText := join COLON parts in
            _ <-? checkCipherArgs key iv;
            if Nat.odd (length encryptedText)
            then Throw "The argument encoding is invalid for data of odd length"
            else
              match decipherRun key iv (hexDecode encryptedText) with
              | Some p => Ok (JStr (utf8Decode p))
              | None => Throw "bad decrypt"
              end
        | [] => Throw "The first argument must be of type string"
        end
    | _ => Throw "text.split is not a function"
    end.
End Vault.

(* ===================================================================== *)
(** ** The tables (migrations/001_create_cdm_schema.sql, role migration)  *)
(* ===================================================================== *)

(** JSONB payloads, as far as the modelled code builds them. *)
Inductive json :=
| JsonNull
| JsonNum (n : Z)
| JsonText (s : string)
| JsonJs (s : jsstring).

Record taxpayer := mkTaxpayer {
  taxpayer_id : string;
  tp_ssn_encrypted : jsstring;
  tp_first_name : jsstring;
  tp_last_name : jsstring;
  tp_dob : jsstring;
  tp_email : option jsstring;
  tp_phone : option jsstring;
  tp_filing_status : option string;
  tp_kyc_status : option string;
  tp_role : option string;
  tp_created_at : Z
}.

Record connection := mkConnection {
  conn_taxpayer_id : option string;
  conn_business_id : option string;
  conn_provider : string;
  conn_provider_company_id : option string;
  conn_access_token_encrypted : option jsstring;
  conn_status : string;
  conn_last_sync_at : option Z;
  conn_metadata : list (string * json);
  conn_created_at : Z
}.

(** [employeeData], the body of one provider answer. *)
Record employee_data := mkEmployeeData {
  ed_first_name : option string;
  ed_last_name : option string;
  ed_emails : option (list (option (option string)));
  ed_hire_date : option string;
  ed_employment : option (option string)
}.

Record employee := mkEmployee {
  emp_connection_id : string;
  emp_provider_employee_id : string;
  emp_first_name : option string;
  emp_last_name : option string;
  emp_email : option string;
  emp_hire_date : option string;
  emp_employment_status : option string;
  emp_source_data : employee_data;
  emp_created_at : Z;
  emp_updated_at : Z
}.

Record sync_job := mkSyncJob {
  job_connection_id : string;
  job_type : string;
  job_status : string;
  job_started_at : option Z;
  job_completed_at : option Z;
  job_records_processed : nat;
  job_records_failed : nat;
  job_error_message : option string
}.

Record audit_log := mkAuditLog {
  al_event_type : string;
  al_actor_id : option string;
  al_entity_type : string;
  al_entity_id : string;
  al_action : string;
  al_metadata : list (string * json);
  al_created_at : Z
}.

(** [employees] is keyed by its UNIQUE (connection_id,
    provider_employee_id); the other tables by their primary key.
    [taxpayers] keeps its rows in the order a SELECT returns them, and
    [audit_logs] in insertion order. *)
Record db := mkDb {
  taxpayers : list taxpayer;
  connections : gmap string connection;
  employees : gmap (string * string) employee;
  sync_jobs : gmap string sync_job;
  audit_logs : list audit_log
}.

(** *** Database code: state and exceptions *)

Definition io (A : Type) : Type := db -> result A * db.

Definition ret {A} (a : A) : io A := fun d => (Ok a, d).

Definition bind {A B} (m : io A) (k : A -> io B) : io B :=
  fun d =>
    match m d with
    | (Ok a, d') => k a d'
    | (Throw e, d') => (Throw e, d')
    end.

Notation "x <- m ;; k" := (bind m (fun x => k))
  (at level 100, m at next level, right associativity).
Notation "m ;;; k" := (bind m (fun _ => k))
  (at level 100, right associativity).

(** A call that may throw and leaves the tables alone. *)
Definition lift {A} (r : result A) : io A := fun d => (r, d).

(** [try { body } catch (error) { handler(error.message) }]: the
    handler starts from the tables as the body left them. *)
Definition tryCatch {A} (body : io A) (handler : string -> io A) : io A :=
  fun d =>
    match body d with
    | (Ok a, d') => (Ok a, d')
    | (Throw e, d') => handler e d'
    end.

(** Modelled from the spec: config/database.js is not part of the
    sources at hand; [transaction] runs its callback as one unit of work,
    committing its writes when it returns and rolling all of them back
    when it throws. *)
Definition transaction {A} (body : io A) : io A :=
  fun d =>
    match body d with
    | (Ok a, d') => (Ok a, d')
    | (Throw e, _) => (Throw e, d)
    end.

Definition set_taxpayers (f : list taxpayer -> list taxpayer) (d : db) : db :=
  mkDb (f (taxpayers d)) (connections d) (employees d) (sync_jobs d)
       (audit_logs d).
Definition set_connections
    (f : gmap string connection -> gmap string connection) (d : db) : db :=
  mkDb (taxpayers d) (f (connections d)) (employees d) (sync_jobs d)
       (audit_logs d).
Definition set_employees
    (f : gmap (string * string) employee -> gmap (string * string) employee)
    (d : db) : db :=
  mkDb (taxpayers d) (connections d) (f (employees d)) (sync_jobs d)
       (audit_logs d).
Definition set_sync_jobs
    (f : gmap string sync_job -> gmap string sync_job) (d : db) : db :=
  mkDb (taxpayers d) (connections d) (employees d) (f (sync_jobs d))
       (audit_logs d).
Definition set_audit_logs (f : list audit_log -> list audit_log) (d : db) : db :=
  mkDb (taxpayers d) (connections d) (employees d) (sync_jobs d)
       (f (audit_logs d)).

(* ===================================================================== *)
(** ** The outside world of one request                                   *)
(* ===================================================================== *)

(** The SQL statements of the modelled handlers. [UpsertEmployee k] is
    the upsert of the [k]-th directory entry. *)
Inductive stmt :=
| InsertConnection
| InsertAuditLog
| SelectConnection
| InsertSyncJob
| UpsertEmployee (k : nat)
| CompleteSyncJob
| TouchConnection
| FailSyncJob
| SelectTaxpayer
| InsertTaxpayer.

Record state_data := mkStateData {
  sd_taxpayerId : option string;
  sd_businessId : option string;
  sd_correlationId : option string
}.

Record token_data := mkTokenData {
  access_token : jsval;
  company_id : option string
}.

Record company_data := mkCompanyData {
  legal_name : option string;
  ein : option string
}.

Record individual := mkIndividual { id : string }.

(** The [data] of the directory answer.  An entry of [individuals] is
    an object with its [id], or null ([None]). *)
Record directory_data := mkDirectoryData {
  individuals : option (list (option individual))
}.

Record response_item := mkResponseItem { body : option employee_data }.

Record individual_data := mkIndividualData {
  responses : option (list (option response_item))
}.

(** What one run observes from outside.  An HTTP answer is the [data]
    of the axios response ([None] when it has none) or the error axios
    throws; the provider sees the bearer token it is called with, and
    the detail call also its position in the loop.  [shortLength r]
    is what [o.length < 8] evaluates to for the object [o] of the
    request behind the reference [r] (an array, or an object with or
    without a [length] of its own). *)
Record world := mkWorld {
  fault : stmt -> option string;
  now : stmt -> Z;
  gen_random_uuid : stmt -> string;
  entropy : nat -> byte;
  process_env_ENCRYPTION_KEY : option jsstring;
  parseState : jsstring -> result (option state_data);
  tokenExchange : jsval -> result (option token_data);
  companyInfo : jsval -> result (option company_data);
  directory : jsval -> result (option directory_data);
  individualDetail : nat -> jsval -> string -> result (option individual_data);
  shortLength : positive -> bool
}.

(** One statement sent through [query] of config/database.js (the
    pool's query; the file is not among the sources at hand): it throws
    what the database throws when it faults on the statement, else the
    statement runs against the tables at its time [NOW()]. *)
Definition query {A} (w : world) (s : stmt) (run : Z -> db -> result A * db)
  : io A :=
  fun d =>
    match fault w s with
    | Some e => (Throw e, d)
    | None => run (now w s) d
    end.

(** Reading a property of [o], or destructuring it: the TypeError
    with message [msg] when [o] is null or undefined.  The [data] of
    an HTTP answer and the value of [JSON.parse] are null when they
    are not there ([None]); a property that is not there is
    undefined. *)
Definition prop {A} (msg : string) (o : option A) : result A :=
  match o with
  | Some a => Ok a
  | None => Throw msg
  end.

(** A NULL column is [null]. *)
Definition column (c : option jsstring) : jsval :=
  match c with
  | Some s => JStr s
  | None => JNull
  end.

(** A text parameter: [null] is stored as NULL. *)
Definition textParam (v : jsval) : option jsstring :=
  match v with
  | JStr s => Some s
  | _ => None
  end.

Definition jsonOpt (o : option string) : json :=
  match o with
  | Some s => JsonText s
  | None => JsonNull
  end.

Record response := mkResponse {
  status : nat;
  payload : list (string * json)
}.

Definition errorResponse (code : nat) (msg : string) : response :=
  mkResponse code [("error", JsonText msg)].

(* ===================================================================== *)
(** ** controllers/finchController.js                                     *)
(* ===================================================================== *)

Section Finch.
Context {C : NodeCrypto}.
Variable w : world.

Definition vaultKey : list byte :=
  ENCRYPTION_KEY (process_env_ENCRYPTION_KEY w).

(** INSERT INTO connections ... RETURNING connection_id. *)
Definition insertConnection (sd : state_data) (tok : token_data)
    (co : company_data) (accessTokenEncrypted : jsval) : io string :=
  query w InsertConnection (fun t d =>
    let cid := gen_random_uuid w InsertConnection in
    match connections d !! cid with
    | Some _ => (Throw "duplicate key value violates unique constraint", d)
    | None =>
        let row :=
          mkConnection (sd_taxpayerId sd) (sd_businessId sd) "finch"
            (company_id tok) (textParam accessTokenEncrypted) "active" None
            [("company_name", jsonOpt (legal_name co));
             ("ein", jsonOpt (ein co));
             ("correlationId", jsonOpt (sd_correlationId sd))] t in
        (Ok cid, set_connections (insert cid row) d)
    end).

(** INSERT INTO audit_logs ... 'integration.connected'. *)
Definition insertConnectedEvent (sd : state_data) (tok : token_data)
    (cid : string) : io unit :=
  query w InsertAuditLog (fun t d =>
    let ev :=
      mkAuditLog "integration.connected" (sd_taxpayerId sd) "connection"
        cid "create"
        [("provider", JsonText "finch");
         ("companyId", jsonOpt (company_id tok));
         ("correlationId", jsonOpt (sd_correlationId sd))] t in
    (Ok tt, set_audit_logs (fun l => l ++ [ev]) d)).

Definition handleFinchCallback (code state : jsval) : io response :=
  tryCatch
    (if negb (truthy code) || negb (truthy state)
     then ret (errorResponse 400 "Missing authorization code or state")
     else
       stateData <- lift (match state with
                          | JStr s =>
                              r <-? parseState w s;
                              prop ("Cannot destructure property 'taxpayerId'"
                                    ++ " of 'stateData' as it is null.") r
                          | _ => Throw "The first argument must be of type string"
                          end);;
       tok <- lift (r <-? tokenExchange w code;
                    prop ("Cannot destructure property 'access_token'"
                          ++ " of 'tokenResponse.data' as it is null.") r);;
       companyResponse <- lift (companyInfo w (access_token tok));;
       transaction
         (accessTokenEncrypted <-
            lift (encrypt vaultKey (entropy w) (access_token tok));;
          companyData <-
            lift (prop "Cannot read properties of null (reading 'legal_name')"
                    companyResponse);;
          cid <- insertConnection stateData tok companyData
                   accessTokenEncrypted;;
          insertConnectedEvent stateData tok cid);;;
       companyData <-
         lift (prop "Cannot read properties of null (reading 'legal_name')"
                 companyResponse);;
       ret (mkResponse 200
              [("success", JsonText "true");
               ("message", JsonText "Finch connection established successfully");
               ("company.name", jsonOpt (legal_name companyData));
               ("company.ein", jsonOpt (ein companyData));
               ("company.id", jsonOpt (company_id tok))]))
    (fun _ => ret (errorResponse 500 "Failed to complete Finch connection")).

(** [employeeData.emails?.[0]?.data]. *)
Definition firstEmail (e : employee_data) : option string :=
  match ed_emails e with
  | Some (Some d :: _) => d
  | _ => None
  end.

(** [employeeData.employment?.type]. *)
Definition employmentType (e : employee_data) : option string :=
  match ed_employment e with
  | Some t => t
  | None => None
  end.

(** INSERT INTO employees ... ON CONFLICT (connection_id,
    provider_employee_id) DO UPDATE SET first_name, last_name, email,
    employment_status, updated_at. *)
Definition upsertEmployee (t : Z) (connectionId pid : string)
    (e : employee_data) (tbl : gmap (string * string) employee)
  : gmap (string * string) employee :=
  match tbl !! (connectionId, pid) with
  | None =>
      <[(connectionId, pid) :=
          mkEmployee connectionId pid (ed_first_name e) (ed_last_name e)
            (firstEmail e) (ed_hire_date e) (employmentType e) e t t]> tbl
  | Some old =>
      <[(connectionId, pid) :=
          mkEmployee (emp_connection_id old) (emp_provider_employee_id old)
            (ed_first_name e) (ed_last_name e) (firstEmail e)
            (emp_hire_date old) (employmentType e) (emp_source_data old)
            (emp_created_at old) t]> tbl
  end.

(** The body of the inner [try]: detail call, then upsert. *)
Definition syncEmployee (connectionId : string) (accessToken : jsval)
    (k : nat) (ind : individual) : io unit :=
  r <- lift (individualDetail w k accessToken (id ind));;
  data <- lift (prop "Cannot read properties of null (reading 'responses')" r);;
  rs <- lift (prop "Cannot read properties of undefined (reading '0')"
                (responses data));;
  item <- lift (match rs with
                | Some it :: _ => Ok it
                | None :: _ =>
                    Throw "Cannot read properties of null (reading 'body')"
                | [] =>
                    Throw "Cannot read properties of undefined (reading 'body')"
                end);;
  employeeData <-
    lift (prop "Cannot read properties of undefined (reading 'first_name')"
            (body item));;
  query w (UpsertEmployee k) (fun t d =>
    (Ok tt,
     set_employees (upsertEmployee t connectionId (id ind) employeeData) d)).

(** [individual.id] on a null entry. *)
Definition NULL_ID : string :=
  "Cannot read properties of null (reading 'id')".

(** The [for ... of] loop with its two counters; [k] is the position
    of the next entry.  The inner [catch] logs [individual.id] before
    it counts the failure: on an object that is all it does, on a null
    entry the log line itself throws and the error leaves the loop. *)
Fixpoint syncLoop (connectionId : string) (accessToken : jsval) (k : nat)
    (inds : list (option individual)) (recordsProcessed recordsFailed : nat)
  : io (nat * nat) :=
  match inds with
  | [] => ret (recordsProcessed, recordsFailed)
  | individual :: rest =>
      ok <- tryCatch
              (match individual with
               | Some ind => syncEmployee connectionId accessToken k ind
               | None => lift (Throw NULL_ID)
               end;;;
               ret true)
              (fun _ =>
                 match individual with
                 | Some _ => ret false
                 | None => lift (Throw NULL_ID)
                 end);;
      if (ok : bool)
      then syncLoop connectionId accessToken (S k) rest
             (S recordsProcessed) recordsFailed
      else syncLoop connectionId accessToken (S k) rest
             recordsProcessed (S recordsFailed)
  end.

(** UPDATE sync_jobs SET status = 'completed', ... WHERE job_id = $3. *)
Definition completeJob (t : Z) (recordsProcessed recordsFailed : nat)
    (j : sync_job) : sync_job :=
  mkSyncJob (job_connection_id j) (job_type j) "completed"
    (job_started_at j) (Some t) recordsProcessed recordsFailed
    (job_error_message j).

(** UPDATE sync_jobs SET status = 'failed', ... WHERE job_id = $2. *)
Definition failJob (t : Z) (msg : string) (j : sync_job) : sync_job :=
  mkSyncJob (job_connection_id j) (job_type j) "failed"
    (job_started_at j) (Some t) (job_records_processed j)
    (job_records_failed j) (Some msg).

(** UPDATE connections SET last_sync_at = NOW() WHERE connection_id = $1. *)
Definition touchConnection (t : Z) (c : connection) : connection :=
  mkConnection (conn_taxpayer_id c) (conn_business_id c) (conn_provider c)
    (conn_provider_company_id c) (conn_access_token_encrypted c)
    (conn_status c) (Some t) (conn_metadata c) (conn_created_at c).

Definition syncFinchPayrollData (connectionId : string)
    (accessToken : jsval) (jobId : string) : io unit :=
  tryCatch
    (r <- lift (directory w accessToken);;
     data <-
       lift (prop "Cannot read properties of null (reading 'individuals')" r);;
     let inds := match individuals data with
                 | Some l => l
                 | None => []
                 end in
     counts <- syncLoop connectionId accessToken 0 inds 0 0;;
     query w CompleteSyncJob (fun t d =>
       (Ok tt,
        set_sync_jobs (alter (completeJob t (fst counts) (snd counts)) jobId)
          d));;;
     query w TouchConnection (fun t d =>
       (Ok tt, set_connections (alter (touchConnection t) connectionId) d)))
    (fun msg =>
       query w FailSyncJob (fun t d =>
         (Ok tt, set_sync_jobs (alter (failJob t msg) jobId) d))).

(** SELECT ... FROM connections WHERE connection_id = $1
      AND provider = 'finch' AND status = 'active'. *)
Definition selectActiveFinch (connectionId : string) : io (option connection) :=
  query w SelectConnection (fun _ d =>
    (Ok (match connections d !! connectionId with
         | Some c =>
             if String.eqb (conn_provider c) "finch"
                && String.eqb (conn_status c) "active"
             then Some c else None
         | None => None
         end), d)).

(** INSERT INTO sync_jobs ... 'processing' ... RETURNING job_id. *)
Definition insertSyncJob (connectionId : string) : io string :=
  query w InsertSyncJob (fun t d =>
    let jid := gen_random_uuid w InsertSyncJob in
    match sync_jobs d !! jid with
    | Some _ => (Throw "duplicate key value violates unique constraint", d)
    | None =>
        (Ok jid,
         set_sync_jobs
           (insert jid (mkSyncJob connectionId "finch_payroll_sync"
                          "processing" (Some t) None 0 0 None)) d)
    end).

(** [promise.catch(err => console.error(...))]: started, never
    awaited; a rejection is only logged.  The tables are those the
    task leaves once it has run. *)
Definition background (task : io unit) : io unit :=
  fun d => (Ok tt, snd (task d)).

Definition syncFinchData (connectionId : string) : io response :=
  tryCatch
    (found <- selectActiveFinch connectionId;;
     match found with
     | None => ret (errorResponse 404 "Finch connection not found")
     | Some connection =>
         accessToken <-
           lift (decrypt vaultKey (column (conn_access_token_encrypted connection)));;
         jobId <- insertSyncJob connectionId;;
         background (syncFinchPayrollData connectionId accessToken jobId);;;
         ret (mkResponse 200
                [("success", JsonText "true");
                 ("message", JsonText "Payroll sync started");
                 ("jobId", JsonText jobId)])
     end)
    (fun _ => ret (errorResponse 500 "Failed to initiate sync")).
End Finch.

(* ===================================================================== *)
(** ** controllers/authController.js                                      *)
(* ===================================================================== *)

(** [generateToken] of middleware/auth.js, which signs the object it
    is given; the middleware is not among the sources at hand and is
    taken as a parameter. *)
Class AuthMiddleware := {
  generateToken : list (string * json) -> result string
}.

(** The names [Object.prototype] defines; every object literal
    inherits them. *)
Definition objectPrototypeNames : list string :=
  ["constructor"; "__defineGetter__"; "__defineSetter__"; "hasOwnProperty";
   "__lookupGetter__"; "__lookupSetter__"; "isPrototypeOf";
   "propertyIsEnumerable"; "toString"; "valueOf"; "__proto__";
   "toLocaleString"]%string.

(** [o[k]] for an object literal with own properties [own]: an own
    property wins, then the prototype is searched. *)
Definition getProperty (own : list (string * jsval)) (k : jsstring) : jsval :=
  match find (fun p => jsstring_eqb (str (fst p)) k) own with
  | Some p => snd p
  | None =>
      match find (fun n => jsstring_eqb (str n) k) objectPrototypeNames with
      | Some n => JBuiltin n
      | None => JUndefined
      end
  end.

Definition validPasswords : list (string * jsval) :=
  [("admin@tax.com", JStr (str "admin123"));
   ("preparer@tax.com", JStr (str "preparer123"));
   ("taxpayer@tax.com", JStr (str "taxpayer123"))]%string.

Definition jsonJsOpt (o : option jsstring) : json :=
  match o with
  | Some s => JsonJs s
  | None => JsonNull
  end.

(** [crypto.pbkdf2Sync(password, ...)] accepts a string only; the
    digest it returns is not used by the caller. *)
Definition hashPassword (password : jsval) : result unit :=
  match password with
  | JStr _ => Ok tt
  | _ => Throw "The password argument must be of type string"
  end.

(** The fields of the two request bodies.  The text fields are JSON
    strings when present; [ssn] and [password] are any JSON value. *)
Record register_body := mkRegisterBody {
  rb_email : option jsstring;
  rb_password : jsval;
  rb_firstName : option jsstring;
  rb_lastName : option jsstring;
  rb_ssn : jsval;
  rb_dob : option jsstring;
  rb_phone : option jsstring
}.

Record login_body := mkLoginBody {
  lb_email : option jsstring;
  lb_password : jsval
}.

(** The text of a field that passed the presence check. *)
Definition textOf (field : option jsstring) : jsstring :=
  match field with
  | Some s => s
  | None => []
  end.

(** *** Column types *)

(** The characters of a text, as PostgreSQL counts them: a surrogate
    pair is one character, any other code unit is one. *)
Fixpoint codePoints (s : jsstring) : list jsstring :=
  match s with
  | [] => []
  | u :: rest =>
      if isHighSurrogate u then
        match rest with
        | v :: rest' =>
            if isLowSurrogate v then [u; v] :: codePoints rest'
            else [u] :: codePoints rest
        | [] => [[u]]
        end
      else [u] :: codePoints rest
  end.

Definition SPACE : Z := 32.

(** What a VARCHAR(n) column stores for a text: the text itself when
    it has at most [n] characters; its first [n] characters when all
    the others are spaces, without any error; and nothing ([None])
    otherwise, the statement being refused with 'value too long'. *)
Definition varchar (n : nat) (s : jsstring) : option jsstring :=
  if Nat.leb (length (codePoints s)) n then Some s
  else if forallb (fun c => bool_decide (c = [SPACE]))
            (drop n (codePoints s))
  then Some (concat (take n (codePoints s)))
  else None.

(** The same for a parameter that may be null. *)
Definition varcharNull (n : nat) (o : option jsstring)
  : option (option jsstring) :=
  match o with
  | None => Some None
  | Some s =>
      match varchar n s with
      | Some s' => Some (Some s')
      | None => None
      end
  end.

Section Auth.
Context {C : NodeCrypto} {M : AuthMiddleware}.
Variable w : world.

(** SELECT ... FROM taxpayers WHERE email = $1. *)
Definition selectByEmail (email : jsstring) : io (list taxpayer) :=
  query w SelectTaxpayer (fun _ d =>
    (Ok (filter (fun r => tp_email r = Some email) (taxpayers d)), d)).

(** INSERT INTO taxpayers ... RETURNING ...; [role] takes its column
    default.  [first_name] and [last_name] are VARCHAR(100), [email]
    is VARCHAR(255) and [phone] VARCHAR(20): each stores what
    [varchar] says, so that the row, and what RETURNING gives back,
    may hold less than the request sent. *)
Definition insertTaxpayer (ssnEncrypted : jsval) (b : register_body)
  : io taxpayer :=
  query w InsertTaxpayer (fun t d =>
    let tid := gen_random_uuid w InsertTaxpayer in
    if existsb (fun r => String.eqb (taxpayer_id r) tid) (taxpayers d)
    then (Throw "duplicate key value violates unique constraint", d)
    else
      match textParam ssnEncrypted, rb_firstName b, rb_lastName b, rb_dob b with
      | Some ssn, Some fn, Some ln, Some dob =>
          match varchar 100 fn, varchar 100 ln,
                varcharNull 255 (rb_email b), varcharNull 20 (rb_phone b) with
          | Some first_name, Some last_name, Some email, Some phone =>
              let row :=
                mkTaxpayer tid ssn first_name last_name dob email phone
                  (Some "single"%string) (Some "pending"%string)
                  (Some "taxpayer"%string) t in
              (Ok row, set_taxpayers (fun l => l ++ [row]) d)
          | _, _, _, _ =>
              (Throw "value too long for type character varying", d)
          end
      | _, _, _, _ =>
          (Throw "null value violates not-null constraint", d)
      end).

(** [password.length < 8]: the length of a string is its number of
    code units, a number or a boolean has no [length], and for an
    object of the request the world says what the test gives. *)
Definition tooShort (password : jsval) : bool :=
  match password with
  | JStr s => Nat.ltb (length s) 8
  | JObj r => shortLength w r
  | _ => false
  end.

Definition register (b : register_body) : io response :=
  tryCatch
    (if negb (truthy (column (rb_email b))) || negb (truthy (rb_password b))
        || negb (truthy (column (rb_firstName b)))
        || negb (truthy (column (rb_lastName b)))
        || negb (truthy (rb_ssn b)) || negb (truthy (column (rb_dob b)))
     then ret (errorResponse 400 "Missing required fields")
     else if tooShort (rb_password b)
     then ret (errorResponse 400 "Password must be at least 8 characters")
     else
       existingUser <- selectByEmail (textOf (rb_email b));;
       match existingUser with
       | _ :: _ => ret (errorResponse 409 "Email already registered")
       | [] =>
           ssnEncrypted <-
             lift (encrypt (ENCRYPTION_KEY (process_env_ENCRYPTION_KEY w))
                     (entropy w) (rb_ssn b));;
           lift (hashPassword (rb_password b));;;
           user <- insertTaxpayer ssnEncrypted b;;
           token <- lift (generateToken
                            [("taxpayer_id", JsonText (taxpayer_id user));
                             ("first_name", JsonJs (tp_first_name user));
                             ("last_name", JsonJs (tp_last_name user));
                             ("email", jsonJsOpt (tp_email user));
                             ("created_at", JsonNum (tp_created_at user));
                             ("role", JsonText "taxpayer")]);;
           ret (mkResponse 201
                  [("message", JsonText "Registration successful");
                   ("user.userId", JsonText (taxpayer_id user));
                   ("user.firstName", JsonJs (tp_first_name user));
                   ("user.lastName", JsonJs (tp_last_name user));
                   ("user.email", jsonJsOpt (tp_email user));
                   ("user.role", JsonText "taxpayer");
                   ("user.createdAt", JsonNum (tp_created_at user));
                   ("token", JsonText token)])
       end)
    (fun _ => ret (errorResponse 500 "Internal server error")).

(** [user.role || 'taxpayer']. *)
Definition roleOf (user : taxpayer) : string :=
  match tp_role user with
  | Some (String a r) => String a r
  | _ => "taxpayer"%string
  end.

Definition login (b : login_body) : io response :=
  tryCatch
    (if negb (truthy (column (lb_email b))) || negb (truthy (lb_password b))
     then ret (errorResponse 400 "Email and password required")
     else
       let email := textOf (lb_email b) in
       rows <- selectByEmail email;;
       match rows with
       | [] => ret (errorResponse 401 "Invalid email or password")
       | user :: _ =>
           if truthy (getProperty validPasswords email)
              && negb (strict_eq (getProperty validPasswords email)
                         (lb_password b))
           then ret (errorResponse 401 "Invalid email or password")
           else
             let role := roleOf user in
             token <- lift (generateToken
                              [("taxpayer_id", JsonText (taxpayer_id user));
                               ("first_name", JsonJs (tp_first_name user));
                               ("last_name", JsonJs (tp_last_name user));
                               ("email", jsonJsOpt (tp_email user));
                               ("filing_status", jsonOpt (tp_filing_status user));
                               ("kyc_status", jsonOpt (tp_kyc_status user));
                               ("created_at", JsonNum (tp_created_at user));
                               ("role", JsonText role)]);;
             ret (mkResponse 200
                    [("message", JsonText "Login successful");
                     ("user.userId", JsonText (taxpayer_id user));
                     ("user.firstName", JsonJs (tp_first_name user));
                     ("user.lastName", JsonJs (tp_last_name user));
                     ("user.email", jsonJsOpt (tp_email user));
                     ("user.role", JsonText role);
                     ("user.kycStatus", jsonOpt (tp_kyc_status user));
                     ("user.createdAt", JsonNum (tp_created_at user));
                     ("token", JsonText token)])
       end)
    (fun _ => ret (errorResponse 500 "Internal server error")).
End Auth.

(* ===================================================================== *)
(** ** Observations used by the statements below                          *)
(* ===================================================================== *)

(** [decrypt(encrypt(text))]. *)
Definition roundTrip {C : NodeCrypto} (key : list byte) (rng : nat -> byte)
    (text : jsval) : result jsval :=
  envelope <-? encrypt key rng text; decrypt key envelope.

(** The entries the directory call delivers, when it delivers. *)
Definition directoryOf (w : world) (accessToken : jsval)
  : option (list (option individual)) :=
  match directory w accessToken with
  | Ok (Some data) =>
      Some (match individuals data with
            | Some l => l
            | None => []
            end)
  | _ => None
  end.

(** The [employeeData] the [k]-th detail call delivers, when it does. *)
Definition detailOf (w : world) (accessToken : jsval) (k : nat)
    (ind : individual) : option employee_data :=
  match individualDetail w k accessToken (id ind) with
  | Ok (Some data) =>
      match responses data with
      | Some (Some item :: _) => body item
      | _ => None
      end
  | _ => None
  end.

(** The [k]-th record goes through: its detail arrives and its upsert
    is not refused. *)
Definition recordOk (w : world) (accessToken : jsval) (k : nat)
    (ind : individual) : bool :=
  match detailOf w accessToken k ind, fault w (UpsertEmployee k) with
  | Some _, None => true
  | _, _ => false
  end.

(** Records of [inds] that go through, [k] being the position of the
    first. *)
Fixpoint okCount (w : world) (accessToken : jsval) (k : nat)
    (inds : list individual) : nat :=
  match inds with
  | [] => 0
  | ind :: rest =>
      ((if recordOk w accessToken k ind then 1 else 0)
       + okCount w accessToken (S k) rest)%nat
  end.

(** No entry is null. *)
Definition allObjects (l : list (option individual)) : bool :=
  forallb (fun entry => match entry with
                        | Some _ => true
                        | None => false
                        end) l.

(** The entries the loop gets through: those before the first null
    one. *)
Fixpoint objectsBefore (l : list (option individual)) : list individual :=
  match l with
  | Some ind :: rest => ind :: objectsBefore rest
  | _ => []
  end.

(** The run reaches and passes its last statement: the directory
    arrives, none of its entries is null, and neither closing
    statement is refused. *)
Definition closesCleanly (w : world) (accessToken : jsval) : bool :=
  match directoryOf w accessToken, fault w CompleteSyncJob,
        fault w TouchConnection with
  | Some l, None, None => allObjects l
  | _, _, _ => false
  end.

(** The tables after the [k]-th record: its upsert when the record
    goes through, no change otherwise. *)
Definition afterRecord (w : world) (connectionId : string)
    (accessToken : jsval) (k : nat) (ind : individual) (d : db) : db :=
  match detailOf w accessToken k ind, fault w (UpsertEmployee k) with
  | Some e, None =>
      set_employees
        (upsertEmployee (now w (UpsertEmployee k)) connectionId (id ind) e) d
  | _, _ => d
  end.

(** The tables after the records of [inds], taken in order. *)
Fixpoint afterRecords (w : world) (connectionId : string)
    (accessToken : jsval) (k : nat) (inds : list individual) (d : db) : db :=
  match inds with
  | [] => d
  | ind :: rest =>
      afterRecords w connectionId accessToken (S k) rest
        (afterRecord w connectionId accessToken k ind d)
  end.

(** The row the sync trigger reads, when it reads one. *)
Definition selected (connectionId : string) (d : db) : option connection :=
  match connections d !! connectionId with
  | Some c =>
      if String.eqb (conn_provider c) "finch"
         && String.eqb (conn_status c) "active"
      then Some c else None
  | None => None
  end.

(** Every row of [employees] sits under its own natural key. *)
Definition keyed (tbl : gmap (string * string) employee) : Prop :=
  forall key row,
    tbl !! key = Some row ->
    (emp_connection_id row, emp_provider_employee_id row) = key.

(** A value a JSON request body can carry. *)
Definition fromRequest (v : jsval) : bool :=
  match v with
  | JBuiltin _ => false
  | _ => true
  end.

(** The HTTP status of an answer. *)
Definition statusOf (r : result response * db) : option nat :=
  match fst r with
  | Ok resp => Some (status resp)
  | Throw _ => None
  end.

(** An e-mail address the login code has a password for. *)
Definition isDemoEmail (email : jsstring) : bool :=
  existsb (fun p => jsstring_eqb (str (fst p)) email) validPasswords.

(** An e-mail address that names a member of [Object.prototype]. *)
Definition isPrototypeName (email : jsstring) : bool :=
  existsb (fun n => jsstring_eqb (str n) email) objectPrototypeNames.

(* ===================================================================== *)
(** ** Concrete worlds and tables                                          *)
(* ===================================================================== *)

#[local] Instance byte_eq_decision : EqDecision byte := Byte.byte_eq_dec.

(** A stand-in for the AES primitive that satisfies [cipherLaw]: the
    ciphertext is the plaintext tagged with the IV. *)
Definition tagCipher : NodeCrypto := {|
  cipherRun key iv p := iv ++ p;
  decipherRun key iv c :=
    if bool_decide (take (length iv) c = iv)
    then Some (drop (length iv) c)
    else None
|}.

Definition stubMiddleware : AuthMiddleware := {|
  generateToken _ := Ok "signed-token"%string
|}.

Definition countingBytes (n : nat) : byte := byte_of_Z (Z.of_nat n + 160).

Definition clock (s : stmt) : Z :=
  match s with
  | UpsertEmployee k => 1000 + Z.of_nat k
  | CompleteSyncJob => 2000
  | TouchConnection => 2001
  | FailSyncJob => 2002
  | _ => 900
  end.

(** A world without database faults, whose provider answers with
    [dir] and [det]. *)
Definition quietWorld
    (dir : jsval -> result (option directory_data))
    (det : nat -> jsval -> string -> result (option individual_data))
  : world :=
  mkWorld (fun _ => None) clock
    (fun s => match s with
              | InsertSyncJob => "job-1"
              | InsertTaxpayer => "tp-9"
              | _ => "conn-9"
              end%string)
    countingBytes None
    (fun _ => Throw "no state") (fun _ => Throw "no token")
    (fun _ => Throw "no company") dir det (fun _ => false).

Definition detailAnswer (e : employee_data) : result (option individual_data) :=
  Ok (Some (mkIndividualData (Some [Some (mkResponseItem (Some e))]))).

Definition directoryAnswer (ids : list string)
  : result (option directory_data) :=
  Ok (Some (mkDirectoryData
              (Some (map (fun i => Some (mkIndividual i)) ids)))).

Definition alice : employee_data :=
  mkEmployeeData (Some "Alice") (Some "Ng")
    (Some [Some (Some "alice@acme.test")]) (Some "2021-03-01")
    (Some (Some "employee")).

(** Alice after a change upstream: new name, new hire date. *)
Definition aliceRenamed : employee_data :=
  mkEmployeeData (Some "Alicia") (Some "Ng-Park")
    (Some [Some (Some "alicia@acme.test")]) (Some "2022-07-15")
    (Some (Some "contractor")).

(** Three identifiers; the detail call of the second answers 404. *)
Definition worldSecondMissing : world :=
  quietWorld
    (fun _ => directoryAnswer ["emp-1"; "emp-2"; "emp-3"])
    (fun _ _ i => if String.eqb i "emp-2"
                  then Throw "Request failed with status code 404"
                  else detailAnswer alice).


(** Two identifiers; every detail call fails. *)
Definition worldAllMissing : world :=
  quietWorld
    (fun _ => directoryAnswer ["emp-1"; "emp-2"])
    (fun _ _ _ => Throw "Request failed with status code 404").

(** The provider rejects the bearer token. *)
Definition worldUnauthorized : world :=
  quietWorld
    (fun _ => Throw "Request failed with status code 401")
    (fun _ _ _ => Throw "Request failed with status code 401").

(** One identifier, whose record now reads [aliceRenamed]. *)
Definition worldRenamed : world :=
  quietWorld
    (fun _ => directoryAnswer ["emp-1"])
    (fun _ _ _ => detailAnswer aliceRenamed).

Definition envelopeOf (token : string) : option jsstring :=
  match encrypt (C := tagCipher) (ENCRYPTION_KEY None) countingBytes
          (JStr (str token)) with
  | Ok (JStr s) => Some s
  | _ => None
  end.

Definition connectionWith (token : option jsstring) : connection :=
  mkConnection (Some "tp-1") None "finch" (Some "acme") token "active" None
    [] 100.

Definition dbWith (token : option jsstring) : db :=
  mkDb [] {[ "conn-1"%string := connectionWith token ]} ∅ ∅ [].

(** A connection whose stored credential decrypts. *)
Definition dbConnected : db := dbWith (envelopeOf "finch-access-token").

(** [dbConnected] after a first sync stored Alice as emp-1, with a
    fresh job waiting. *)
Definition dbSynced : db :=
  mkDb [] {[ "conn-1"%string := connectionWith (envelopeOf "finch-access-token") ]}
    {[ ("conn-1", "emp-1")%string :=
         mkEmployee "conn-1" "emp-1" (Some "Alice") (Some "Ng")
           (Some "alice@acme.test") (Some "2021-03-01") (Some "employee")
           alice 500 500 ]}
    {[ "job-2"%string :=
         mkSyncJob "conn-1" "finch_payroll_sync" "processing" (Some 900) None
           0 0 None ]}
    [].

Definition constructorBody : register_body :=
  mkRegisterBody (Some (str "constructor")) (JStr (str "correct horse"))
    (Some (str "Con")) (Some (str "Structor")) (JStr (str "123-45-6789"))
    (Some (str "1990-01-01")) None.

Definition emptyDb : db := mkDb [] ∅ ∅ ∅ [].

Definition token1 : jsval := JStr (str "finch-access-token").

(** No provider at all: every HTTP call fails. *)
Definition worldOffline : world :=
  quietWorld (fun _ => Throw "connect ECONNREFUSED")
    (fun _ _ _ => Throw "connect ECONNREFUSED").

(** The provider completes the OAuth exchange. *)
Definition worldCallback : world :=
  mkWorld (fun _ => None) clock (fun _ => "conn-9"%string) countingBytes None
    (fun _ => Ok (Some (mkStateData (Some "tp-1") None (Some "corr-7"))))
    (fun _ => Ok (Some (mkTokenData token1 (Some "acme"))))
    (fun _ => Ok (Some (mkCompanyData (Some "Acme Corporation")
                          (Some "12-3456789"))))
    (fun _ => Throw "unused") (fun _ _ _ => Throw "unused")
    (fun _ => false).

(** The third taxpayer of the seed script. *)
Definition john : taxpayer :=
  mkTaxpayer "33333333-3333-3333-3333-333333333333" (str "c3NuLTM=")
    (str "John") (str "Taxpayer") (str "1990-08-20")
    (Some (str "taxpayer@tax.com")) (Some (str "555-0300")) (Some "single")
    (Some "verified") (Some "taxpayer") 50.

Definition dbSeeded : db := mkDb [john] ∅ ∅ ∅ [].

(** A stored credential that is no envelope at all. *)
Definition dbGarbled : db := dbWith (Some (str "zz")).

Definition zeroKey : list byte := repeat x00 32.

(* ===================================================================== *)
(** ** utils/encryption.js: masking and password digests                  *)
(* ===================================================================== *)

(** [maskSSN(ssn)], for [ssn] a string or absent: [ssn.slice(-4)] is
    the last four code units. *)
Definition maskSSN (ssn : option jsstring) : jsstring :=
  match ssn with
  | Some (c :: s) =>
      if Nat.ltb (length (c :: s)) 4 then str "***"
      else str "XXX-XX-" ++ drop (length (c :: s) - 4) (c :: s)
  | _ => str "***"
  end.

(** [crypto.pbkdf2Sync(password, 'salt', 100000, 64, 'sha512')] on the
    bytes of the password: the key derivation of Node's crypto module. *)
Class NodePbkdf2 := {
  pbkdf2Sync : list byte -> list byte
}.

(** The derived key has the length asked for. *)
Definition digestLaw (P : NodePbkdf2) : Prop :=
  forall password, length (pbkdf2Sync password) = 64%nat.

(** [crypto.timingSafeEqual(a, b)]: refuses buffers of different
    lengths. *)
Definition timingSafeEqual (a b : list byte) : result bool :=
  if Nat.eqb (length a) (length b) then Ok (bool_decide (a = b))
  else Throw "Input buffers must have the same byte length".

Section Passwords.
Context {P : NodePbkdf2}.

(** [hashPassword(password)] with the digest it returns. *)
Definition hashPasswordHex (password : jsval) : result jsstring :=
  match password with
  | JStr s => Ok (hexEncode (pbkdf2Sync (utf8Encode s)))
  | _ => Throw "The password argument must be of type string"
  end.

(** [verifyPassword(password, hash)]; [Buffer.from] encodes both
    strings as UTF-8. *)
Definition verifyPassword (password hash : jsval) : result bool :=
  passwordHash <-? hashPasswordHex password;
  match hash with
  | JStr h => timingSafeEqual (utf8Encode passwordHash) (utf8Encode h)
  | _ => Throw "The first argument must be of type string"
  end.
End Passwords.

(** *** The seed script (scripts/seed-test-data.js) *)

(** [decipher.final()] throws when no ciphertext at all was fed to
    the decipher: there is no padding block to strip. *)
Definition finalLaw (C : NodeCrypto) : Prop :=
  forall key iv,
    length key = 32%nat -> length iv = 16%nat -> decipherRun key iv [] = None.

(** [encryptSSN(ssn)] of the seed script: the algorithm and key
    setting of the vault (the key cut to 32 bytes), an IV of sixteen
    zero bytes, and the ciphertext alone as the result. *)
Definition encryptSSN {C : NodeCrypto} (env : option jsstring)
    (ssn : jsstring) : result jsstring :=
  let key := take 32 (ENCRYPTION_KEY env) in
  let iv := repeat x00 16 in
  _ <-? checkCipherArgs key iv;
  Ok (hexEncode (cipherRun key iv (utf8Encode ssn))).

(** A string of 16-bit code units. *)
Definition codeUnits (s : jsstring) : Prop :=
  Forall (fun u => 0 <= u < 0x10000) s.

(** A string of ASCII characters. *)
Definition asciiText (s : jsstring) : Prop :=
  Forall (fun u => 0 <= u < 0x80) s.

(** A stand-in for the key derivation that satisfies [digestLaw]: the
    password bytes, cut or padded to 64. *)
Definition paddedDigest : NodePbkdf2 := {|
  pbkdf2Sync password := take 64 (password ++ repeat x00 64)
|}.

(* ===================================================================== *)
(** ** Read-only handlers                                                 *)
(* ===================================================================== *)

(** One SELECT of a read-only handler: it throws what the database
    throws on it, if anything, and reads the tables otherwise. *)
Definition select {A} (refused : option string) (read : db -> A) : io A :=
  fun d =>
    match refused with
    | Some e => (Throw e, d)
    | None => (Ok (read d), d)
    end.

(** [req.user] as the authentication middleware leaves it. *)
Record req_user := mkReqUser {
  userId : option string;
  role : option string
}.

(** [column = $1] for a parameter that may be null: never true on
    null. *)
Definition sqlEq (column param : option string) : Prop :=
  match param with
  | Some p => column = Some p
  | None => False
  end.

#[local] Instance sqlEq_dec (column param : option string) :
  Decision (sqlEq column param).
Proof. destruct param; cbn; apply _. Defined.

(** *** getConnections (controllers/finchController.js) *)



(** ORDER BY created_at DESC. *)
Definition newerFirst (a b : string * connection) : Prop :=
  conn_created_at (snd b) <= conn_created_at (snd a).

#[local] Instance newerFirst_dec (a b : string * connection) :
  Decision (newerFirst a b).
Proof. unfold newerFirst. apply _. Defined.




(** *** Access to a business dashboard (dashboard service and controller) *)

(** SELECT 1 FROM connections WHERE taxpayer_id = $1
    AND business_id = $2 AND status = 'active'. *)
Definition accessRows (user : option string) (businessId : string) (d : db)
  : list (string * connection) :=
  filter (fun row => sqlEq (conn_taxpayer_id (snd row)) user
                     /\ conn_business_id (snd row) = Some businessId
                     /\ conn_status (snd row) = "active"%string)
    (map_to_list (connections d)).

(** [verifyBusinessAccess(userId, businessId)] of the dashboard
    service: a query that throws is logged and counts as no access. *)
Definition verifyBusinessAccess (refused : option string)
    (user : option string) (businessId : string) : io bool :=
  tryCatch
    (rows <- select refused (accessRows user businessId);;
     ret (Nat.ltb 0 (length rows)))
    (fun _ => ret false).

(** [dashboardService.getBusinessDashboard(businessId, taxYear)]: it
    only reads, and answers with stock figures instead of throwing;
    its sums and formatting are floating-point work and stay outside
    the model. *)
Class DashboardService := {
  businessDashboard : string -> jsval -> db -> list (string * json)
}.

Section Dashboard.
Context {S : DashboardService}.

(** [getBusinessDashboard(req, res)] of the controller; [thisYear] is
    [new Date().getFullYear()]. *)
Definition getBusinessDashboard (refused : option string) (thisYear : Z)
    (user : req_user) (businessId : string) (tax_year : jsval) : io response :=
  tryCatch
    (hasAccess <-
       (if bool_decide (role user = Some "admin"%string) then ret true
        else verifyBusinessAccess refused (userId user) businessId);;
     if hasAccess
     then
       fun d =>
         (Ok (mkResponse 200
                (businessDashboard businessId
                   (if truthy tax_year then tax_year else JNum thisYear) d)),
          d)
     else ret (errorResponse 403 "Access denied to this business"))
    (fun _ => ret (errorResponse 500 "Failed to load dashboard")).
End Dashboard.

(** [authorizeRole(...roles)] of middleware/auth.js (the file is not
    among the sources at hand), as routes/dashboard.js mounts it in
    front of a handler: it answers the request itself ([Some]) or
    calls [next()] ([None]). *)
Class RoleMiddleware := {
  authorizeRole : list string -> req_user -> option response
}.

(** GET /business/:businessId of routes/dashboard.js, once
    [authenticateToken] has set [req.user]:
    [authorizeRole('business_owner', 'admin')], then the handler. *)
Definition businessDashboardRoute {R : RoleMiddleware} {S : DashboardService}
    (refused : option string) (thisYear : Z) (user : req_user)
    (businessId : string) (tax_year : jsval) : io response :=
  match authorizeRole ["business_owner"; "admin"]%string user with
  | Some refusal => ret refusal
  | None => getBusinessDashboard refused thisYear user businessId tax_year
  end.

(* ===================================================================== *)
(** ** Observations on registration and login                             *)
(* ===================================================================== *)

(** The request body with another [password]. *)
Definition withPassword (password : jsval) (b : register_body)
  : register_body :=
  mkRegisterBody (rb_email b) password (rb_firstName b) (rb_lastName b)
    (rb_ssn b) (rb_dob b) (rb_phone b).

(** No two rows of [taxpayers] carry the same e-mail address (rows
    without one apart). *)
Definition uniqueEmails (d : db) : Prop :=
  NoDup (omap tp_email (taxpayers d)).

(** The JSON body of an answer. *)
Definition payloadOf (r : result response * db) : list (string * json) :=
  match fst r with
  | Ok resp => payload resp
  | Throw _ => []
  end.

(** A middleware that cannot sign, as [jwt.sign] without a secret. *)
Definition refusingMiddleware : AuthMiddleware := {|
  generateToken _ := Throw "secretOrPrivateKey must have a value"
|}.

(** A request that passes every check of [register]. *)
Definition maryBody : register_body :=
  mkRegisterBody (Some (str "mary@example.com")) (JStr (str "correct horse"))
    (Some (str "Mary")) (Some (str "Major")) (JStr (str "123-45-6789"))
    (Some (str "1985-04-12")) (Some (str "555-0101")).

(** An address of 256 characters, the last of them a space. *)
Definition paddedEmail : jsstring :=
  repeat 97 243 ++ str "@example.com" ++ [SPACE].

Definition paddedBody : register_body :=
  mkRegisterBody (Some paddedEmail) (JStr (str "correct horse"))
    (Some (str "Mary")) (Some (str "Major")) (JStr (str "123-45-6789"))
    (Some (str "1985-04-12")) (Some (str "555-0101")).

(** [worldOffline] a moment later: the next taxpayer identifier. *)
Definition worldOfflineLater : world :=
  mkWorld (fault worldOffline) (now worldOffline)
    (fun s => match s with
              | InsertTaxpayer => "tp-10"%string
              | _ => gen_random_uuid worldOffline s
              end)
    (entropy worldOffline) (process_env_ENCRYPTION_KEY worldOffline)
    (parseState worldOffline) (tokenExchange worldOffline)
    (companyInfo worldOffline) (directory worldOffline)
    (individualDetail worldOffline) (shortLength worldOffline).

(** The conditions under which [register] gets through its INSERT
    and appends [row]: every check passed, no statement refused, the
    address as sent not found, every VARCHAR column taking its text. *)
Definition registers {C : NodeCrypto} (w : world) (b : register_body)
    (d : db) (row : taxpayer) : Prop :=
  (exists c e, rb_email b = Some (c :: e))
  /\ (exists s, rb_password b = JStr s /\ (8 <= length s)%nat)
  /\ (exists c s, rb_firstName b = Some (c :: s))
  /\ (exists c s, rb_lastName b = Some (c :: s))
  /\ (exists c s, rb_dob b = Some (c :: s))
  /\ fault w SelectTaxpayer = None
  /\ filter (fun r => tp_email r = rb_email b) (taxpayers d) = []
  /\ fault w InsertTaxpayer = None
  /\ existsb (fun r => String.eqb (taxpayer_id r)
                         (gen_random_uuid w InsertTaxpayer)) (taxpayers d)
     = false
  /\ exists envelope first_name last_name email phone,
       encrypt (ENCRYPTION_KEY (process_env_ENCRYPTION_KEY w)) (entropy w)
         (rb_ssn b) = Ok (JStr envelope)
       /\ varchar 100 (textOf (rb_firstName b)) = Some first_name
       /\ varchar 100 (textOf (rb_lastName b)) = Some last_name
       /\ varcharNull 255 (rb_email b) = Some email
       /\ varcharNull 20 (rb_phone b) = Some phone
       /\ row = mkTaxpayer (gen_random_uuid w InsertTaxpayer) envelope
                  first_name last_name (textOf (rb_dob b)) email phone
                  (Some "single"%string) (Some "pending"%string)
                  (Some "taxpayer"%string) (now w InsertTaxpayer).

(** What [register] answers once [user] is inserted: 201 with the
    token, or 500 when signing throws. *)
Definition registered {M : AuthMiddleware} (user : taxpayer) : response :=
  match generateToken
          [("taxpayer_id", JsonText (taxpayer_id user));
           ("first_name", JsonJs (tp_first_name user));
           ("last_name", JsonJs (tp_last_name user));
           ("email", jsonJsOpt (tp_email user));
           ("created_at", JsonNum (tp_created_at user));
           ("role", JsonText "taxpayer")]%string with
  | Ok token =>
      mkResponse 201
        [("message", JsonText "Registration successful");
         ("user.userId", JsonText (taxpayer_id user));
         ("user.firstName", JsonJs (tp_first_name user));
         ("user.lastName", JsonJs (tp_last_name user));
         ("user.email", jsonJsOpt (tp_email user));
         ("user.role", JsonText "taxpayer");
         ("user.createdAt", JsonNum (tp_created_at user));
         ("token", JsonText token)]%string
  | Throw _ => errorResponse 500 "Internal server error"
  end.

(** A second request under the address of [john]. *)
Definition johnAgain : register_body :=
  mkRegisterBody (Some (str "taxpayer@tax.com")) (JStr (str "another pass"))
    (Some (str "Johnny")) (Some (str "Taxpayer")) (JStr (str "987-65-4321"))
    (Some (str "1990-08-20")) None.

(* ===================================================================== *)
(** ** Observations on repeated syncs                                     *)
(* ===================================================================== *)

(** The directory entries the loop of a run goes through: those
    before the first null one, and none when the directory call
    fails. *)
Definition entries (w : world) (accessToken : jsval) : list individual :=
  match directoryOf w accessToken with
  | Some l => objectsBefore l
  | None => []
  end.

(** The columns ON CONFLICT ... DO UPDATE does not list. *)
Definition keptColumns (old new : employee) : Prop :=
  emp_connection_id new = emp_connection_id old
  /\ emp_provider_employee_id new = emp_provider_employee_id old
  /\ emp_hire_date new = emp_hire_date old
  /\ emp_source_data new = emp_source_data old
  /\ emp_created_at new = emp_created_at old.

(** A row with its updated_at blanked. *)
Definition withoutUpdatedAt (e : employee) : employee :=
  mkEmployee (emp_connection_id e) (emp_provider_employee_id e)
    (emp_first_name e) (emp_last_name e) (emp_email e) (emp_hire_date e)
    (emp_employment_status e) (emp_source_data e) (emp_created_at e) 0.

(** Two runs get the same answers from the provider under
    [accessToken], and the same upserts are refused. *)
Definition sameAnswers (w1 w2 : world) (accessToken : jsval) : Prop :=
  directoryOf w1 accessToken = directoryOf w2 accessToken
  /\ (forall k ind,
        detailOf w1 accessToken k ind = detailOf w2 accessToken k ind)
  /\ (forall k, fault w1 (UpsertEmployee k) = fault w2 (UpsertEmployee k)).

(** The clock of a later run. *)
Definition laterClock (s : stmt) : Z := clock s + 5000.

(** [worldSecondMissing] an hour later: same provider, later clock,
    other identifiers. *)
Definition worldSecondMissingLater : world :=
  mkWorld (fault worldSecondMissing) laterClock
    (fun s => match s with
              | InsertSyncJob => "job-2"
              | _ => "conn-8"
              end%string)
    (entropy worldSecondMissing)
    (process_env_ENCRYPTION_KEY worldSecondMissing)
    (parseState worldSecondMissing) (tokenExchange worldSecondMissing)
    (companyInfo worldSecondMissing) (directory worldSecondMissing)
    (individualDetail worldSecondMissing) (shortLength worldSecondMissing).

(** A business owner among the taxpayers, and the first business of
    the seed script. *)
Definition OWNER_ID : string := "44444444-4444-4444-4444-444444444444".

Definition ACME_ID : string := "aaaaaaaa-aaaa-aaaa-aaaa-aaaaaaaaaaaa".

Definition owner : taxpayer :=
  mkTaxpayer OWNER_ID (str "c3NuLTQ=") (str "Olivia") (str "Owner")
    (str "1979-02-03") (Some (str "owner@acme.com")) None (Some "married")
    (Some "verified") (Some "business_owner") 60.

Definition dbOwner : db := mkDb [john; owner] ∅ ∅ ∅ [].

(** The [state] that [initiateFinchConnect] hands out for [owner] and
    that business: the base64 text of the JSON object (as
    [JSON.stringify] writes it) with taxpayerId [OWNER_ID], businessId
    [ACME_ID], timestamp 1767225600000 and correlationId 'corr-7'. *)
Definition ownerState : jsstring :=
  str ("eyJ0YXhwYXllcklkIjoiNDQ0NDQ0NDQtNDQ0NC00NDQ0LTQ0NDQtNDQ0NDQ0NDQ0NDQ0"
       ++ "IiwiYnVzaW5lc3NJZCI6ImFhYWFhYWFhLWFhYWEtYWFhYS1hYWFhLWFhYWFhYWFhYWFh"
       ++ "YSIsInRpbWVzdGFtcCI6MTc2NzIyNTYwMDAwMCwiY29ycmVsYXRpb25JZCI6ImNvcnIt"
       ++ "NyJ9").

(** The callback of [owner]: only that [state] parses, and the provider
    completes the OAuth exchange. *)
Definition worldConnect : world :=
  mkWorld (fun _ => None) clock
    (fun s => match s with
              | InsertSyncJob => "0b0b0b0b-0000-4000-8000-000000000001"
              | _ => "c0c0c0c0-0000-4000-8000-000000000009"
              end%string)
    countingBytes None
    (fun s => if bool_decide (s = ownerState)
              then Ok (Some (mkStateData (Some OWNER_ID) (Some ACME_ID)
                               (Some "corr-7")))
              else Throw "Unexpected token in JSON at position 0")
    (fun _ => Ok (Some (mkTokenData token1 (Some "acme"))))
    (fun _ => Ok (Some (mkCompanyData (Some "Acme Corporation")
                          (Some "12-3456789"))))
    (fun _ => Throw "unused") (fun _ _ _ => Throw "unused")
    (fun _ => false).

(** A guard that lets the listed roles through and answers 403 to
    every other caller. *)
Definition listedRoles : RoleMiddleware := {|
  authorizeRole roles user :=
    match role user with
    | Some r =>
        if existsb (String.eqb r) roles then None
        else Some (errorResponse 403 "Insufficient permissions")
    | None => Some (errorResponse 403 "Insufficient permissions")
    end
|}.

(** A dashboard service that answers with the business it was asked
    for. *)
Definition echoDashboard : DashboardService := {|
  businessDashboard businessId _ _ := [("business.id", JsonText businessId)]
|}.

(** The provider is unreachable and the failure UPDATE is refused as
    well. *)
Definition worldNoRecord : world :=
  mkWorld (fun s => match s with
                    | FailSyncJob => Some "Connection terminated"%string
                    | _ => None
                    end)
    clock (gen_random_uuid worldOffline) countingBytes None
    (fun _ => Throw "no state") (fun _ => Throw "no token")
    (fun _ => Throw "no company")
    (fun _ => Throw "connect ECONNREFUSED")
    (fun _ _ _ => Throw "connect ECONNREFUSED") (fun _ => false).


(** None of the records of [inds] that go through, [k] being the
    position of the first, has the key [key]. *)
Definition untouchedBy (w : world) (connectionId : string)
    (accessToken : jsval) (key : string * string) (k : nat)
    (inds : list individual) : Prop :=
  forall i ind,
    inds !! i = Some ind -> recordOk w accessToken (k + i) ind = true ->
    key <> (connectionId, id ind).

(** Both rows absent, or both there with the same kept columns. *)
Definition sameKept (x y : option employee) : Prop :=
  match x, y with
  | Some a, Some b => keptColumns a b
  | None, None => True
  | _, _ => False
  end.

(* ===================================================================== *)
(** * Proofs: buffers                                                     *)
(* ===================================================================== *)

Lemma Z_of_byte_range (b : byte) : 0 <= Z_of_byte b < 256.
Proof.
  unfold Z_of_byte. pose proof (Byte.to_N_bounded b). lia.
Qed.

Lemma Z_of_byte_of_Z (z : Z) : 0 <= z < 256 -> Z_of_byte (byte_of_Z z) = z.
Proof.
  intros Hz. unfold Z_of_byte, byte_of_Z.
  destruct (Byte.of_N (Z.to_N z)) as [b|] eqn:E.
  - apply Byte.to_of_N in E. rewrite E. lia.
  - apply Byte.of_N_None_iff in E. lia.
Qed.

Lemma byte_of_Z_of_byte (b : byte) : byte_of_Z (Z_of_byte b) = b.
Proof.
  unfold Z_of_byte, byte_of_Z. rewrite N2Z.id, Byte.of_to_N. reflexivity.
Qed.

(** Boolean range tests against literals, decided from the context. *)
Ltac range_tests :=
  repeat match goal with
    | |- context [?a <? ?b] =>
        first [ rewrite (proj2 (Z.ltb_lt a b)) by lia
              | rewrite (proj2 (Z.ltb_ge a b)) by lia ]
    | |- context [?a <=? ?b] =>
        first [ rewrite (proj2 (Z.leb_le a b)) by lia
              | rewrite (proj2 (Z.leb_gt a b)) by lia ]
    | |- context [?a =? ?b] =>
        first [ rewrite (proj2 (Z.eqb_eq a b)) by lia
              | rewrite (proj2 (Z.eqb_neq a b)) by lia ]
    end; cbn [andb orb negb].

Lemma hexVal_hexDigit (n : Z) : 0 <= n < 16 -> hexVal (hexDigit n) = Some n.
Proof.
  intros Hn. unfold hexVal.
  rewrite Z.mod_small by (unfold hexDigit; destruct (Z.ltb_spec n 10); lia).
  unfold hexDigit, unhex.
  destruct (Z.ltb_spec n 10); range_tests; f_equal; lia.
Qed.

Lemma hexDigit_not_colon (n : Z) : 0 <= n < 16 -> hexDigit n <> COLON.
Proof.
  intros Hn. unfold hexDigit, COLON. destruct (Z.ltb_spec n 10); lia.
Qed.

Lemma nibbles (b : byte) :
  0 <= Z_of_byte b / 16 < 16 /\ 0 <= Z_of_byte b mod 16 < 16 /\
  16 * (Z_of_byte b / 16) + Z_of_byte b mod 16 = Z_of_byte b.
Proof.
  pose proof (Z_of_byte_range b).
  pose proof (Z.div_mod (Z_of_byte b) 16 ltac:(lia)).
  pose proof (Z.mod_pos_bound (Z_of_byte b) 16 ltac:(lia)).
  repeat split; lia.
Qed.

Lemma hexDecode_hexEncode (bs : list byte) : hexDecode (hexEncode bs) = bs.
Proof.
  induction bs as [|b bs IH]; [reflexivity|].
  destruct (nibbles b) as (Hh & Hl & Hsum).
  cbn [hexEncode hexDecode].
  rewrite !hexVal_hexDigit by assumption.
  rewrite Hsum, byte_of_Z_of_byte, IH. reflexivity.
Qed.

Lemma hexEncode_length (bs : list byte) :
  length (hexEncode bs) = (2 * length bs)%nat.
Proof. induction bs; cbn [hexEncode length]; lia. Qed.

Lemma hexEncode_no_colon (bs : list byte) : COLON ∉ hexEncode bs.
Proof.
  induction bs as [|b bs IH]; cbn [hexEncode].
  - apply not_elem_of_nil.
  - destruct (nibbles b) as (Hh & Hl & _).
    rewrite !not_elem_of_cons. repeat split; try assumption;
      apply not_eq_sym, hexDigit_not_colon; assumption.
Qed.

Lemma split_no_sep (sep : Z) (s : jsstring) : sep ∉ s -> split sep s = [s].
Proof.
  induction s as [|c s IH]; intros Hs; [reflexivity|].
  apply not_elem_of_cons in Hs as [Hc Hs]. cbn [split].
  rewrite (proj2 (Z.eqb_neq c sep)) by congruence.
  rewrite IH by assumption. reflexivity.
Qed.

Lemma split_app_sep (sep : Z) (a b : jsstring) :
  sep ∉ a -> split sep (a ++ sep :: b) = a :: split sep b.
Proof.
  induction a as [|c a IH]; intros Ha; cbn [split app].
  - rewrite Z.eqb_refl. reflexivity.
  - apply not_elem_of_cons in Ha as [Hc Ha].
    rewrite (proj2 (Z.eqb_neq c sep)) by congruence.
    rewrite IH by assumption. reflexivity.
Qed.

(** *** UTF-8 *)

(** One unfolding of the decoder at the head of the goal; the tail is
    kept abstract meanwhile so that the error branches stay folded. *)
Ltac decode_step :=
  match goal with
  | |- utf8Decode (?b :: ?t) = _ =>
      let t0 := fresh "t" in
      remember t as t0 eqn:Ht; cbn [utf8Decode]; subst t0;
      cbv beta match zeta
  end.

Lemma decode_1 (u : Z) (t : list byte) :
  0 <= u < 0x80 -> utf8Decode (utf8_1 u ++ t) = u :: utf8Decode t.
Proof.
  intros Hu. unfold utf8_1. cbn [app]. decode_step.
  rewrite Z_of_byte_of_Z by lia. range_tests. reflexivity.
Qed.

Lemma base64_digit (c : Z) :
  0 <= c ->
  exists q r, c / 64 = q /\ c mod 64 = r /\ c = 64 * q + r /\ 0 <= r < 64
              /\ 0 <= q.
Proof.
  intros Hc. exists (c / 64), (c mod 64).
  pose proof (Z.div_mod c 64 ltac:(lia)).
  pose proof (Z.mod_pos_bound c 64 ltac:(lia)).
  repeat split; lia.
Qed.

(** Name quotient and remainder of [c] by 64 and forget how they were
    computed. *)
Ltac digit c q r :=
  let Hq := fresh in let Hr := fresh in
  destruct (base64_digit c ltac:(lia)) as (q & r & Hq & Hr & ? & ? & ?);
  rewrite ?Hq, ?Hr in *; clear Hq Hr.

Ltac nested_div c :=
  replace (c / 262144) with (c / 64 / 64 / 64)
    by (rewrite !Z.div_div by lia; reflexivity);
  replace (c / 4096) with (c / 64 / 64)
    by (rewrite Z.div_div by lia; reflexivity).

(** The decoder on a well-formed sequence, by its length. *)
Lemma decode_bytes_2 (x0 x1 : Z) (t : list byte) :
  0xC2 <= x0 <= 0xDF -> 0x80 <= x1 <= 0xBF ->
  utf8Decode (byte_of_Z x0 :: byte_of_Z x1 :: t)
  = ((x0 - 0xC0) * 64 + (x1 - 0x80)) :: utf8Decode t.
Proof.
  intros H0 H1. decode_step. unfold inRange, cont.
  rewrite !Z_of_byte_of_Z by lia. range_tests. reflexivity.
Qed.

Lemma decode_bytes_3 (x0 x1 x2 : Z) (t : list byte) :
  0xE0 <= x0 <= 0xEF -> 0x80 <= x1 <= 0xBF -> 0x80 <= x2 <= 0xBF ->
  (x0 = 0xE0 -> 0xA0 <= x1) -> (x0 = 0xED -> x1 <= 0x9F) ->
  utf8Decode (byte_of_Z x0 :: byte_of_Z x1 :: byte_of_Z x2 :: t)
  = ((x0 - 0xE0) * 4096 + (x1 - 0x80) * 64 + (x2 - 0x80)) :: utf8Decode t.
Proof.
  intros H0 H1 H2 Hlo Hhi. decode_step. unfold inRange, cont.
  rewrite !Z_of_byte_of_Z by lia.
  destruct (Z.eqb_spec x0 0xE0) as [E|E];
    destruct (Z.eqb_spec x0 0xED) as [E'|E'];
    try (exfalso; lia);
    try specialize (Hlo E); try specialize (Hhi E');
    range_tests; reflexivity.
Qed.

Lemma decode_bytes_4 (x0 x1 x2 x3 : Z) (t : list byte) :
  0xF0 <= x0 <= 0xF4 -> 0x80 <= x1 <= 0xBF -> 0x80 <= x2 <= 0xBF ->
  0x80 <= x3 <= 0xBF ->
  (x0 = 0xF0 -> 0x90 <= x1) -> (x0 = 0xF4 -> x1 <= 0x8F) ->
  utf8Decode (byte_of_Z x0 :: byte_of_Z x1 :: byte_of_Z x2 :: byte_of_Z x3 :: t)
  = unitsOf ((x0 - 0xF0) * 262144 + (x1 - 0x80) * 4096 + (x2 - 0x80) * 64
             + (x3 - 0x80)) ++ utf8Decode t.
Proof.
  intros H0 H1 H2 H3 Hlo Hhi. decode_step. unfold inRange, cont.
  rewrite !Z_of_byte_of_Z by lia.
  destruct (Z.eqb_spec x0 0xF0) as [E|E];
    destruct (Z.eqb_spec x0 0xF4) as [E'|E'];
    try (exfalso; lia);
    try specialize (Hlo E); try specialize (Hhi E');
    range_tests; reflexivity.
Qed.

Lemma decode_2 (u : Z) (t : list byte) :
  0x80 <= u < 0x800 -> utf8Decode (utf8_2 u ++ t) = u :: utf8Decode t.
Proof.
  intros Hu. unfold utf8_2. cbn [app].
  digit u q1 r0.
  rewrite decode_bytes_2 by lia. f_equal. lia.
Qed.

Lemma decode_3 (u : Z) (t : list byte) :
  0x800 <= u < 0x10000 -> ~ (0xD800 <= u <= 0xDFFF) ->
  utf8Decode (utf8_3 u ++ t) = u :: utf8Decode t.
Proof.
  intros Hu Hs. unfold utf8_3. cbn [app].
  nested_div u. digit u q1 r0. digit q1 q2 r1.
  rewrite decode_bytes_3 by lia. f_equal. lia.
Qed.

Lemma surrogate_units (u v c : Z) :
  0xD800 <= u <= 0xDBFF -> 0xDC00 <= v <= 0xDFFF ->
  c = 0x10000 + (u - 0xD800) * 1024 + (v - 0xDC00) ->
  unitsOf c = [u; v].
Proof.
  intros Hu Hv ->. unfold unitsOf. range_tests.
  replace (0x10000 + (u - 0xD800) * 1024 + (v - 0xDC00) - 0x10000)
    with ((v - 0xDC00) + (u - 0xD800) * 1024) by lia.
  rewrite Z.div_add, Z.mod_add, Z.div_small, Z.mod_small by lia.
  f_equal; [lia | f_equal; lia].
Qed.

Lemma decode_4 (u v : Z) (t : list byte) :
  0xD800 <= u <= 0xDBFF -> 0xDC00 <= v <= 0xDFFF ->
  utf8Decode (utf8_4 (0x10000 + (u - 0xD800) * 1024 + (v - 0xDC00)) ++ t)
  = u :: v :: utf8Decode t.
Proof.
  intros Hu Hv.
  pose proof (surrogate_units u v _ Hu Hv eq_refl) as Hunits.
  remember (0x10000 + (u - 0xD800) * 1024 + (v - 0xDC00)) as c eqn:Hc.
  assert (Hrange : 0x10000 <= c <= 0x10FFFF) by lia.
  clear Hc Hu Hv.
  unfold utf8_4. cbn [app].
  nested_div c. digit c q1 r0. digit q1 q2 r1. digit q2 q3 r2.
  rewrite decode_bytes_4 by lia.
  replace ((0xF0 + q3 - 0xF0) * 262144 + (0x80 + r2 - 0x80) * 4096
           + (0x80 + r1 - 0x80) * 64 + (0x80 + r0 - 0x80)) with c by lia.
  rewrite Hunits. reflexivity.
Qed.

Lemma surrogate_tests (u : Z) :
  (isHighSurrogate u = true <-> 0xD800 <= u <= 0xDBFF) /\
  (isLowSurrogate u = true <-> 0xDC00 <= u <= 0xDFFF).
Proof.
  unfold isHighSurrogate, isLowSurrogate.
  rewrite !andb_true_iff, !Z.leb_le. tauto.
Qed.

(** Induction over a string two code units at a time. *)
Lemma jsstring_pair_ind (P : jsstring -> Prop) :
  P [] -> (forall u, P [u]) ->
  (forall u v s, P s -> P (v :: s) -> P (u :: v :: s)) ->
  forall s, P s.
Proof.
  intros H0 H1 H2 s.
  assert (H : P s /\ forall u, P (u :: s)); [|tauto].
  induction s as [|v s [IH IH']]; split; auto.
Qed.

Lemma utf8Encode_cons (u : Z) (rest : jsstring) :
  utf8Encode (u :: rest) =
  if u <? 0x80 then utf8_1 u ++ utf8Encode rest
  else if u <? 0x800 then utf8_2 u ++ utf8Encode rest
  else if isHighSurrogate u then
    match rest with
    | v :: rest' =>
        if isLowSurrogate v
        then utf8_4 (0x10000 + (u - 0xD800) * 1024 + (v - 0xDC00))
               ++ utf8Encode rest'
        else utf8_3 REPLACEMENT ++ utf8Encode rest
    | [] => utf8_3 REPLACEMENT
    end
  else if isLowSurrogate u then utf8_3 REPLACEMENT ++ utf8Encode rest
  else utf8_3 u ++ utf8Encode rest.
Proof. reflexivity. Qed.

Lemma utf8_roundtrip (s : jsstring) :
  wellFormed s = true -> utf8Decode (utf8Encode s) = s.
Proof.
  induction s as [|u|u v s IHs IHvs] using jsstring_pair_ind; intros Hwf.
  - reflexivity.
  - cbn [wellFormed utf8Encode] in *.
    destruct (isHighSurrogate u) eqn:Hh; [discriminate|].
    rewrite !andb_true_iff, negb_true_iff in Hwf.
    destruct Hwf as [[[H0 H1] Hl] _]. rewrite Hl.
    apply Z.leb_le in H0. apply Z.ltb_lt in H1.
    pose proof (surrogate_tests u) as [Hhi Hlo].
    assert (~ 0xD800 <= u <= 0xDBFF) by (rewrite <- Hhi; congruence).
    assert (~ 0xDC00 <= u <= 0xDFFF) by (rewrite <- Hlo; congruence).
    destruct (Z.ltb_spec u 0x80); [apply (decode_1 u []); lia|].
    destruct (Z.ltb_spec u 0x800); [apply (decode_2 u []); lia|].
    apply (decode_3 u []); lia.
  - pose proof (surrogate_tests u) as [Hhi Hlo].
    pose proof (surrogate_tests v) as [_ Hlov].
    cbn [wellFormed] in Hwf. rewrite utf8Encode_cons.
    destruct (isHighSurrogate u) eqn:Hh.
    + apply andb_true_iff in Hwf as [Hl Hs]. rewrite Hl.
      apply (proj1 (surrogate_tests u)) in Hh. apply Hlov in Hl.
      destruct (Z.ltb_spec u 0x80); [lia|].
      destruct (Z.ltb_spec u 0x800); [lia|].
      rewrite decode_4 by lia. rewrite IHs by assumption. reflexivity.
    + rewrite !andb_true_iff, negb_true_iff in Hwf.
      destruct Hwf as [[[H0 H1] Hl] Hs]. rewrite Hl.
      apply Z.leb_le in H0. apply Z.ltb_lt in H1.
      assert (~ 0xD800 <= u <= 0xDBFF) by (rewrite <- Hhi; congruence).
      assert (~ 0xDC00 <= u <= 0xDFFF) by (rewrite <- Hlo; congruence).
      destruct (Z.ltb_spec u 0x80);
        [rewrite decode_1 by lia; rewrite IHvs by assumption; reflexivity|].
      destruct (Z.ltb_spec u 0x800);
        [rewrite decode_2 by lia; rewrite IHvs by assumption; reflexivity|].
      rewrite decode_3 by lia. rewrite IHvs by assumption. reflexivity.
Qed.

(* ===================================================================== *)
(** * Proofs: the vault                                                   *)
(* ===================================================================== *)

Lemma tagCipher_law : cipherLaw tagCipher.
Proof.
  intros key iv p _ _. cbn [decipherRun cipherRun tagCipher].
  rewrite take_app_length, drop_app_length.
  rewrite bool_decide_eq_true_2 by reflexivity. reflexivity.
Qed.

Lemma randomBytes_length (n : nat) (rng : nat -> byte) :
  length (randomBytes n rng) = n.
Proof. unfold randomBytes. rewrite length_map, length_seq. reflexivity. Qed.

Lemma default_key_length : length (ENCRYPTION_KEY None) = 32%nat.
Proof. reflexivity. Qed.

Lemma checkCipherArgs_ok (key iv : list byte) :
  length key = 32%nat -> length iv = 16%nat -> checkCipherArgs key iv = Ok tt.
Proof. intros Hk Hi. unfold checkCipherArgs. rewrite Hk, Hi. reflexivity. Qed.

Lemma checkCipherArgs_bad_key (key iv : list byte) :
  length key <> 32%nat -> exists msg, checkCipherArgs key iv = Throw msg.
Proof.
  intros Hk. unfold checkCipherArgs.
  destruct (Nat.eqb_spec (length iv) IV_LENGTH); cbn [negb]; [|eauto].
  destruct (Nat.eqb_spec (length key) KEY_LENGTH); cbn [negb]; [|eauto].
  contradiction.
Qed.

Section VaultFacts.
Context {C : NodeCrypto}.

Lemma encrypt_falsy (key : list byte) (rng : nat -> byte) (text : jsval) :
  truthy text = false -> encrypt key rng text = Ok JNull.
Proof. intros H. unfold encrypt. rewrite H. reflexivity. Qed.

Lemma decrypt_falsy (key : list byte) (text : jsval) :
  truthy text = false -> decrypt key text = Ok JNull.
Proof. intros H. unfold decrypt. rewrite H. reflexivity. Qed.

Lemma encrypt_string (key : list byte) (rng : nat -> byte) (s : jsstring) :
  length key = 32%nat -> s <> [] ->
  encrypt key rng (JStr s)
  = Ok (JStr (hexEncode (randomBytes IV_LENGTH rng) ++ COLON ::
              hexEncode (cipherRun key (randomBytes IV_LENGTH rng)
                           (utf8Encode s)))).
Proof.
  intros Hk Hs. unfold encrypt.
  destruct s as [|u s]; [contradiction|]. cbn [truthy negb].
  rewrite checkCipherArgs_ok by (auto using randomBytes_length).
  reflexivity.
Qed.

(** Decrypting an envelope built by [encrypt] undoes the hex layer
    and the cipher, and decodes what the cipher was given. *)
Lemma decrypt_envelope (key iv p : list byte) :
  cipherLaw C -> length key = 32%nat -> length iv = 16%nat ->
  decrypt key (JStr (hexEncode iv ++ COLON :: hexEncode (cipherRun key iv p)))
  = Ok (JStr (utf8Decode p)).
Proof.
  intros Hlaw Hk Hi. unfold decrypt.
  assert (Hne : truthy (JStr (hexEncode iv ++ COLON ::
                  hexEncode (cipherRun key iv p))) = true).
  { cbn [truthy]. destruct (hexEncode iv); reflexivity. }
  rewrite Hne. cbn [negb].
  rewrite split_app_sep by apply hexEncode_no_colon.
  rewrite split_no_sep by apply hexEncode_no_colon.
  cbn [join]. rewrite !hexDecode_hexEncode.
  rewrite checkCipherArgs_ok by assumption. cbn [bind_result].
  rewrite hexEncode_length, Nat.odd_mul. cbn [Nat.odd andb].
  rewrite Hlaw by assumption. reflexivity.
Qed.

Lemma roundTrip_string (key : list byte) (rng : nat -> byte) (s : jsstring) :
  cipherLaw C -> length key = 32%nat -> s <> [] ->
  roundTrip key rng (JStr s) = Ok (JStr (utf8Decode (utf8Encode s))).
Proof.
  intros Hlaw Hk Hs. unfold roundTrip.
  rewrite encrypt_string by assumption. cbn [bind_result].
  apply decrypt_envelope; auto using randomBytes_length.
Qed.

Lemma encrypt_bad_key (key : list byte) (rng : nat -> byte) (text : jsval) :
  length key <> 32%nat -> truthy text = true ->
  exists msg, encrypt key rng text = Throw msg.
Proof.
  intros Hk Ht. unfold encrypt. rewrite Ht. cbn [negb].
  destruct (checkCipherArgs_bad_key key (randomBytes IV_LENGTH rng) Hk)
    as [msg ->].
  eauto.
Qed.

Lemma decrypt_bad_key (key : list byte) (text : jsval) :
  length key <> 32%nat -> truthy text = true ->
  exists msg, decrypt key text = Throw msg.
Proof.
  intros Hk Ht. unfold decrypt. rewrite Ht. cbn [negb].
  destruct text; try (eexists; reflexivity).
  destruct (split COLON s) as [|ivHex parts]; [eauto|].
  destruct (checkCipherArgs_bad_key key (hexDecode ivHex) Hk) as [msg ->].
  eauto.
Qed.
End VaultFacts.

(** C7 (as amended). For a key of 32 bytes and a cipher that decrypts
    what it encrypted, [decrypt(encrypt(x))] is [x] for every non-empty
    string [x] in which no surrogate stands without its partner. *)
Theorem vault_round_trip (C : NodeCrypto) (key : list byte)
    (rng : nat -> byte) (x : jsstring) :
  cipherLaw C -> length key = 32%nat -> x <> [] -> wellFormed x = true ->
  roundTrip key rng (JStr x) = Ok (JStr x).
Proof.
  intros Hlaw Hk Hx Hwf.
  rewrite roundTrip_string by assumption.
  rewrite utf8_roundtrip by assumption. reflexivity.
Qed.

Lemma vault_round_trip_witness :
  roundTrip (C := tagCipher) (ENCRYPTION_KEY None) countingBytes
    (JStr (str "finch-access-token"))
  = Ok (JStr (str "finch-access-token")).
Proof.
  apply (vault_round_trip tagCipher).
  - exact tagCipher_law.
  - reflexivity.
  - discriminate.
  - reflexivity.
Defined.

(** C7 (as stated) fails: a non-empty string that is a lone surrogate
    comes back as U+FFFD, under a valid key and a lawful cipher. *)
Lemma vault_round_trip_lone_surrogate :
  ~ (forall (C : NodeCrypto) (key : list byte) (rng : nat -> byte)
            (x : jsstring),
        cipherLaw C -> length key = 32%nat -> x <> [] ->
        roundTrip key rng (JStr x) = Ok (JStr x)).
Proof.
  intros H.
  specialize (H tagCipher (ENCRYPTION_KEY None) countingBytes [0xD800]
                tagCipher_law eq_refl ltac:(discriminate)).
  vm_compute in H. discriminate H.
Qed.

(** What a lone surrogate becomes, whatever the cipher. *)
Lemma lone_surrogate_replaced (C : NodeCrypto) (key : list byte)
    (rng : nat -> byte) :
  cipherLaw C -> length key = 32%nat ->
  roundTrip key rng (JStr [0xD800]) = Ok (JStr [REPLACEMENT]).
Proof.
  intros Hlaw Hk. rewrite roundTrip_string by (auto; discriminate).
  reflexivity.
Qed.

(* ===================================================================== *)
(** * Proofs: the payroll sync                                            *)
(* ===================================================================== *)

(** Unfold the plumbing of [io]. *)
Ltac io_unfold := unfold bind, lift, ret, tryCatch, query, prop in *.

Section SyncFacts.
Variable w : world.
Variable connectionId : string.
Variable accessToken : jsval.

Lemma syncEmployee_run (k : nat) (ind : individual) (d : db) :
  snd (syncEmployee w connectionId accessToken k ind d)
  = afterRecord w connectionId accessToken k ind d
  /\ (recordOk w accessToken k ind = true ->
      fst (syncEmployee w connectionId accessToken k ind d) = Ok tt)
  /\ (recordOk w accessToken k ind = false ->
      exists msg,
        fst (syncEmployee w connectionId accessToken k ind d) = Throw msg).
Proof.
  unfold syncEmployee, afterRecord, recordOk, detailOf. io_unfold.
  destruct (individualDetail w k accessToken (id ind)) as [[data|]|m];
    cbn; [|split; [reflexivity | split; [discriminate | eauto]]..].
  destruct (responses data) as [[|[item|] rs]|];
    cbn; [split; [reflexivity | split; [discriminate | eauto]]| |
          split; [reflexivity | split; [discriminate | eauto]]..].
  destruct (body item) as [e|];
    cbn; [|split; [reflexivity | split; [discriminate | eauto]]].
  destruct (fault w (UpsertEmployee k)) as [m|]; cbn;
    split; try reflexivity; split; try discriminate; eauto.
Qed.

Lemma syncLoop_cons (k : nat) (ind : individual)
    (rest : list (option individual)) (p f : nat) (d : db) :
  syncLoop w connectionId accessToken k (Some ind :: rest) p f d
  = if recordOk w accessToken k ind
    then syncLoop w connectionId accessToken (S k) rest (S p) f
           (afterRecord w connectionId accessToken k ind d)
    else syncLoop w connectionId accessToken (S k) rest p (S f)
           (afterRecord w connectionId accessToken k ind d).
Proof.
  destruct (syncEmployee_run k ind d) as (Hdb & Hok & Hko).
  cbn [syncLoop]. unfold bind at 1. unfold tryCatch, bind at 1, ret.
  destruct (syncEmployee w connectionId accessToken k ind d) as [r d'].
  cbn [fst snd] in *. subst d'.
  destruct (recordOk w accessToken k ind).
  - rewrite (Hok eq_refl). reflexivity.
  - destruct (Hko eq_refl) as [msg ->]. reflexivity.
Qed.

Lemma okCount_le (inds : list individual) (k : nat) :
  (okCount w accessToken k inds <= length inds)%nat.
Proof.
  revert k. induction inds as [|i r IH]; intros k; cbn [okCount length];
    [lia|].
  specialize (IH (S k)). destruct (recordOk w accessToken k i); lia.
Qed.

(** A null entry ends the loop: the error thrown in the inner
    [catch] is the loop's own. *)
Lemma syncLoop_null (k : nat) (rest : list (option individual))
    (p f : nat) (d : db) :
  syncLoop w connectionId accessToken k (None :: rest) p f d
  = (Throw NULL_ID, d).
Proof. reflexivity. Qed.

Lemma allObjects_fmap (inds : list individual) :
  allObjects (Some <$> inds) = true.
Proof. induction inds as [|ind rest IH]; [reflexivity | exact IH]. Qed.

Lemma objectsBefore_fmap (inds : list individual) :
  objectsBefore (Some <$> inds) = inds.
Proof.
  induction inds as [|ind rest IH]; [reflexivity|].
  cbn. f_equal. exact IH.
Qed.

Lemma allObjects_length (l : list (option individual)) :
  allObjects l = true -> length (objectsBefore l) = length l.
Proof.
  induction l as [|[ind|] rest IH]; cbn; intros H;
    [reflexivity | f_equal; auto | discriminate].
Qed.

(** The loop goes through the entries before the first null one,
    counting each of them on one side or the other and leaving the
    tables as the successful upserts made them; it returns its
    counters when no entry is null and throws at the first null one. *)
Lemma syncLoop_entries (l : list (option individual)) :
  forall (k p f : nat) (d : db),
    syncLoop w connectionId accessToken k l p f d
    = (if allObjects l
       then Ok ((p + okCount w accessToken k (objectsBefore l))%nat,
                (f + (length l
                      - okCount w accessToken k (objectsBefore l)))%nat)
       else Throw NULL_ID,
       afterRecords w connectionId accessToken k (objectsBefore l) d).
Proof.
  induction l as [|[ind|] rest IH]; intros k p f d.
  - cbn. unfold ret. do 3 f_equal; lia.
  - rewrite syncLoop_cons.
    cbn [okCount afterRecords length objectsBefore allObjects forallb andb].
    fold (allObjects rest).
    pose proof (okCount_le (objectsBefore rest) (S k)) as Hle.
    destruct (recordOk w accessToken k ind); rewrite IH;
      destruct (allObjects rest) eqn:Hall; try reflexivity;
      apply allObjects_length in Hall; do 3 f_equal; lia.
  - reflexivity.
Qed.

(** Over objects alone the loop never throws. *)
Lemma syncLoop_run (inds : list individual) :
  forall (k p f : nat) (d : db),
    syncLoop w connectionId accessToken k (Some <$> inds) p f d
    = (Ok ((p + okCount w accessToken k inds)%nat,
           (f + (length inds - okCount w accessToken k inds))%nat),
       afterRecords w connectionId accessToken k inds d).
Proof.
  intros k p f d. rewrite syncLoop_entries.
  rewrite allObjects_fmap, objectsBefore_fmap, length_fmap. reflexivity.
Qed.

Lemma afterRecord_frame (k : nat) (ind : individual) (d : db) :
  taxpayers (afterRecord w connectionId accessToken k ind d) = taxpayers d
  /\ connections (afterRecord w connectionId accessToken k ind d)
     = connections d
  /\ sync_jobs (afterRecord w connectionId accessToken k ind d) = sync_jobs d
  /\ audit_logs (afterRecord w connectionId accessToken k ind d)
     = audit_logs d.
Proof.
  unfold afterRecord.
  destruct (detailOf w accessToken k ind), (fault w (UpsertEmployee k));
    auto.
Qed.

(** The loop writes to [employees] only. *)
Lemma afterRecords_frame (inds : list individual) :
  forall (k : nat) (d : db),
    taxpayers (afterRecords w connectionId accessToken k inds d)
    = taxpayers d
    /\ connections (afterRecords w connectionId accessToken k inds d)
       = connections d
    /\ sync_jobs (afterRecords w connectionId accessToken k inds d)
       = sync_jobs d
    /\ audit_logs (afterRecords w connectionId accessToken k inds d)
       = audit_logs d.
Proof.
  induction inds as [|ind rest IH]; intros k d; cbn [afterRecords]; [auto|].
  destruct (IH (S k) (afterRecord w connectionId accessToken k ind d))
    as (-> & -> & -> & ->).
  apply afterRecord_frame.
Qed.








Lemma okCount_none (inds : list individual) :
  forall k : nat,
    (forall (i : nat) (ind : individual),
        inds !! i = Some ind -> recordOk w accessToken (k + i) ind = false) ->
    okCount w accessToken k inds = 0%nat.
Proof.
  induction inds as [|ind0 rest IH]; intros k Hall; [reflexivity|].
  cbn [okCount].
  rewrite <- (Nat.add_0_r k) at 1. rewrite (Hall 0%nat ind0 eq_refl).
  rewrite IH; [reflexivity|].
  intros i ind Hi. replace (S k + i)%nat with (k + S i)%nat by lia.
  apply Hall. assumption.
Qed.

(** *** The whole background task *)

Variable jobId : string.

(** All goes well after the loop: the job is marked completed with
    the two counters, then the connection is touched. *)
Lemma payroll_clean (inds : list individual) (d : db) :
  directoryOf w accessToken = Some (Some <$> inds) ->
  fault w CompleteSyncJob = None -> fault w TouchConnection = None ->
  syncFinchPayrollData w connectionId accessToken jobId d
  = (Ok tt,
     set_connections
       (alter (touchConnection (now w TouchConnection)) connectionId)
       (set_sync_jobs
          (alter (completeJob (now w CompleteSyncJob)
                    (okCount w accessToken 0 inds)
                    (length inds - okCount w accessToken 0 inds))
             jobId)
          (afterRecords w connectionId accessToken 0 inds d))).
Proof.
  unfold directoryOf, syncFinchPayrollData. intros Hdir Hc Ht.
  unfold tryCatch, bind at 1, lift at 1.
  destruct (directory w accessToken) as [[data|]|m]; try discriminate.
  injection Hdir as Hdir.
  unfold bind at 1, lift at 1, prop. unfold bind at 1.
  cbv zeta. rewrite Hdir, syncLoop_run. unfold bind, query.
  rewrite Hc, Ht. reflexivity.
Qed.

Lemma payroll_audit_logs (d : db) :
  audit_logs (snd (syncFinchPayrollData w connectionId accessToken jobId d))
  = audit_logs d.
Proof.
  unfold syncFinchPayrollData.
  unfold tryCatch, bind at 1, lift at 1.
  destruct (directory w accessToken) as [[data|]|m].
  - unfold bind at 1, lift at 1, prop. unfold bind at 1.
    rewrite syncLoop_entries. unfold bind, query.
    match goal with
    | |- context [afterRecords w connectionId accessToken 0 ?l d] =>
        destruct (afterRecords_frame l 0 d) as (_ & _ & _ & Ha)
    end.
    destruct (allObjects _), (fault w CompleteSyncJob),
      (fault w TouchConnection), (fault w FailSyncJob); cbn; exact Ha.
  - unfold bind, lift, prop, query.
    destruct (fault w FailSyncJob); reflexivity.
  - unfold query. destruct (fault w FailSyncJob); reflexivity.
Qed.

Lemma payroll_connections (d : db) :
  connections (snd (syncFinchPayrollData w connectionId accessToken jobId d))
  = if closesCleanly w accessToken
    then alter (touchConnection (now w TouchConnection)) connectionId
           (connections d)
    else connections d.
Proof.
  unfold syncFinchPayrollData, closesCleanly, directoryOf.
  unfold tryCatch, bind at 1, lift at 1.
  destruct (directory w accessToken) as [[data|]|m].
  - unfold bind at 1, lift at 1, prop. unfold bind at 1.
    rewrite syncLoop_entries. unfold bind, query.
    match goal with
    | |- context [afterRecords w connectionId accessToken 0 ?l d] =>
        destruct (afterRecords_frame l 0 d) as (_ & Hc & _ & _)
    end.
    destruct (allObjects _), (fault w CompleteSyncJob),
      (fault w TouchConnection), (fault w FailSyncJob); cbn; rewrite ?Hc;
      reflexivity.
  - unfold bind, lift, prop, query.
    destruct (fault w FailSyncJob); reflexivity.
  - unfold query. destruct (fault w FailSyncJob); reflexivity.
Qed.
End SyncFacts.

Section JobFacts.
Variable w : world.
Variable connectionId : string.
Variable accessToken : jsval.
Variable jobId : string.

(** With the failure UPDATE available, the job ends completed exactly
    when the run closes cleanly, and failed otherwise. *)
Lemma payroll_job_status (d : db) (job : sync_job) :
  sync_jobs d !! jobId = Some job ->
  fault w FailSyncJob = None ->
  exists job',
    sync_jobs (snd (syncFinchPayrollData w connectionId accessToken jobId d))
      !! jobId = Some job'
    /\ job_status job'
       = if closesCleanly w accessToken then "completed"%string
         else "failed"%string.
Proof.
  intros Hjob Hf.
  unfold syncFinchPayrollData, closesCleanly, directoryOf.
  unfold tryCatch, bind at 1, lift at 1.
  destruct (directory w accessToken) as [[data|]|m].
  - unfold bind at 1, lift at 1, prop. unfold bind at 1.
    rewrite syncLoop_entries. unfold bind, query. rewrite Hf.
    match goal with
    | |- context [afterRecords w connectionId accessToken 0 ?l d] =>
        destruct (afterRecords_frame w connectionId accessToken l 0 d)
          as (_ & _ & Hj & _)
    end.
    destruct (allObjects _), (fault w CompleteSyncJob),
      (fault w TouchConnection); cbn;
      rewrite ?lookup_alter_eq, Hj, Hjob; cbn; eauto.
  - unfold bind, lift, prop, query. rewrite Hf. cbn.
    rewrite lookup_alter_eq, Hjob. cbn. eauto.
  - unfold query. rewrite Hf. cbn.
    rewrite lookup_alter_eq, Hjob. cbn. eauto.
Qed.

Lemma payroll_clean_job (inds : list individual) (d : db) (job : sync_job) :
  directoryOf w accessToken = Some (Some <$> inds) ->
  fault w CompleteSyncJob = None -> fault w TouchConnection = None ->
  sync_jobs d !! jobId = Some job ->
  sync_jobs (snd (syncFinchPayrollData w connectionId accessToken jobId d))
    !! jobId
  = Some (completeJob (now w CompleteSyncJob)
            (okCount w accessToken 0 inds)
            (length inds - okCount w accessToken 0 inds) job).
Proof.
  intros Hdir Hc Ht Hjob.
  rewrite (payroll_clean w connectionId accessToken jobId inds d)
    by assumption.
  cbn. rewrite lookup_alter_eq.
  destruct (afterRecords_frame w connectionId accessToken inds 0 d)
    as (_ & _ & -> & _).
  rewrite Hjob. reflexivity.
Qed.

End JobFacts.

(* ===================================================================== *)
(** * The claims about the sync job                                       *)
(* ===================================================================== *)





(** C1 (as amended). When the directory arrives, every entry is an
    object whose record fails (so that the loop ends with 0 and N) and
    the two closing statements go through, the job ends completed,
    with recordsProcessed = 0 and recordsFailed = N > 0. *)
Theorem total_failure_completes (w : world) (connectionId : string)
    (accessToken : jsval) (jobId : string) (d : db) (job : sync_job)
    (inds : list individual) :
  directoryOf w accessToken = Some (Some <$> inds) ->
  inds <> [] ->
  (forall i ind, inds !! i = Some ind -> recordOk w accessToken i ind = false) ->
  fault w CompleteSyncJob = None -> fault w TouchConnection = None ->
  sync_jobs d !! jobId = Some job ->
  exists job',
    sync_jobs (snd (syncFinchPayrollData w connectionId accessToken jobId d))
      !! jobId = Some job'
    /\ job_status job' = "completed"%string
    /\ job_records_processed job' = 0%nat
    /\ job_records_failed job' = length inds
    /\ (0 < job_records_failed job')%nat.
Proof.
  intros Hdir Hne Hall Hc Ht Hjob.
  eexists. split; [apply payroll_clean_job; eassumption|].
  cbn [completeJob job_status job_records_processed job_records_failed].
  rewrite (okCount_none w accessToken inds 0) by exact Hall.
  destruct inds; [contradiction|]. cbn [length]. repeat split; lia.
Qed.

Lemma total_failure_completes_witness :
  exists job',
    sync_jobs (snd (syncFinchPayrollData worldAllMissing "conn-1" token1
                      "job-2" dbSynced)) !! "job-2"%string = Some job'
    /\ job_status job' = "completed"%string
    /\ job_records_processed job' = 0%nat
    /\ job_records_failed job' = 2%nat
    /\ (0 < job_records_failed job')%nat.
Proof.
  apply (total_failure_completes worldAllMissing "conn-1" token1 "job-2"
           dbSynced
           (mkSyncJob "conn-1" "finch_payroll_sync" "processing" (Some 900)
              None 0 0 None)
           (map mkIndividual ["emp-1"; "emp-2"]%string)).
  - reflexivity.
  - discriminate.
  - intros [|[|i]] ind Hi; cbn in Hi; try discriminate;
      injection Hi as <-; reflexivity.
  - reflexivity.
  - reflexivity.
  - reflexivity.
Defined.

(** C1 (as stated) fails: two identifiers, both detail calls answer
    404; the job of the attempt ends completed with counters 0 and 2,
    not failed. *)
Lemma total_failure_not_failed :
  let run := syncFinchData (C := tagCipher) worldAllMissing "conn-1"
               dbConnected in
  exists job,
    sync_jobs (snd run) !! "job-1"%string = Some job
    /\ job_records_processed job = 0%nat
    /\ (0 < job_records_failed job)%nat
    /\ job_status job <> "failed"%string
    /\ job_status job = "completed"%string.
Proof.
  eexists. split; [vm_compute; reflexivity|].
  repeat split; try (cbn; lia). discriminate.
Qed.

(** C4 (as amended). The connection's last_sync_at is set, to the time
    of that UPDATE, exactly when the directory arrives, the loop runs
    to its end (no entry is null) and both closing statements go
    through, which is when the job ends completed, whatever
    recordsFailed is; in every other outcome the connection row is left
    as it was.  Other connections are never touched. *)
Theorem last_sync_at_policy (w : world) (connectionId : string)
    (accessToken : jsval) (jobId : string) (d : db) (c : connection)
    (job : sync_job) :
  connections d !! connectionId = Some c ->
  sync_jobs d !! jobId = Some job ->
  fault w FailSyncJob = None ->
  let d' := snd (syncFinchPayrollData w connectionId accessToken jobId d) in
  (exists job',
     sync_jobs d' !! jobId = Some job'
     /\ (job_status job' = "completed"%string
         <-> closesCleanly w accessToken = true))
  /\ (closesCleanly w accessToken = true ->
      exists c',
        connections d' !! connectionId = Some c'
        /\ conn_last_sync_at c' = Some (now w TouchConnection))
  /\ (closesCleanly w accessToken = false ->
      connections d' !! connectionId = Some c)
  /\ (forall other,
        other <> connectionId ->
        connections d' !! other = connections d !! other).
Proof.
  intros Hc Hjob Hf d'. subst d'.
  destruct (payroll_job_status w connectionId accessToken jobId d job Hjob Hf)
    as (job' & Hjob' & Hstatus).
  rewrite payroll_connections.
  split; [|split; [|split]].
  - exists job'. split; [assumption|]. rewrite Hstatus.
    destruct (closesCleanly w accessToken); split; congruence.
  - intros ->. eexists. rewrite lookup_alter_eq, Hc. cbn. split; reflexivity.
  - intros ->. assumption.
  - intros other Hne.
    destruct (closesCleanly w accessToken); [|reflexivity].
    apply lookup_alter_ne. congruence.
Qed.

Lemma last_sync_at_policy_witness :
  let d' := snd (syncFinchPayrollData worldSecondMissing "conn-1" token1
                   "job-2" dbSynced) in
  exists c',
    connections d' !! "conn-1"%string = Some c'
    /\ conn_last_sync_at c' = Some 2001.
Proof.
  refine (proj1 (proj2 (last_sync_at_policy worldSecondMissing "conn-1" token1
                          "job-2" dbSynced
                          (connectionWith (envelopeOf "finch-access-token"))
                          (mkSyncJob "conn-1" "finch_payroll_sync" "processing"
                             (Some 900) None 0 0 None) _ _ _)) _);
    reflexivity.
Defined.

(** C4 (as stated) fails: three identifiers, the second fails; the job
    completes with recordsFailed = 1, and last_sync_at, unset before,
    is set. *)
Lemma last_sync_at_set_despite_failures :
  let run := syncFinchData (C := tagCipher) worldSecondMissing "conn-1"
               dbConnected in
  (conn_last_sync_at <$> connections dbConnected !! "conn-1"%string)
  = Some None
  /\ (exists job,
        sync_jobs (snd run) !! "job-1"%string = Some job
        /\ job_status job = "completed"%string
        /\ job_records_failed job = 1%nat)
  /\ (conn_last_sync_at <$> connections (snd run) !! "conn-1"%string)
     = Some (Some 2001).
Proof.
  split; [reflexivity|]. split.
  - eexists. split; [vm_compute; reflexivity|]. split; reflexivity.
  - vm_compute. reflexivity.
Qed.

Section AttemptFacts.
Context {C : NodeCrypto}.
Variable w : world.
Variable connectionId : string.


(** An attempt either changes nothing, or inserts one job in state
    processing and runs the background task on it. *)
Lemma syncFinchData_cases (d : db) :
  snd (syncFinchData w connectionId d) = d
  \/ exists c accessToken jobId,
       selected connectionId d = Some c
       /\ decrypt (vaultKey w) (column (conn_access_token_encrypted c))
          = Ok accessToken
       /\ sync_jobs d !! jobId = None
       /\ fst (syncFinchData w connectionId d)
          = Ok (mkResponse 200
                  [("success", JsonText "true");
                   ("message", JsonText "Payroll sync started");
                   ("jobId", JsonText jobId)])
       /\ snd (syncFinchData w connectionId d)
          = snd (syncFinchPayrollData w connectionId accessToken jobId
                   (set_sync_jobs
                      (insert jobId
                         (mkSyncJob connectionId "finch_payroll_sync"
                            "processing" (Some (now w InsertSyncJob)) None
                            0 0 None)) d)).
Proof.
  unfold syncFinchData, selectActiveFinch, insertSyncJob, background, selected.
  unfold tryCatch, bind, query, lift, ret.
  destruct (fault w SelectConnection); [left; reflexivity|].
  destruct (connections d !! connectionId) as [c|]; [|left; reflexivity].
  destruct (String.eqb (conn_provider c) "finch"
            && String.eqb (conn_status c) "active"); [|left; reflexivity].
  destruct (decrypt (vaultKey w) (column (conn_access_token_encrypted c)))
    as [accessToken|m] eqn:Hdec; [|left; reflexivity].
  destruct (fault w InsertSyncJob); [left; reflexivity|].
  destruct (sync_jobs d !! gen_random_uuid w InsertSyncJob) eqn:Hfresh;
    [left; reflexivity|].
  right. exists c, accessToken, (gen_random_uuid w InsertSyncJob).
  cbn. auto.
Qed.

(** A credential that does not decrypt stops the attempt before any
    job is created. *)
Lemma syncFinchData_decrypt_throws (d : db) (c : connection) (msg : string) :
  fault w SelectConnection = None ->
  selected connectionId d = Some c ->
  decrypt (vaultKey w) (column (conn_access_token_encrypted c)) = Throw msg ->
  syncFinchData w connectionId d
  = (Ok (errorResponse 500 "Failed to initiate sync"), d).
Proof.
  unfold syncFinchData, selectActiveFinch, selected.
  unfold tryCatch, bind, query, lift, ret.
  intros -> Hsel Hdec.
  destruct (connections d !! connectionId) as [c0|]; [|discriminate].
  destruct (String.eqb (conn_provider c0) "finch"
            && String.eqb (conn_status c0) "active"); [|discriminate].
  injection Hsel as ->. rewrite Hdec. reflexivity.
Qed.

(** A credential that decrypts, to whatever value, lets the attempt
    insert its job, start the background task with that value as the
    bearer token, and answer 200. *)
Lemma syncFinchData_started (d : db) (c : connection) (accessToken : jsval) :
  fault w SelectConnection = None ->
  selected connectionId d = Some c ->
  decrypt (vaultKey w) (column (conn_access_token_encrypted c))
  = Ok accessToken ->
  fault w InsertSyncJob = None ->
  sync_jobs d !! gen_random_uuid w InsertSyncJob = None ->
  syncFinchData w connectionId d
  = (Ok (mkResponse 200
           [("success", JsonText "true");
            ("message", JsonText "Payroll sync started");
            ("jobId", JsonText (gen_random_uuid w InsertSyncJob))]),
     snd (syncFinchPayrollData w connectionId accessToken
            (gen_random_uuid w InsertSyncJob)
            (set_sync_jobs
               (insert (gen_random_uuid w InsertSyncJob)
                  (mkSyncJob connectionId "finch_payroll_sync" "processing"
                     (Some (now w InsertSyncJob)) None 0 0 None)) d))).
Proof.
  unfold syncFinchData, selectActiveFinch, insertSyncJob, background, selected.
  unfold tryCatch, bind, query, lift, ret.
  intros -> Hsel Hdec -> Hfresh.
  destruct (connections d !! connectionId) as [c0|]; [|discriminate].
  destruct (String.eqb (conn_provider c0) "finch"
            && String.eqb (conn_status c0) "active"); [|discriminate].
  injection Hsel as ->. rewrite Hdec, Hfresh. reflexivity.
Qed.

Lemma syncFinchData_audit_logs (d : db) :
  audit_logs (snd (syncFinchData w connectionId d)) = audit_logs d.
Proof.
  destruct (syncFinchData_cases d)
    as [-> | (c & tok & jid & _ & _ & _ & _ & ->)]; [reflexivity|].
  rewrite payroll_audit_logs. reflexivity.
Qed.

Lemma syncFinchData_status (d : db) (other : string) :
  conn_status <$> connections (snd (syncFinchData w connectionId d)) !! other
  = conn_status <$> connections d !! other.
Proof.
  destruct (syncFinchData_cases d)
    as [-> | (c & tok & jid & _ & _ & _ & _ & ->)]; [reflexivity|].
  rewrite payroll_connections. cbn [connections set_sync_jobs].
  destruct (closesCleanly w tok); [|reflexivity].
  rewrite lookup_alter. case_decide; [subst other|reflexivity].
  destruct (connections d !! connectionId); reflexivity.
Qed.
End AttemptFacts.

(** C3 (as amended). When decrypting the stored credential throws, the
    attempt answers 500 "Failed to initiate sync" and writes nothing:
    no job is created and the connection keeps its status.  When it
    returns a value, null for a NULL column included, the job is
    created and the background task runs with that value as bearer
    token.  And no sync attempt, whatever its outcome, changes the
    status of any connection. *)
Theorem credential_error_aborts (C : NodeCrypto) (w : world)
    (connectionId : string) (d : db) :
  (forall c msg,
      fault w SelectConnection = None ->
      connections d !! connectionId = Some c ->
      conn_provider c = "finch"%string -> conn_status c = "active"%string ->
      decrypt (vaultKey w) (column (conn_access_token_encrypted c))
      = Throw msg ->
      syncFinchData w connectionId d
      = (Ok (errorResponse 500 "Failed to initiate sync"), d))
  /\ (forall c accessToken,
        fault w SelectConnection = None ->
        connections d !! connectionId = Some c ->
        conn_provider c = "finch"%string -> conn_status c = "active"%string ->
        decrypt (vaultKey w) (column (conn_access_token_encrypted c))
        = Ok accessToken ->
        fault w InsertSyncJob = None ->
        sync_jobs d !! gen_random_uuid w InsertSyncJob = None ->
        statusOf (syncFinchData w connectionId d) = Some 200%nat
        /\ snd (syncFinchData w connectionId d)
           = snd (syncFinchPayrollData w connectionId accessToken
                    (gen_random_uuid w InsertSyncJob)
                    (set_sync_jobs
                       (insert (gen_random_uuid w InsertSyncJob)
                          (mkSyncJob connectionId "finch_payroll_sync"
                             "processing" (Some (now w InsertSyncJob)) None
                             0 0 None)) d)))
  /\ (forall other,
        conn_status <$> connections (snd (syncFinchData w connectionId d))
                          !! other
        = conn_status <$> connections d !! other).
Proof.
  split; [|split].
  - intros c msg Hf Hc Hp Hs Hdec.
    apply (syncFinchData_decrypt_throws w connectionId d c msg);
      [assumption| |assumption].
    unfold selected. rewrite Hc, Hp, Hs. reflexivity.
  - intros c accessToken Hf Hc Hp Hs Hdec Hi Hfresh.
    rewrite (syncFinchData_started w connectionId d c accessToken);
      try assumption; [split; reflexivity|].
    unfold selected. rewrite Hc, Hp, Hs. reflexivity.
  - apply syncFinchData_status.
Qed.

Lemma credential_error_aborts_witness :
  syncFinchData (C := tagCipher) worldSecondMissing "conn-1" dbGarbled
  = (Ok (errorResponse 500 "Failed to initiate sync"), dbGarbled).
Proof.
  apply (proj1 (credential_error_aborts tagCipher worldSecondMissing "conn-1"
                  dbGarbled)
           (connectionWith (Some (str "zz"))) "Invalid initialization vector");
    reflexivity.
Defined.

(** C3 (as stated) fails.  A credential that does not decrypt: the
    attempt answers 500, no job exists afterwards and the connection is
    still active.  A NULL credential, rejected by the provider: the
    job fails with the provider's message, and the connection is still
    active. *)
Lemma credential_error_leaves_no_trace :
  (let run := syncFinchData (C := tagCipher) worldSecondMissing "conn-1"
                dbGarbled in
   decrypt (C := tagCipher) (vaultKey worldSecondMissing) (JStr (str "zz"))
   = Throw "Invalid initialization vector"
   /\ fst run = Ok (errorResponse 500 "Failed to initiate sync")
   /\ sync_jobs (snd run) = ∅
   /\ (conn_status <$> connections (snd run) !! "conn-1"%string)
      = Some "active"%string)
  /\ (let run := syncFinchData (C := tagCipher) worldUnauthorized "conn-1"
                   (dbWith None) in
      decrypt (C := tagCipher) (vaultKey worldUnauthorized) JNull = Ok JNull
      /\ (job_status <$> sync_jobs (snd run) !! "job-1"%string)
         = Some "failed"%string
      /\ (job_error_message <$> sync_jobs (snd run) !! "job-1"%string)
         = Some (Some "Request failed with status code 401"%string)
      /\ (conn_status <$> connections (snd run) !! "conn-1"%string)
         = Some "active"%string).
Proof.
  split; cbv zeta; repeat split; vm_compute; reflexivity.
Qed.

(** C5 (as amended). No sync attempt and no transition of a job writes
    an audit event: the audit log after the background task, and after
    the whole attempt, is the audit log before.  The two counters are
    written to the job row itself when it is marked completed. *)
Theorem sync_writes_no_audit_event (C : NodeCrypto) (w : world)
    (connectionId : string) (accessToken : jsval) (jobId : string) (d : db) :
  audit_logs (snd (syncFinchPayrollData w connectionId accessToken jobId d))
  = audit_logs d
  /\ audit_logs (snd (syncFinchData w connectionId d)) = audit_logs d
  /\ (forall (inds : list individual) job,
        directoryOf w accessToken = Some (Some <$> inds) ->
        fault w CompleteSyncJob = None -> fault w TouchConnection = None ->
        sync_jobs d !! jobId = Some job ->
        exists job',
          sync_jobs (snd (syncFinchPayrollData w connectionId accessToken
                            jobId d)) !! jobId = Some job'
          /\ job_records_processed job' = okCount w accessToken 0 inds
          /\ job_records_failed job'
             = (length inds - okCount w accessToken 0 inds)%nat).
Proof.
  split; [apply payroll_audit_logs|].
  split; [apply syncFinchData_audit_logs|].
  intros inds job Hdir Hc Ht Hjob.
  eexists. split; [apply payroll_clean_job; eassumption|].
  split; reflexivity.
Qed.

Lemma sync_writes_no_audit_event_witness :
  exists job',
    sync_jobs (snd (syncFinchPayrollData worldSecondMissing "conn-1" token1
                      "job-2" dbSynced)) !! "job-2"%string = Some job'
    /\ job_records_processed job' = 2%nat
    /\ job_records_failed job' = 1%nat.
Proof.
  apply (proj2 (proj2 (sync_writes_no_audit_event tagCipher worldSecondMissing
                         "conn-1" token1 "job-2" dbSynced))
           (map mkIndividual ["emp-1"; "emp-2"; "emp-3"]%string)
           (mkSyncJob "conn-1" "finch_payroll_sync" "processing" (Some 900)
              None 0 0 None));
    reflexivity.
Defined.

(** C5 (as stated) fails: the job of this attempt reaches completed,
    and the audit log, empty before, is empty afterwards. *)
Lemma completed_job_without_audit_event :
  let run := syncFinchData (C := tagCipher) worldSecondMissing "conn-1"
               dbConnected in
  (job_status <$> sync_jobs (snd run) !! "job-1"%string)
  = Some "completed"%string
  /\ audit_logs (snd run) = []
  /\ ~ (exists ev, ev ∈ audit_logs (snd run)
                   /\ al_event_type ev = "sync.completed"%string).
Proof.
  cbv zeta. split; [vm_compute; reflexivity|].
  assert (H : audit_logs (snd (syncFinchData (C := tagCipher)
                                 worldSecondMissing "conn-1" dbConnected)) = [])
    by (vm_compute; reflexivity).
  split; [exact H|]. rewrite H. intros (ev & Hin & _).
  apply elem_of_nil in Hin. exact Hin.
Qed.

(** *** The upsert *)


Lemma upsertEmployee_fresh (t : Z) (cid pid : string) (e : employee_data)
    (tbl : gmap (string * string) employee) :
  tbl !! (cid, pid) = None ->
  upsertEmployee t cid pid e tbl !! (cid, pid)
  = Some (mkEmployee cid pid (ed_first_name e) (ed_last_name e) (firstEmail e)
            (ed_hire_date e) (employmentType e) e t t).
Proof. intros H. unfold upsertEmployee. rewrite H. apply lookup_insert_eq. Qed.

(** On conflict four columns and updated_at take the new values; the
    key, hire_date, source_data and created_at keep the old ones. *)
Lemma upsertEmployee_existing (t : Z) (cid pid : string) (e : employee_data)
    (tbl : gmap (string * string) employee) (old : employee) :
  tbl !! (cid, pid) = Some old ->
  upsertEmployee t cid pid e tbl !! (cid, pid)
  = Some (mkEmployee (emp_connection_id old) (emp_provider_employee_id old)
            (ed_first_name e) (ed_last_name e) (firstEmail e)
            (emp_hire_date old) (employmentType e) (emp_source_data old)
            (emp_created_at old) t).
Proof. intros H. unfold upsertEmployee. rewrite H. apply lookup_insert_eq. Qed.

Lemma upsertEmployee_other (t : Z) (cid pid : string) (e : employee_data)
    (tbl : gmap (string * string) employee) (key : string * string) :
  key <> (cid, pid) -> upsertEmployee t cid pid e tbl !! key = tbl !! key.
Proof.
  intros H. unfold upsertEmployee.
  destruct (tbl !! (cid, pid)); apply lookup_insert_ne; congruence.
Qed.

(** The natural key is never reassigned, and no second row appears
    under a key. *)
Lemma upsertEmployee_keyed (t : Z) (cid pid : string) (e : employee_data)
    (tbl : gmap (string * string) employee) :
  keyed tbl -> keyed (upsertEmployee t cid pid e tbl).
Proof.
  intros Hk key row. destruct (decide (key = (cid, pid))) as [->|Hne].
  - destruct (tbl !! (cid, pid)) as [old|] eqn:Hold.
    + rewrite (upsertEmployee_existing t cid pid e tbl old Hold).
      intros [= <-]. cbn. exact (Hk _ _ Hold).
    + rewrite (upsertEmployee_fresh t cid pid e tbl Hold).
      intros [= <-]. reflexivity.
  - rewrite upsertEmployee_other by assumption. apply Hk.
Qed.

(** C6, on a concrete re-sync. emp-1 is stored with Alice's data; the
    provider now returns [aliceRenamed] and the re-sync goes through.
    The row keeps its natural key and takes the new names, e-mail and
    status, but hire_date and source_data still hold what the first
    sync stored, not what was fetched: the conflict branch of the
    upsert does not list them. *)
Theorem resync_keeps_hire_date_and_source_data :
  let run := syncFinchPayrollData worldRenamed "conn-1" token1 "job-2"
               dbSynced in
  detailOf worldRenamed token1 0 (mkIndividual "emp-1") = Some aliceRenamed
  /\ (job_records_processed <$> sync_jobs (snd run) !! "job-2"%string)
     = Some 1%nat
  /\ exists row,
       employees (snd run) !! ("conn-1", "emp-1")%string = Some row
       /\ emp_connection_id row = "conn-1"%string
       /\ emp_provider_employee_id row = "emp-1"%string
       /\ emp_first_name row = ed_first_name aliceRenamed
       /\ emp_last_name row = ed_last_name aliceRenamed
       /\ emp_email row = firstEmail aliceRenamed
       /\ emp_employment_status row = employmentType aliceRenamed
       /\ emp_hire_date row = Some "2021-03-01"%string
       /\ emp_hire_date row <> ed_hire_date aliceRenamed
       /\ emp_source_data row = alice
       /\ emp_source_data row <> aliceRenamed.
Proof.
  cbv zeta. split; [reflexivity|]. split; [vm_compute; reflexivity|].
  eexists. split; [vm_compute; reflexivity|].
  cbn. repeat split; discriminate.
Qed.

(** *** The key and the falsy inputs *)

(** C10. [encrypt] returns null on every falsy input, the empty string
    included, and [decrypt] does on null and on every other falsy
    input; so null is a fixed point of both, the empty string comes
    back from the round trip as null, and a string the round trip
    returns unchanged is not empty. *)
Theorem vault_null_on_falsy (C : NodeCrypto) (key : list byte)
    (rng : nat -> byte) :
  (forall text, truthy text = false -> encrypt key rng text = Ok JNull)
  /\ (forall text, truthy text = false -> decrypt key text = Ok JNull)
  /\ encrypt key rng (JStr []) = Ok JNull
  /\ encrypt key rng JNull = Ok JNull
  /\ decrypt key JNull = Ok JNull
  /\ roundTrip key rng (JStr []) = Ok JNull
  /\ roundTrip key rng JNull = Ok JNull
  /\ (forall x, roundTrip key rng (JStr x) = Ok (JStr x) -> x <> []).
Proof.
  split; [intros; apply encrypt_falsy; assumption|].
  split; [intros; apply decrypt_falsy; assumption|].
  repeat split; try reflexivity.
  intros x Hx ->. discriminate Hx.
Qed.

Lemma vault_null_on_falsy_witness :
  encrypt (C := tagCipher) (ENCRYPTION_KEY None) countingBytes JUndefined
  = Ok JNull
  /\ decrypt (C := tagCipher) (ENCRYPTION_KEY None) (JStr []) = Ok JNull
  /\ str "finch-access-token" <> [].
Proof.
  pose proof (vault_null_on_falsy tagCipher (ENCRYPTION_KEY None)
                countingBytes) as (He & Hd & _ & _ & _ & _ & _ & Hx).
  split; [apply He; reflexivity|].
  split; [apply Hd; reflexivity|].
  apply Hx. vm_compute. reflexivity.
Defined.


(** C8 (as amended). Nothing fails when the module is loaded.  An
    absent or empty ENCRYPTION_KEY yields the key of 32 zero bytes.
    Under any key of 32 bytes, that one included, non-empty strings
    are encrypted.  Under a key of another length every call on a
    truthy value throws, call by call, while falsy values still give
    null. *)
Theorem vault_key_policy (C : NodeCrypto) (setting : option jsstring)
    (rng : nat -> byte) (text : jsval) :
  (setting = None \/ setting = Some [] -> ENCRYPTION_KEY setting = zeroKey)
  /\ (length (ENCRYPTION_KEY setting) = 32%nat ->
      forall s, s <> [] ->
        exists envelope,
          encrypt (ENCRYPTION_KEY setting) rng (JStr s) = Ok (JStr envelope))
  /\ (length (ENCRYPTION_KEY setting) <> 32%nat -> truthy text = true ->
      (exists msg, encrypt (ENCRYPTION_KEY setting) rng text = Throw msg)
      /\ (exists msg, decrypt (ENCRYPTION_KEY setting) text = Throw msg))
  /\ (truthy text = false ->
      encrypt (ENCRYPTION_KEY setting) rng text = Ok JNull
      /\ decrypt (ENCRYPTION_KEY setting) text = Ok JNull).
Proof.
  split; [intros [-> | ->]; reflexivity|].
  split; [intros Hk s Hs; rewrite encrypt_string by assumption; eauto|].
  split.
  - intros Hk Ht. split; [apply encrypt_bad_key | apply decrypt_bad_key];
      assumption.
  - intros Ht. split; [apply encrypt_falsy | apply decrypt_falsy]; assumption.
Qed.

Lemma vault_key_policy_witness :
  ENCRYPTION_KEY None = zeroKey
  /\ (exists envelope,
        encrypt (C := tagCipher) (ENCRYPTION_KEY None) countingBytes
          (JStr (str "123-45-6789")) = Ok (JStr envelope))
  /\ (exists msg,
        encrypt (C := tagCipher) (ENCRYPTION_KEY (Some (str "not hex")))
          countingBytes (JStr (str "123-45-6789")) = Throw msg)
  /\ encrypt (C := tagCipher) (ENCRYPTION_KEY (Some (str "not hex")))
       countingBytes JNull = Ok JNull.
Proof.
  pose proof (vault_key_policy tagCipher None countingBytes JNull)
    as (H1 & H2 & _ & _).
  pose proof (vault_key_policy tagCipher (Some (str "not hex")) countingBytes
                (JStr (str "123-45-6789"))) as (_ & _ & H3 & _).
  pose proof (vault_key_policy tagCipher (Some (str "not hex")) countingBytes
                JNull) as (_ & _ & _ & H4).
  split; [apply H1; left; reflexivity|].
  split; [apply H2; [reflexivity | discriminate]|].
  split; [apply H3; [vm_compute; discriminate | reflexivity]|].
  apply H4. reflexivity.
Defined.

(** C8 (as stated) fails: with ENCRYPTION_KEY absent the key is 32 zero
    bytes, nothing throws, and a value is encrypted and decrypted under
    that key; with a setting that is not hex the key is empty and the
    failure comes at the call, as "Invalid key length". *)
Lemma absent_key_falls_back_to_zero_key :
  ENCRYPTION_KEY None = zeroKey
  /\ (exists envelope,
        encrypt (C := tagCipher) (ENCRYPTION_KEY None) countingBytes
          (JStr (str "123-45-6789")) = Ok (JStr envelope)
        /\ decrypt (C := tagCipher) (ENCRYPTION_KEY None) (JStr envelope)
           = Ok (JStr (str "123-45-6789")))
  /\ ENCRYPTION_KEY (Some (str "not hex")) = []
  /\ encrypt (C := tagCipher) (ENCRYPTION_KEY (Some (str "not hex")))
       countingBytes (JStr (str "123-45-6789"))
     = Throw "Invalid key length".
Proof.
  split; [reflexivity|].
  split; [eexists; split; vm_compute; reflexivity|].
  split; vm_compute; reflexivity.
Qed.

(* ===================================================================== *)
(** * Proofs: login                                                       *)
(* ===================================================================== *)


Lemma find_none_existsb {A} (p : A -> bool) (l : list A) :
  existsb p l = false -> find p l = None.
Proof.
  induction l as [|a l IH]; cbn; [reflexivity|].
  destruct (p a); cbn; [discriminate | exact IH].
Qed.

Lemma getProperty_absent (email : jsstring) :
  isDemoEmail email = false -> isPrototypeName email = false ->
  getProperty validPasswords email = JUndefined.
Proof.
  intros Hd Hp. unfold getProperty.
  rewrite (find_none_existsb _ _ Hd), (find_none_existsb _ _ Hp). reflexivity.
Qed.

Lemma getProperty_inherited (email : jsstring) :
  isPrototypeName email = true ->
  exists n, getProperty validPasswords email = JBuiltin n.
Proof.
  unfold isPrototypeName, objectPrototypeNames. cbn [existsb].
  rewrite !orb_true_iff. unfold jsstring_eqb.
  intros H.
  repeat (destruct H as [H | H]);
    try (apply bool_decide_eq_true in H; subst email; vm_compute; eauto).
  discriminate.
Qed.

Section LoginFacts.
Context {C : NodeCrypto} {M : AuthMiddleware}.
Variable w : world.

Lemma selectByEmail_finds (email : jsstring) (user : taxpayer) (d : db) :
  fault w SelectTaxpayer = None ->
  user ∈ taxpayers d -> tp_email user = Some email ->
  exists first rest,
    selectByEmail w email d = (Ok (first :: rest), d)
    /\ tp_email first = Some email.
Proof.
  intros Hf Hin He. unfold selectByEmail, query. rewrite Hf.
  destruct (filter (fun r => tp_email r = Some email) (taxpayers d))
    as [|first rest] eqn:Hfl.
  - assert (Hu : user ∈ filter (fun r => tp_email r = Some email)
                            (taxpayers d))
      by (apply list_elem_of_filter; split; assumption).
    rewrite Hfl in Hu. apply elem_of_nil in Hu. contradiction.
  - exists first, rest. split; [reflexivity|].
    assert (Hu : first ∈ filter (fun r => tp_email r = Some email)
                             (taxpayers d))
      by (rewrite Hfl; apply list_elem_of_here).
    apply list_elem_of_filter in Hu. tauto.
Qed.

(** An e-mail address that names a member of [Object.prototype] finds
    that member in [validPasswords]; it is truthy and no password of
    a request equals it. *)
Lemma login_inherited_name (email : jsstring) (password : jsval)
    (user : taxpayer) (d : db) :
  fault w SelectTaxpayer = None ->
  user ∈ taxpayers d -> tp_email user = Some email ->
  isPrototypeName email = true ->
  truthy password = true -> fromRequest password = true ->
  login w (mkLoginBody (Some email) password) d
  = (Ok (errorResponse 401 "Invalid email or password"), d).
Proof.
  intros Hf Hin He Hp Ht Hr.
  destruct (selectByEmail_finds email user d Hf Hin He)
    as (first & rest & Hsel & _).
  destruct (getProperty_inherited email Hp) as [n Hn].
  unfold login, tryCatch, bind.
  cbn [lb_email lb_password column textOf].
  destruct email as [|u email']; [discriminate Hp|].
  cbn [truthy negb orb]. rewrite Ht. cbn [negb].
  rewrite Hsel, Hn.
  destruct password; try discriminate; reflexivity.
Qed.

(** Any other address that is not a demo address gets in with any
    password, as long as the token is signed. *)
Lemma login_any_password (email : jsstring) (password : jsval)
    (user : taxpayer) (d : db) :
  fault w SelectTaxpayer = None ->
  user ∈ taxpayers d -> tp_email user = Some email -> email <> [] ->
  isDemoEmail email = false -> isPrototypeName email = false ->
  truthy password = true ->
  (forall payload, exists token, generateToken payload = Ok token) ->
  exists resp token,
    login w (mkLoginBody (Some email) password) d = (Ok resp, d)
    /\ status resp = 200%nat
    /\ In ("token"%string, JsonText token) (payload resp).
Proof.
  intros Hf Hin He Hne Hd Hp Ht Hgen.
  destruct (selectByEmail_finds email user d Hf Hin He)
    as (first & rest & Hsel & _).
  unfold login, tryCatch, bind.
  cbn [lb_email lb_password column textOf].
  destruct email as [|u email']; [contradiction|].
  cbn [truthy negb orb]. rewrite Ht. cbn [negb].
  rewrite Hsel, (getProperty_absent _ Hd Hp). cbn [truthy andb].
  unfold lift.
  match goal with
  | |- context [generateToken ?p] => destruct (Hgen p) as [token ->]
  end.
  eexists _, token. split; [reflexivity|]. split; [reflexivity|].
  cbn. tauto.
Qed.
End LoginFacts.


(** C9, on a concrete user. Registering the address "constructor"
    succeeds, and the user it creates is then refused with 401 whatever
    password the request carries, the one just registered included:
    the address finds the inherited member in [validPasswords]. *)
Theorem login_refuses_prototype_names :
  let w := worldOffline in
  let registered :=
    register (C := tagCipher) (M := stubMiddleware) w constructorBody emptyDb in
  isDemoEmail (str "constructor") = false
  /\ statusOf registered = Some 201%nat
  /\ (exists user,
        taxpayers (snd registered) = [user]
        /\ tp_email user = Some (str "constructor"))
  /\ statusOf (login (M := stubMiddleware) w
                 (mkLoginBody (Some (str "constructor"))
                    (rb_password constructorBody))
                 (snd registered)) = Some 401%nat
  /\ (forall password,
        truthy password = true -> fromRequest password = true ->
        login (M := stubMiddleware) w
          (mkLoginBody (Some (str "constructor")) password) (snd registered)
        = (Ok (errorResponse 401 "Invalid email or password"),
           snd registered)).
Proof.
  cbv zeta. split; [reflexivity|]. split; [vm_compute; reflexivity|].
  split; [eexists; split; vm_compute; reflexivity|].
  split; [vm_compute; reflexivity|].
  intros password Ht Hr.
  eapply (login_inherited_name (M := stubMiddleware)); try eassumption.
  - reflexivity.
  - vm_compute. apply list_elem_of_here.
  - reflexivity.
  - reflexivity.
Qed.

Lemma login_refuses_prototype_names_witness :
  let w := worldOffline in
  login (M := stubMiddleware) w
    (mkLoginBody (Some (str "constructor")) (JStr (str "anything")))
    (snd (register (C := tagCipher) (M := stubMiddleware) w constructorBody
            emptyDb))
  = (Ok (errorResponse 401 "Invalid email or password"),
     snd (register (C := tagCipher) (M := stubMiddleware) w constructorBody
            emptyDb)).
Proof.
  apply (proj2 (proj2 (proj2 (proj2 login_refuses_prototype_names))));
    reflexivity.
Defined.

(* ===================================================================== *)
(** * The model against the repository's own scenarios                    *)
(* ===================================================================== *)

(** The login cases of the authentication API tests: valid
    credentials, wrong password, unknown user, missing e-mail, missing
    password. *)
Example login_scenarios :
  let run b := statusOf (login (M := stubMiddleware) worldOffline b dbSeeded) in
  run (mkLoginBody (Some (str "taxpayer@tax.com")) (JStr (str "taxpayer123")))
  = Some 200%nat
  /\ run (mkLoginBody (Some (str "taxpayer@tax.com"))
            (JStr (str "wrongpassword"))) = Some 401%nat
  /\ run (mkLoginBody (Some (str "nonexistent@tax.com"))
            (JStr (str "password123"))) = Some 401%nat
  /\ run (mkLoginBody None (JStr (str "password123"))) = Some 400%nat
  /\ run (mkLoginBody (Some (str "taxpayer@tax.com")) JUndefined)
     = Some 400%nat.
Proof. cbv zeta. repeat split; vm_compute; reflexivity. Qed.

(** The OAuth callback is the one writer of the audit log: it stores
    the connection with its credential encrypted and records
    'integration.connected' in the same transaction. *)
Example callback_connects :
  let run := handleFinchCallback (C := tagCipher) worldCallback
               (JStr (str "auth-code")) (JStr (str "c3RhdGU=")) emptyDb in
  statusOf run = Some 200%nat
  /\ map al_event_type (audit_logs (snd run)) = ["integration.connected"%string]
  /\ (conn_status <$> connections (snd run) !! "conn-9"%string)
     = Some "active"%string
  /\ (r <-? prop "no such connection"
               (connections (snd run) !! "conn-9"%string);
      decrypt (C := tagCipher) (vaultKey worldCallback)
        (column (conn_access_token_encrypted r))) = Ok token1.
Proof. cbv zeta. repeat split; vm_compute; reflexivity. Qed.

(** The end-to-end scenario: three identifiers, the second not found. *)
Example three_identifiers_second_missing :
  let run := syncFinchData (C := tagCipher) worldSecondMissing "conn-1"
               dbConnected in
  statusOf run = Some 200%nat
  /\ (job_status <$> sync_jobs (snd run) !! "job-1"%string)
     = Some "completed"%string
  /\ (job_records_processed <$> sync_jobs (snd run) !! "job-1"%string)
     = Some 2%nat
  /\ (job_records_failed <$> sync_jobs (snd run) !! "job-1"%string)
     = Some 1%nat
  /\ size (employees (snd run)) = 2%nat.
Proof. cbv zeta. repeat split; vm_compute; reflexivity. Qed.

(** A second run over the same data adds no row. *)
Example second_run_adds_no_row :
  let once := snd (syncFinchPayrollData worldSecondMissing "conn-1" token1
                     "job-2" dbSynced) in
  let twice := snd (syncFinchPayrollData worldSecondMissing "conn-1" token1
                      "job-2" once) in
  size (employees once) = 2%nat /\ size (employees twice) = 2%nat.
Proof. cbv zeta. split; vm_compute; reflexivity. Qed.

(* ===================================================================== *)
(** * Proofs: more of utils/encryption.js                                 *)
(* ===================================================================== *)

Lemma hexEncode_app (a b : list byte) :
  hexEncode (a ++ b) = hexEncode a ++ hexEncode b.
Proof. induction a as [|x a IH]; cbn [hexEncode app]; [|rewrite IH]; reflexivity. Qed.

Lemma hexEncode_inj (a b : list byte) : hexEncode a = hexEncode b -> a = b.
Proof.
  intros H. rewrite <- (hexDecode_hexEncode a), <- (hexDecode_hexEncode b), H.
  reflexivity.
Qed.

(** Decoding stops at the first character that is no hex digit, and a
    single trailing character is dropped. *)
Lemma hexDecode_stops (bs : list byte) (c : Z) (rest : jsstring) :
  hexVal c = None -> hexDecode (hexEncode bs ++ c :: rest) = bs.
Proof.
  intros Hc. induction bs as [|b bs IH].
  - cbn [hexEncode app hexDecode]. destruct rest; [reflexivity|].
    rewrite Hc. reflexivity.
  - destruct (nibbles b) as (Hh & Hl & Hsum).
    cbn [hexEncode app hexDecode].
    rewrite !hexVal_hexDigit by assumption.
    rewrite Hsum, byte_of_Z_of_byte, IH. reflexivity.
Qed.

Lemma hexDecode_odd_tail (bs : list byte) (c : Z) :
  hexDecode (hexEncode bs ++ [c]) = bs.
Proof.
  induction bs as [|b bs IH]; [reflexivity|].
  destruct (nibbles b) as (Hh & Hl & Hsum).
  cbn [hexEncode app hexDecode].
  rewrite !hexVal_hexDigit by assumption.
  rewrite Hsum, byte_of_Z_of_byte, IH. reflexivity.
Qed.

(** If position [i] of [p] is past the end or holds no hex digit,
    fewer than [i / 2 + 1] bytes are decoded. *)
Lemma hexDecode_short (p : jsstring) :
  forall i : nat,
    (forall c, p !! i = Some c -> hexVal c = None) ->
    (2 * length (hexDecode p) <= i)%nat.
Proof.
  induction p as [|c1|c1 c2 p IH _] using jsstring_pair_ind; intros i Hi.
  - cbn. lia.
  - cbn. lia.
  - cbn [hexDecode].
    destruct (hexVal c1) as [h|] eqn:H1; [|cbn; lia].
    destruct (hexVal c2) as [l|] eqn:H2; [|cbn; lia].
    destruct i as [|[|i]].
    + specialize (Hi c1 eq_refl). congruence.
    + specialize (Hi c2 eq_refl). congruence.
    + cbn [length]. specialize (IH i). cbn in Hi. specialize (IH Hi). lia.
Qed.

(** The part of a text before its first separator. *)
Lemma split_head (sep : Z) (s : jsstring) :
  exists p parts,
    split sep s = p :: parts
    /\ forall i c, p !! i = Some c -> s !! i = Some c /\ c <> sep.
Proof.
  induction s as [|c s (p & parts & Hs & Hp)].
  - exists [], []. split; [reflexivity|]. intros i c Hi. discriminate.
  - cbn [split]. destruct (Z.eqb_spec c sep) as [->|Hne].
    + exists [], (split sep s). split; [reflexivity|]. intros i c Hi.
      discriminate.
    + rewrite Hs. exists (c :: p), parts. split; [reflexivity|].
      intros [|i] c' Hi; cbn in *.
      * injection Hi as <-. auto.
      * apply Hp. assumption.
Qed.

Lemma split_head_stops (sep : Z) (s p : jsstring) (parts : list jsstring) :
  split sep s = p :: parts ->
  forall c, s !! length p = Some c -> c = sep.
Proof.
  revert p parts. induction s as [|c0 s IH]; intros p parts Hs c Hc.
  - cbn in Hs. injection Hs as <- <-. discriminate.
  - cbn [split] in Hs. destruct (Z.eqb_spec c0 sep) as [->|Hne].
    + injection Hs as <- <-. cbn in Hc. congruence.
    + destruct (split sep s) as [|p0 ps] eqn:Hsp.
      * injection Hs as <- <-. cbn in Hc.
        destruct s; [discriminate|]. cbn in Hsp.
        destruct (z =? sep); [discriminate|].
        destruct (split sep s); discriminate.
      * injection Hs as <- <-. cbn in Hc. apply (IH p0 ps eq_refl). exact Hc.
Qed.

(** X1. Under a key of 32 bytes, the envelope [encrypt] returns for a
    non-empty string starts with the 32 hex digits of the IV of that
    call, followed by a colon, so the IV can be read back from it; and
    a call that draws another IV never returns the same envelope,
    whatever it encrypts. *)
Theorem envelope_carries_iv (C : NodeCrypto) (key : list byte)
    (rng : nat -> byte) (s : jsstring) :
  length key = 32%nat -> s <> [] ->
  exists envelope : list Z,
    encrypt key rng (JStr s) = Ok (JStr envelope)
    /\ hexDecode (take 32 envelope) = randomBytes IV_LENGTH rng
    /\ envelope !! 32%nat = Some COLON
    /\ (forall rng' s',
          s' <> [] ->
          randomBytes IV_LENGTH rng' <> randomBytes IV_LENGTH rng ->
          encrypt key rng' (JStr s') <> Ok (JStr envelope)).
Proof.
  intros Hk Hs. eexists. split; [apply encrypt_string; assumption|].
  assert (Hlen : forall r, length (hexEncode (randomBytes IV_LENGTH r)) = 32%nat)
    by (intros r; rewrite hexEncode_length, randomBytes_length; reflexivity).
  split; [|split].
  - rewrite (take_app_length' _ _ 32 (eq_sym (Hlen rng))).
    apply hexDecode_hexEncode.
  - rewrite lookup_app_r by (rewrite Hlen; lia). rewrite Hlen. reflexivity.
  - intros rng' s' Hs' Hiv. rewrite encrypt_string by assumption.
    intros Heq. apply Hiv.
    assert (Henv : forall a b : jsstring,
               @Ok jsval (JStr a) = Ok (JStr b) -> a = b)
      by (intros a b H; congruence).
    apply Henv in Heq.
    apply app_inj_1 in Heq as [Heq _]; [|rewrite !Hlen; reflexivity].
    apply hexEncode_inj. exact Heq.
Qed.

Lemma envelope_carries_iv_witness :
  exists envelope : list Z,
    encrypt (C := tagCipher) zeroKey countingBytes token1
    = Ok (JStr envelope)
    /\ hexDecode (take 32 envelope) = randomBytes IV_LENGTH countingBytes
    /\ envelope !! 32%nat = Some COLON
    /\ (forall rng' s',
          s' <> [] ->
          randomBytes IV_LENGTH rng' <> randomBytes IV_LENGTH countingBytes ->
          encrypt (C := tagCipher) zeroKey rng' (JStr s')
          <> Ok (JStr envelope)).
Proof.
  apply (envelope_carries_iv tagCipher zeroKey countingBytes
           (str "finch-access-token")); [reflexivity | discriminate].
Defined.

(** X2. [decrypt] throws on every non-empty text that does not begin
    with 32 characters read as hex digits: if one of the first 32
    positions is past the end of the text or holds a character whose
    low byte is no hex digit (the low byte of a code unit is all that
    Node's decoder looks at), no key and no cipher make it return. *)
Theorem decrypt_needs_iv_prefix (C : NodeCrypto) (key : list byte)
    (s : jsstring) (i : nat) :
  s <> [] -> (i < 32)%nat ->
  (forall c, s !! i = Some c -> hexVal c = None) ->
  exists msg, decrypt key (JStr s) = Throw msg.
Proof.
  intros Hs Hi Hbad. unfold decrypt.
  destruct s as [|u s']; [contradiction|]. cbn [truthy negb].
  destruct (split_head COLON (u :: s')) as (p & parts & -> & Hp).
  assert (Hshort : (2 * length (hexDecode p) <= i)%nat).
  { apply hexDecode_short. intros c Hc. apply Hbad. apply (Hp i c Hc). }
  unfold checkCipherArgs, IV_LENGTH.
  destruct (Nat.eqb_spec (length (hexDecode p)) 16); [lia|].
  cbn. eauto.
Qed.

Lemma decrypt_needs_iv_prefix_witness :
  exists msg,
    decrypt (C := tagCipher) zeroKey (JStr (str "123-45-6789")) = Throw msg.
Proof.
  apply (decrypt_needs_iv_prefix tagCipher zeroKey (str "123-45-6789") 3).
  - discriminate.
  - lia.
  - intros c [= <-]. reflexivity.
Defined.

(** X3. [maskSSN] never shows more than the last four characters: a
    value shorter than four characters, or none, gives '***'; any
    longer one gives 'XXX-XX-' and its last four characters, eleven
    characters in all, and what stands before the last four makes no
    difference to the result. *)
Theorem maskSSN_shows_last_four (ssn : jsstring) :
  ((length ssn < 4)%nat -> maskSSN (Some ssn) = str "***")
  /\ ((4 <= length ssn)%nat ->
      length (maskSSN (Some ssn)) = 11%nat
      /\ take 7 (maskSSN (Some ssn)) = str "XXX-XX-"
      /\ drop 7 (maskSSN (Some ssn)) = drop (length ssn - 4) ssn
      /\ forall before,
           maskSSN (Some (before ++ ssn)) = maskSSN (Some ssn))
  /\ maskSSN None = str "***".
Proof.
  assert (Hlong : forall t : jsstring,
             (4 <= length t)%nat ->
             maskSSN (Some t) = str "XXX-XX-" ++ drop (length t - 4) t).
  { intros t Ht. unfold maskSSN. destruct t as [|c t]; [cbn in Ht; lia|].
    destruct (Nat.ltb_spec (length (c :: t)) 4); [lia | reflexivity]. }
  split; [|split; [|reflexivity]].
  - intros Hlt. unfold maskSSN. destruct ssn as [|c s]; [reflexivity|].
    destruct (Nat.ltb_spec (length (c :: s)) 4); [reflexivity | lia].
  - intros Hge. rewrite (Hlong ssn Hge).
    split; [|split; [|split]].
    + rewrite length_app, length_drop. cbn. lia.
    + reflexivity.
    + reflexivity.
    + intros before. rewrite Hlong by (rewrite length_app; lia).
      f_equal. rewrite length_app.
      replace (length before + length ssn - 4)%nat
        with (length before + (length ssn - 4))%nat by lia.
      rewrite drop_app_add'; reflexivity.
Qed.

Lemma maskSSN_shows_last_four_witness :
  maskSSN (Some (str "123-45-6789")) = str "XXX-XX-6789"
  /\ maskSSN (Some (str "987-65-6789")) = maskSSN (Some (str "6789"))
  /\ maskSSN (Some (str "678")) = str "***".
Proof.
  pose proof (maskSSN_shows_last_four (str "6789")) as (_ & H4 & _).
  pose proof (maskSSN_shows_last_four (str "678")) as (H3 & _).
  destruct (H4 ltac:(cbn; lia)) as (_ & _ & _ & Hpre).
  split; [etransitivity; [exact (Hpre (str "123-45-")) | reflexivity]|].
  split; [exact (Hpre (str "987-65-"))|].
  apply H3. cbn. lia.
Defined.

(** X6. The key setting is read as hex up to its first character that
    is not read as a hex digit, and what follows is ignored without any
    error.  A character is read by the low byte of its code unit
    ([hexVal]): a setting made of the hex digits of [k] followed by a
    character whose low byte is no hex digit (a line break, a comment)
    yields exactly the key [k], and so does one followed by a single
    extra character of any kind. *)
Theorem key_setting_read_up_to_first_non_hex (k : list byte) (c : Z)
    (rest : jsstring) :
  (hexVal c = None -> ENCRYPTION_KEY (Some (hexEncode k ++ c :: rest)) = k)
  /\ ENCRYPTION_KEY (Some (hexEncode k ++ [c])) = k
  /\ (k <> [] -> ENCRYPTION_KEY (Some (hexEncode k)) = k).
Proof.
  assert (Hset : forall s : jsstring,
             s <> [] -> ENCRYPTION_KEY (Some s) = hexDecode s).
  { intros [|u s] Hs; [contradiction | reflexivity]. }
  split; [|split].
  - intros Hc. rewrite Hset by (destruct (hexEncode k); discriminate).
    apply hexDecode_stops. exact Hc.
  - rewrite Hset by (destruct (hexEncode k); discriminate).
    apply hexDecode_odd_tail.
  - intros Hk. rewrite Hset by (destruct k; [contradiction | discriminate]).
    apply hexDecode_hexEncode.
Qed.

(** The low byte decides: U+0130 is read as '0', its low byte. *)
Example hexDecode_low_byte :
  hexVal 0x130 = Some 0 /\ hexDecode [0x130; 0x31] = hexDecode (str "01").
Proof. split; reflexivity. Qed.

Lemma key_setting_read_up_to_first_non_hex_witness :
  ENCRYPTION_KEY (Some (hexEncode zeroKey ++ str " # rotate me")) = zeroKey.
Proof.
  apply (proj1 (key_setting_read_up_to_first_non_hex zeroKey 32
                  (str "# rotate me"))).
  reflexivity.
Defined.

(** *** Password digests *)

Lemma hexDigit_ascii (n : Z) : 0 <= n < 16 -> 0 <= hexDigit n < 0x80.
Proof. intros Hn. unfold hexDigit. destruct (Z.ltb_spec n 10); lia. Qed.

Lemma hexEncode_ascii (bs : list byte) : asciiText (hexEncode bs).
Proof.
  induction bs as [|b bs IH]; cbn [hexEncode]; [constructor|].
  destruct (nibbles b) as (Hh & Hl & _).
  repeat constructor; try apply hexDigit_ascii; assumption.
Qed.

Lemma utf8Encode_ascii (s : jsstring) :
  asciiText s -> utf8Encode s = map byte_of_Z s.
Proof.
  induction 1 as [|u s Hu _ IH]; [reflexivity|].
  rewrite utf8Encode_cons. range_tests. rewrite IH. reflexivity.
Qed.

(** The first byte of what a non-ASCII code unit is encoded to. *)
Lemma utf8Encode_head (u : Z) (rest : jsstring) :
  0x80 <= u < 0x10000 ->
  exists x t,
    utf8Encode (u :: rest) = byte_of_Z x :: t /\ 0xC0 <= x < 256.
Proof.
  intros Hu. rewrite utf8Encode_cons.
  assert (H64 : 0 <= u / 64 < 1024)
    by (split; [apply Z.div_pos | apply Z.div_lt_upper_bound]; lia).
  assert (H4096 : 0 <= u / 4096 < 16)
    by (split; [apply Z.div_pos | apply Z.div_lt_upper_bound]; lia).
  destruct (Z.ltb_spec u 0x80); [lia|].
  destruct (Z.ltb_spec u 0x800).
  - exists (0xC0 + u / 64), (byte_of_Z (0x80 + u mod 64) :: utf8Encode rest).
    split; [reflexivity|].
    assert (u / 64 < 32) by (apply Z.div_lt_upper_bound; lia). lia.
  - destruct (isHighSurrogate u) eqn:Hh.
    + apply (proj1 (surrogate_tests u)) in Hh.
      destruct rest as [|v rest'];
        [exists 0xEF; eexists; split; [reflexivity | lia]|].
      destruct (isLowSurrogate v) eqn:Hl;
        [|exists 0xEF; eexists; split; [reflexivity | lia]].
      apply (proj2 (surrogate_tests v)) in Hl.
      eexists (0xF0 + _ / 262144), _. split; [reflexivity|].
      match goal with
      | |- _ <= 240 + ?c / _ < _ =>
          assert (0 <= c / 262144 < 5)
            by (split; [apply Z.div_pos | apply Z.div_lt_upper_bound]; lia)
      end.
      lia.
    + destruct (isLowSurrogate u);
        [exists 0xEF; eexists; split; [reflexivity | lia]|].
      exists (0xE0 + u / 4096). eexists. split; [reflexivity | lia].
Qed.

Lemma byte_of_Z_inj (x y : Z) :
  0 <= x < 256 -> 0 <= y < 256 -> byte_of_Z x = byte_of_Z y -> x = y.
Proof.
  intros Hx Hy H. rewrite <- (Z_of_byte_of_Z x Hx), <- (Z_of_byte_of_Z y Hy), H.
  reflexivity.
Qed.

(** Only an ASCII text itself encodes to the bytes of that text. *)
Lemma utf8Encode_ascii_inj (h : jsstring) :
  codeUnits h ->
  forall a, asciiText a -> utf8Encode h = utf8Encode a -> h = a.
Proof.
  induction 1 as [|u h Hu _ IH]; intros a Ha Heq.
  - rewrite (utf8Encode_ascii a Ha) in Heq. destruct a; [reflexivity|].
    discriminate.
  - destruct (Z.ltb_spec u 0x80) as [Hlt|Hge].
    + rewrite utf8Encode_cons in Heq. revert Heq. range_tests. intros Heq.
      destruct Ha as [|v a Hv Ha]; [discriminate|].
      rewrite utf8Encode_cons in Heq. revert Heq. range_tests. intros Heq.
      unfold utf8_1 in Heq. cbn [app] in Heq. injection Heq as Hb Heq.
      apply byte_of_Z_inj in Hb; [|lia..]. subst v.
      f_equal. apply IH; assumption.
    + destruct (utf8Encode_head u h ltac:(lia)) as (x & t & Hx & Hrange).
      rewrite Hx in Heq.
      destruct Ha as [|v a Hv Ha]; [discriminate|].
      rewrite utf8Encode_cons in Heq. revert Heq. range_tests. intros Heq.
      unfold utf8_1 in Heq. cbn [app] in Heq. injection Heq as Hb _.
      apply byte_of_Z_inj in Hb; lia.
Qed.

Section PasswordFacts.
Context {P : NodePbkdf2}.

(** X4. [verifyPassword] accepts exactly the hash that [hashPassword]
    gives the password: it returns true on that hash, and whenever it
    returns true on a string, that string is that hash. *)
Theorem verifyPassword_accepts_only_the_hash (password h : jsstring) :
  (forall digest,
      hashPasswordHex (JStr password) = Ok digest ->
      verifyPassword (JStr password) (JStr digest) = Ok true)
  /\ (codeUnits h ->
      verifyPassword (JStr password) (JStr h) = Ok true ->
      hashPasswordHex (JStr password) = Ok h).
Proof.
  split.
  - intros digest [= <-]. unfold verifyPassword, timingSafeEqual. cbn.
    rewrite Nat.eqb_refl, bool_decide_eq_true_2 by reflexivity. reflexivity.
  - intros Hh. unfold verifyPassword, timingSafeEqual. cbn.
    destruct (Nat.eqb _ _); [|discriminate].
    intros [= Heq]. apply bool_decide_eq_true in Heq. f_equal. symmetry.
    apply utf8Encode_ascii_inj; [assumption | apply hexEncode_ascii|].
    symmetry. exact Heq.
Qed.

(** X5. Against a stored hash that is not 128 characters long
    [verifyPassword] does not answer false: it throws.  Only for a
    hash of 128 characters does it return a verdict. *)
Theorem verifyPassword_throws_on_other_lengths (password h : jsstring) :
  digestLaw P -> asciiText h ->
  (length h <> 128%nat ->
   exists msg, verifyPassword (JStr password) (JStr h) = Throw msg)
  /\ (length h = 128%nat ->
      exists verdict, verifyPassword (JStr password) (JStr h) = Ok verdict).
Proof.
  intros Hlaw Hh. unfold verifyPassword, timingSafeEqual. cbn.
  rewrite (utf8Encode_ascii _ (hexEncode_ascii _)), (utf8Encode_ascii h Hh).
  rewrite !length_map, hexEncode_length, Hlaw.
  split; intros Hlen.
  - destruct (Nat.eqb_spec (2 * 64) (length h)); [lia | eauto].
  - destruct (Nat.eqb_spec (2 * 64) (length h)); [eauto | lia].
Qed.
End PasswordFacts.

Lemma paddedDigest_law : digestLaw paddedDigest.
Proof.
  intros p. change (length (take 64 (p ++ repeat x00 64)) = 64%nat).
  rewrite length_take, length_app, repeat_length. lia.
Qed.

Lemma verifyPassword_accepts_only_the_hash_witness :
  exists digest,
    hashPasswordHex (P := paddedDigest) (JStr (str "correct horse"))
    = Ok digest
    /\ verifyPassword (P := paddedDigest) (JStr (str "correct horse"))
         (JStr digest) = Ok true.
Proof.
  eexists. split; [reflexivity|].
  apply (proj1 (verifyPassword_accepts_only_the_hash (P := paddedDigest)
                  (str "correct horse") [])).
  reflexivity.
Defined.

Lemma verifyPassword_throws_on_other_lengths_witness :
  exists msg,
    verifyPassword (P := paddedDigest) (JStr (str "correct horse"))
      (JStr (str "$2b$10$N9qo8uLOickgx2ZMRZoMye")) = Throw msg.
Proof.
  apply (proj1 (verifyPassword_throws_on_other_lengths (P := paddedDigest)
                  (str "correct horse") (str "$2b$10$N9qo8uLOickgx2ZMRZoMye")
                  paddedDigest_law
                  ltac:(unfold asciiText; repeat constructor; lia))).
  cbn. lia.
Defined.

(* ===================================================================== *)
(** * Proofs: the seed script and the vault                               *)
(* ===================================================================== *)

Lemma checkCipherArgs_inv (key iv : list byte) :
  checkCipherArgs key iv = Ok tt ->
  length key = 32%nat /\ length iv = 16%nat.
Proof.
  unfold checkCipherArgs.
  destruct (Nat.eqb_spec (length iv) IV_LENGTH) as [Hi|Hi]; cbn [negb];
    [|discriminate].
  destruct (Nat.eqb_spec (length key) KEY_LENGTH) as [Hk|Hk]; cbn [negb];
    [|discriminate].
  auto.
Qed.

(** X25.  What the seed script stores as [ssn_encrypted] is not an
    envelope of the vault: it is the ciphertext alone, without IV and
    colon, so [decrypt] takes the whole of it for the IV and is left
    with no ciphertext.  Whatever the SSN and the key setting,
    [decrypt] never returns a string for a seeded value, and it
    throws on every seeded value that is not empty. *)
Theorem seeded_ssn_unreadable (C : NodeCrypto) (env : option jsstring)
    (ssn seeded : jsstring) :
  finalLaw C ->
  encryptSSN env ssn = Ok seeded ->
  (forall x, decrypt (ENCRYPTION_KEY env) (JStr seeded) <> Ok (JStr x))
  /\ (seeded <> [] ->
      exists msg, decrypt (ENCRYPTION_KEY env) (JStr seeded) = Throw msg).
Proof.
  intros Hlaw Hseed.
  assert (Hcolon : COLON ∉ seeded).
  { unfold encryptSSN in Hseed.
    destruct (checkCipherArgs _ _); cbn [bind_result] in Hseed;
      [|discriminate].
    injection Hseed as <-. apply hexEncode_no_colon. }
  assert (Hthrow : seeded <> [] ->
            exists msg, decrypt (ENCRYPTION_KEY env) (JStr seeded) = Throw msg).
  { intros Hne. unfold decrypt.
    destruct seeded as [|c rest]; [contradiction|]. cbn [truthy negb].
    rewrite split_no_sep by exact Hcolon. cbn [join length Nat.odd].
    destruct (checkCipherArgs (ENCRYPTION_KEY env) (hexDecode (c :: rest)))
      as [[]|msg] eqn:Hargs; cbn [bind_result]; [|eauto].
    apply checkCipherArgs_inv in Hargs as [Hk Hi].
    change (hexDecode []) with (@nil byte).
    rewrite (Hlaw _ _ Hk Hi). eauto. }
  split; [|exact Hthrow].
  intros x. destruct seeded as [|c rest].
  - cbn. discriminate.
  - destruct Hthrow as [msg ->]; discriminate.
Qed.

Lemma tagCipher_finalLaw : finalLaw tagCipher.
Proof.
  intros key iv _ Hi. cbn [decipherRun tagCipher].
  destruct iv as [|b iv]; [discriminate Hi|].
  rewrite bool_decide_eq_false_2; [reflexivity|]. cbn. discriminate.
Qed.

Lemma seeded_ssn_unreadable_witness :
  exists seeded,
    encryptSSN (C := tagCipher) None (str "333-33-3333") = Ok seeded
    /\ (forall x,
          decrypt (C := tagCipher) (ENCRYPTION_KEY None) (JStr seeded)
          <> Ok (JStr x))
    /\ (seeded <> [] ->
        exists msg,
          decrypt (C := tagCipher) (ENCRYPTION_KEY None) (JStr seeded)
          = Throw msg).
Proof.
  eexists. split; [vm_compute; reflexivity|].
  apply (seeded_ssn_unreadable tagCipher None (str "333-33-3333")).
  - exact tagCipher_finalLaw.
  - vm_compute. reflexivity.
Defined.

(* ===================================================================== *)
(** * Proofs: registration and login                                      *)
(* ===================================================================== *)

(** *** What a VARCHAR column keeps *)

Lemma codePoints_cons (u : Z) (rest : jsstring) :
  codePoints (u :: rest) =
  if isHighSurrogate u then
    match rest with
    | v :: rest' =>
        if isLowSurrogate v then [u; v] :: codePoints rest'
        else [u] :: codePoints rest
    | [] => [[u]]
    end
  else [u] :: codePoints rest.
Proof. reflexivity. Qed.

Lemma codePoints_concat (s : jsstring) : concat (codePoints s) = s.
Proof.
  induction s as [|u|u v s IHs IHvs] using jsstring_pair_ind.
  - reflexivity.
  - cbn. destruct (isHighSurrogate u); reflexivity.
  - rewrite codePoints_cons.
    destruct (isHighSurrogate u); [destruct (isLowSurrogate v)|];
      cbn [concat app]; congruence.
Qed.

Lemma codePoints_nonempty (s : jsstring) :
  Forall (fun c => c <> []) (codePoints s).
Proof.
  induction s as [|u|u v s IHs IHvs] using jsstring_pair_ind.
  - constructor.
  - cbn. destruct (isHighSurrogate u); repeat constructor; discriminate.
  - rewrite codePoints_cons.
    destruct (isHighSurrogate u); [destruct (isLowSurrogate v)|];
      constructor; try discriminate; assumption.
Qed.

(** A text that fits is stored as it is. *)
Lemma varchar_fits (n : nat) (s : jsstring) :
  (length (codePoints s) <= n)%nat -> varchar n s = Some s.
Proof.
  intros H. unfold varchar.
  rewrite (proj2 (Nat.leb_le _ _) H). reflexivity.
Qed.

(** A longer one that is stored at all is stored cut: the column never
    holds the text that was sent. *)
Lemma varchar_cuts (n : nat) (s kept : jsstring) :
  (n < length (codePoints s))%nat -> varchar n s = Some kept -> kept <> s.
Proof.
  intros Hlong. unfold varchar.
  rewrite (proj2 (Nat.leb_gt _ _) Hlong).
  destruct (forallb _ _); [|discriminate].
  intros [= <-] Heq.
  pose proof (codePoints_nonempty s) as Hne.
  rewrite <- (take_drop n (codePoints s)) in Hne.
  apply Forall_app in Hne as [_ Hne].
  apply (f_equal (@length Z)) in Heq.
  rewrite <- (codePoints_concat s) in Heq at 2.
  rewrite <- (take_drop n (codePoints s)) in Heq at 2.
  rewrite concat_app, length_app in Heq.
  destruct (drop n (codePoints s)) as [|c rest] eqn:Hdrop.
  - apply (f_equal (@length _)) in Hdrop. rewrite length_drop in Hdrop.
    cbn in Hdrop. lia.
  - apply Forall_cons in Hne as [Hc _].
    destruct c as [|u c]; [contradiction|].
    cbn in Heq. lia.
Qed.

Section RegisterFacts.
Context {C : NodeCrypto}.
Variable w : world.

Ltac unchanged := left; split; [reflexivity | discriminate].

(** A value that a column refuses: whatever the other columns say. *)
Ltac refused :=
  repeat match goal with
         | |- context [match ?x with Some _ => _ | None => _ end] =>
             destruct x
         end;
  unchanged.

(** A registration either leaves the tables alone and does not answer
    201, or it got through its INSERT. *)
Lemma register_inv {M : AuthMiddleware} (b : register_body) (d : db) :
  (snd (register w b d) = d /\ statusOf (register w b d) <> Some 201%nat)
  \/ exists row, registers w b d row.
Proof.
  unfold registers, register, statusOf, tryCatch, bind, selectByEmail,
    insertTaxpayer, query, lift, ret.
  destruct (rb_email b) as [[|c email]|] eqn:He; try unchanged.
  cbn [column truthy negb orb textOf].
  destruct (truthy (rb_password b)); try unchanged.
  destruct (rb_firstName b) as [[|c1 fn]|] eqn:Hfn; try unchanged.
  destruct (rb_lastName b) as [[|c2 ln]|] eqn:Hln; try unchanged.
  cbn [column truthy negb orb].
  destruct (truthy (rb_ssn b)); try unchanged.
  destruct (rb_dob b) as [[|c3 dob]|] eqn:Hdob; try unchanged.
  cbn [column truthy negb orb].
  destruct (tooShort w (rb_password b)) eqn:Hlen; try unchanged.
  destruct (fault w SelectTaxpayer); try unchanged.
  match goal with
  | |- context [match ?f with [] => _ | _ :: _ => _ end] =>
      destruct f eqn:Hfilter
  end; try unchanged.
  destruct (encrypt _ _ (rb_ssn b)) as [ssnEncrypted|] eqn:Henc;
    try unchanged.
  destruct (hashPassword (rb_password b)) as [[]|] eqn:Hhash; try unchanged.
  destruct (fault w InsertTaxpayer); try unchanged.
  cbv beta iota zeta.
  destruct (existsb (fun r => String.eqb (taxpayer_id r)
                       (gen_random_uuid w InsertTaxpayer)) (taxpayers d))
    eqn:Hid; try unchanged.
  destruct ssnEncrypted as [| | | |envelope| |]; cbn [textParam];
    try unchanged.
  destruct (varchar 100 (c1 :: fn)) as [first_name|] eqn:Hvfn;
    [|refused].
  destruct (varchar 100 (c2 :: ln)) as [last_name|] eqn:Hvln;
    [|refused].
  match goal with
  | |- context [varcharNull 255 ?e] =>
      destruct (varcharNull 255 e) as [stored|] eqn:Hvem; [|refused]
  end.
  destruct (varcharNull 20 (rb_phone b)) as [phone|] eqn:Hvph;
    [|refused].
  right. eexists.
  assert (Hpw : exists s, rb_password b = JStr s /\ (8 <= length s)%nat).
  { destruct (rb_password b) as [| | | |s| |]; try discriminate Hhash.
    exists s. split; [reflexivity|]. unfold tooShort in Hlen.
    apply Nat.ltb_ge. exact Hlen. }
  split; [eauto|]. split; [exact Hpw|]. split; [eauto|]. split; [eauto|].
  split; [eauto|]. split; [reflexivity|]. split; [reflexivity|].
  split; [reflexivity|]. split; [reflexivity|].
  exists envelope, first_name, last_name, stored, phone.
  repeat split; assumption.
Qed.

(** ... and then it appended that row and answered [registered]. *)
Lemma register_run {M : AuthMiddleware} (b : register_body) (d : db)
    (row : taxpayer) :
  registers w b d row ->
  register w b d
  = (Ok (registered row), set_taxpayers (fun l => l ++ [row]) d).
Proof.
  intros ([c [e He]] & [s [Hpw Hlen]] & [c1 [fn Hfn]] & [c2 [ln Hln]]
          & [c3 [dob Hdob]] & Hsel & Hfree & Hins & Hid
          & (envelope & first_name & last_name & stored & phone & Henc
             & Hvfn & Hvln & Hvem & Hvph & ->)).
  unfold register, registered, tryCatch, bind, selectByEmail,
    insertTaxpayer, query, lift, ret.
  destruct s as [|p0 s]; [cbn in Hlen; lia|].
  assert (Hssn : truthy (rb_ssn b) = true).
  { unfold encrypt in Henc. destruct (truthy (rb_ssn b)); [reflexivity|].
    discriminate Henc. }
  rewrite Hvph. rewrite Hfn, Hln, Hdob in *. rewrite Hpw, Hsel, Hins, Henc, Hssn.
  rewrite He in Hfree, Hvem |- *.
  cbn [column truthy negb orb textOf tooShort hashPassword textParam] in *.
  apply Nat.ltb_ge in Hlen. rewrite Hlen.
  match goal with
  | |- context [match ?f with [] => _ | _ :: _ => _ end] =>
      replace f with (@nil taxpayer) by (symmetry; exact Hfree)
  end.
  cbv beta iota zeta. rewrite Hid, Hvfn, Hvln, Hvem.
  cbn [taxpayer_id tp_first_name tp_last_name tp_email tp_created_at].
  match goal with
  | |- context [generateToken ?p] => destruct (generateToken p)
  end; reflexivity.
Qed.

Lemma registers_free (b : register_body) (d : db) (row user : taxpayer) :
  registers w b d row -> user ∈ taxpayers d ->
  tp_email user <> rb_email b.
Proof.
  intros (_ & _ & _ & _ & _ & _ & Hfree & _) Hin He.
  assert (Hu : user ∈ filter (fun r => tp_email r = rb_email b) (taxpayers d))
    by (apply list_elem_of_filter; split; assumption).
  rewrite Hfree in Hu. apply elem_of_nil in Hu. exact Hu.
Qed.

(** The address a registration stores: the one it was sent when that
    has at most 255 characters, another one when it has more. *)
Lemma registers_email (b : register_body) (d : db) (row : taxpayer) :
  registers w b d row ->
  exists sent kept,
    rb_email b = Some sent /\ tp_email row = Some kept
    /\ varchar 255 sent = Some kept
    /\ ((length (codePoints sent) <= 255)%nat -> kept = sent)
    /\ ((255 < length (codePoints sent))%nat -> kept <> sent).
Proof.
  intros ([c [e He]] & _ & _ & _ & _ & _ & _ & _ & _
          & (envelope & first_name & last_name & stored & phone & _
             & _ & _ & Hvem & _ & ->)).
  rewrite He in Hvem |- *. unfold varcharNull in Hvem.
  destruct (varchar 255 (c :: e)) as [kept|] eqn:Hv; [|discriminate].
  injection Hvem as <-.
  exists (c :: e), kept. split; [reflexivity|]. split; [reflexivity|].
  split; [exact Hv|]. split.
  - intros Hfit. rewrite varchar_fits in Hv by exact Hfit. congruence.
  - intros Hlong. eapply varchar_cuts; eassumption.
Qed.
(** X7.  [register] keeps nothing of the password: [hashPassword] is
    called and its digest dropped, so two requests that differ only in
    their passwords (strings of at least 8 code units) have the same
    effect on the tables and get the same answer. *)
Theorem register_ignores_password {M : AuthMiddleware} (b : register_body)
    (d : db) (p1 p2 : jsstring) :
  (8 <= length p1)%nat -> (8 <= length p2)%nat ->
  register w (withPassword (JStr p1) b) d
  = register w (withPassword (JStr p2) b) d.
Proof.
  intros H1 H2.
  destruct p1 as [|u1 p1]; [cbn in H1; lia|].
  destruct p2 as [|u2 p2]; [cbn in H2; lia|].
  apply Nat.ltb_ge in H1, H2.
  unfold register, withPassword.
  cbn [rb_email rb_password rb_firstName rb_lastName rb_ssn rb_dob rb_phone
       tooShort hashPassword truthy].
  rewrite H1, H2. reflexivity.
Qed.

(** X8.  An address some row already carries is never registered
    again: the tables stay as they are and the answer is 400 (a
    required field missing or the password too short), 409, or 500
    when the SELECT was refused. *)
Theorem register_refuses_known_email {M : AuthMiddleware}
    (b : register_body) (d : db) (user : taxpayer) :
  user ∈ taxpayers d -> tp_email user = rb_email b ->
  snd (register w b d) = d
  /\ (statusOf (register w b d) = Some 400%nat
      \/ statusOf (register w b d) = Some 409%nat
      \/ (statusOf (register w b d) = Some 500%nat
          /\ fault w SelectTaxpayer <> None)).
Proof.
  intros Hin He.
  unfold register, statusOf, tryCatch, bind, selectByEmail, query, ret.
  destruct (rb_email b) as [[|c email]|] eqn:Hemail;
    cbn [column truthy negb orb textOf]; [cbn; tauto | | cbn; tauto].
  match goal with
  | |- context [if ?c then _ else _] => destruct c; [cbn; tauto|]
  end.
  destruct (tooShort w (rb_password b)); [cbn; tauto|].
  destruct (fault w SelectTaxpayer) eqn:Hf.
  { cbn. split; [reflexivity|]. right. right.
    split; [reflexivity | discriminate]. }
  match goal with
  | |- context [match ?f with [] => _ | _ :: _ => _ end] =>
      destruct f as [|first rest] eqn:Hfl; [|cbn; tauto]
  end.
  assert (Hu : user ∈ filter (fun r => tp_email r = Some (c :: email))
                        (taxpayers d))
    by (apply list_elem_of_filter; split; assumption).
  change (filter (fun r => tp_email r = Some (c :: email)) (taxpayers d) = [])
    in Hfl.
  rewrite Hfl in Hu. apply elem_of_nil in Hu. contradiction.
Qed.

(** X9.  [register] keeps the addresses of [taxpayers] distinct as long
    as the address it is sent has at most 255 characters, the width of
    the [email] column.  The schema has no UNIQUE constraint on that
    column and the SELECT before the INSERT is all there is: it looks
    for the address as sent, while the column keeps a longer address cut
    to 255 characters when what is cut is spaces, so that beyond that
    width the same stored address can be entered twice
    ([padded_address_registers_twice]). *)
Theorem register_keeps_emails_unique {M : AuthMiddleware}
    (b : register_body) (d : db) :
  uniqueEmails d ->
  (length (codePoints (textOf (rb_email b))) <= 255)%nat ->
  uniqueEmails (snd (register w b d)).
Proof.
  intros Hu Hfit.
  destruct (register_inv b d) as [[-> _] | [row Hr]]; [exact Hu|].
  rewrite (register_run b d row Hr). cbn [snd].
  destruct (registers_email b d row Hr)
    as (sent & kept & Hsent & Hkept & _ & Hsame & _).
  rewrite Hsent in Hfit. cbn [textOf] in Hfit.
  rewrite (Hsame Hfit) in Hkept. clear Hsame.
  unfold uniqueEmails in *. cbn [set_taxpayers taxpayers].
  assert (Hone : omap tp_email [row] = [sent])
    by (cbn; rewrite Hkept; reflexivity).
  rewrite omap_app, Hone.
  apply NoDup_app. split; [exact Hu|]. split.
  - intros email Hin Hnew.
    apply list_elem_of_omap in Hin as (user & Huser & Hemail).
    apply (registers_free b d row user Hr Huser).
    apply list_elem_of_singleton in Hnew. congruence.
  - apply NoDup_singleton.
Qed.

(** An envelope comes from a string only, under a key of 32 bytes. *)
Lemma encrypt_inv (key : list byte) (rng : nat -> byte) (text : jsval)
    (envelope : jsstring) :
  encrypt key rng text = Ok (JStr envelope) ->
  length key = 32%nat
  /\ exists s,
       text = JStr s
       /\ envelope
          = hexEncode (randomBytes IV_LENGTH rng) ++ COLON ::
            hexEncode (cipherRun key (randomBytes IV_LENGTH rng)
                         (utf8Encode s)).
Proof.
  unfold encrypt, checkCipherArgs.
  destruct (truthy text); cbn [negb]; [|discriminate].
  rewrite randomBytes_length. cbn [Nat.eqb IV_LENGTH negb].
  destruct (Nat.eqb_spec (length key) KEY_LENGTH) as [Hk|Hk];
    cbn [negb bind_result]; [|discriminate].
  destruct text; try discriminate.
  intros [= <-]. split; [exact Hk|]. eauto.
Qed.

(** X10.  A registration answered with 201 appended one row, and the
    SSN of the request can be read back from it: the [ssn] was a
    string, and decrypting the row's [ssn_encrypted] returns it when
    it has no unpaired surrogate. *)
Theorem register_ssn_reads_back {M : AuthMiddleware} (b : register_body)
    (d : db) :
  cipherLaw C ->
  statusOf (register w b d) = Some 201%nat ->
  exists ssn row,
    rb_ssn b = JStr ssn
    /\ taxpayers (snd (register w b d)) = taxpayers d ++ [row]
    /\ (wellFormed ssn = true ->
        decrypt (ENCRYPTION_KEY (process_env_ENCRYPTION_KEY w))
          (JStr (tp_ssn_encrypted row)) = Ok (JStr ssn)).
Proof.
  intros Hlaw H201.
  destruct (register_inv b d) as [[_ Hno] | [row Hr]]; [contradiction|].
  rewrite (register_run b d row Hr). cbn [snd set_taxpayers taxpayers].
  pose proof Hr as (_ & _ & _ & _ & _ & _ & _ & _ & _
                    & (envelope & first_name & last_name & stored & phone
                       & Henc & _ & _ & _ & _ & ->)).
  apply encrypt_inv in Henc as (Hk & ssn & Hssn & ->).
  exists ssn. eexists. split; [exact Hssn|]. split; [reflexivity|].
  intros Hwf. cbn [tp_ssn_encrypted].
  rewrite decrypt_envelope by auto using randomBytes_length.
  rewrite utf8_roundtrip by exact Hwf. reflexivity.
Qed.

(** A request repeated after its own registration finds the row when
    the address was stored as sent, and is answered with 409. *)
Lemma register_again {M : AuthMiddleware} (b : register_body) (d : db)
    (row : taxpayer) :
  registers w b d row ->
  (length (codePoints (textOf (rb_email b))) <= 255)%nat ->
  register w b (set_taxpayers (fun l => l ++ [row]) d)
  = (Ok (errorResponse 409 "Email already registered"),
     set_taxpayers (fun l => l ++ [row]) d).
Proof.
  intros Hr Hfit.
  destruct (registers_email b d row Hr)
    as (sent & kept & Hsent & Hkept & _ & Hsame & _).
  rewrite Hsent in Hfit. cbn [textOf] in Hfit.
  rewrite (Hsame Hfit) in Hkept. clear Hsame.
  destruct Hr as ([c [e He]] & [s [Hpw Hlen]] & [c1 [fn Hfn]]
                  & [c2 [ln Hln]] & [c3 [dob Hdob]] & Hsel & Hfree & _
                  & _ & (envelope & _ & _ & _ & _ & Henc & _)).
  destruct s as [|p0 s]; [cbn in Hlen; lia|].
  assert (Hssn : truthy (rb_ssn b) = true).
  { unfold encrypt in Henc. destruct (truthy (rb_ssn b)); [reflexivity|].
    discriminate Henc. }
  unfold register, tryCatch, bind, selectByEmail, query, ret.
  rewrite Hpw, Hfn, Hln, Hdob, Hsel, Hssn.
  rewrite He in Hfree, Hsent |- *. injection Hsent as <-.
  cbn [column truthy negb orb textOf tooShort].
  apply Nat.ltb_ge in Hlen. rewrite Hlen.
  cbn [set_taxpayers taxpayers]. rewrite filter_app.
  match goal with
  | |- context [filter ?P (taxpayers d)] =>
      replace (filter P (taxpayers d)) with (@nil taxpayer)
        by (symmetry; exact Hfree)
  end.
  cbn [app]. rewrite filter_cons_True by exact Hkept.
  reflexivity.
Qed.

(** X12.  The token is signed after the INSERT: when signing throws,
    a registration that would have been answered with 201 is answered
    with 500, yet it leaves the same tables behind, the new row
    included; and repeating the request then gets 409 when its address
    has at most 255 characters, the width of the [email] column (a
    longer one is not stored as it was sent, and the SELECT of the
    second request does not find it). *)
Theorem register_keeps_row_when_signing_fails (M1 M2 : AuthMiddleware)
    (b : register_body) (d : db) :
  statusOf (register (M := M1) w b d) = Some 201%nat ->
  (forall payload, exists msg,
      generateToken (AuthMiddleware := M2) payload = Throw msg) ->
  statusOf (register (M := M2) w b d) = Some 500%nat
  /\ snd (register (M := M2) w b d) = snd (register (M := M1) w b d)
  /\ snd (register (M := M2) w b d) <> d
  /\ ((length (codePoints (textOf (rb_email b))) <= 255)%nat ->
      register (M := M1) w b (snd (register (M := M2) w b d))
      = (Ok (errorResponse 409 "Email already registered"),
         snd (register (M := M2) w b d))).
Proof.
  intros H201 Hsign.
  destruct (register_inv (M := M1) b d) as [[_ Hno] | [row Hr]];
    [contradiction|].
  rewrite (register_run (M := M1) b d row Hr).
  rewrite (register_run (M := M2) b d row Hr).
  cbn [snd]. unfold statusOf at 1. cbn [fst]. unfold registered at 1.
  match goal with
  | |- context [generateToken ?p] => destruct (Hsign p) as [msg ->]
  end.
  split; [reflexivity|]. split; [reflexivity|]. split.
  - intros Heq. apply (f_equal (fun x => length (taxpayers x))) in Heq.
    cbn [set_taxpayers taxpayers] in Heq. rewrite length_app in Heq.
    cbn [length] in Heq. lia.
  - intros Hfit. apply (register_again (M := M1) b d row Hr Hfit).
Qed.

(** X11.  Registration and login compose up to the width of the
    [email] column.  After a registration answered with 201, a login
    with the same address and any truthy password at all (the address
    being neither a demo address nor a name of [Object.prototype], the
    SELECT going through and the token being signed) is answered with
    200 for the user just created when the address has at most 255
    characters; when it has more, the row holds the address cut to 255
    characters, the SELECT of the login looks for it as sent, and the
    answer is 401. *)
Theorem register_then_login {M : AuthMiddleware} (w' : world)
    (b : register_body) (d : db) (password : jsval) :
  statusOf (register w b d) = Some 201%nat ->
  isDemoEmail (textOf (rb_email b)) = false ->
  isPrototypeName (textOf (rb_email b)) = false ->
  truthy password = true ->
  fault w' SelectTaxpayer = None ->
  (forall payload, exists token, generateToken payload = Ok token) ->
  ((length (codePoints (textOf (rb_email b))) <= 255)%nat ->
   exists resp userId,
     login w' (mkLoginBody (rb_email b) password) (snd (register w b d))
     = (Ok resp, snd (register w b d))
     /\ status resp = 200%nat
     /\ In ("user.userId"%string, JsonText userId) (payload resp)
     /\ In ("user.userId"%string, JsonText userId)
          (payloadOf (register w b d))
     /\ In ("user.role"%string, JsonText "taxpayer") (payload resp))
  /\ ((255 < length (codePoints (textOf (rb_email b))))%nat ->
      login w' (mkLoginBody (rb_email b) password) (snd (register w b d))
      = (Ok (errorResponse 401 "Invalid email or password"),
         snd (register w b d))).
Proof.
  intros H201 Hdemo Hproto Htruthy Hsel' Hsign.
  destruct (register_inv b d) as [[_ Hno] | [row Hr]]; [contradiction|].
  rewrite (register_run b d row Hr) in H201 |- *.
  unfold statusOf, payloadOf in *. cbn [fst snd] in *.
  destruct (registers_email b d row Hr)
    as (sent & kept & Hsent & Hkept & _ & Hsame & Hcut).
  assert (Hrow : taxpayer_id row = gen_random_uuid w InsertTaxpayer
                 /\ tp_role row = Some "taxpayer"%string).
  { destruct Hr as (_ & _ & _ & _ & _ & _ & _ & _ & _
                    & (? & ? & ? & ? & ? & _ & _ & _ & _ & _ & ->)).
    split; reflexivity. }
  destruct Hrow as [Hid Hrole].
  destruct Hr as ([c [e He]] & _ & _ & _ & _ & _ & Hfree & _).
  rewrite He in Hfree, Hdemo, Hproto, Hsent |- *. injection Hsent as <-.
  cbn [textOf] in *.
  unfold login, tryCatch, bind, selectByEmail, query, ret, lift.
  cbn [lb_email lb_password column truthy negb orb textOf].
  rewrite Htruthy, Hsel'. cbn [negb].
  cbn [set_taxpayers taxpayers]. rewrite filter_app.
  match goal with
  | |- context [filter ?P (taxpayers d)] =>
      replace (filter P (taxpayers d)) with (@nil taxpayer)
        by (symmetry; exact Hfree)
  end.
  cbn [app]. split.
  - intros Hfit. rewrite (Hsame Hfit) in Hkept.
    rewrite filter_cons_True by exact Hkept.
    rewrite (getProperty_absent _ Hdemo Hproto). cbn [truthy andb].
    match goal with
    | |- context [generateToken ?p] => destruct (Hsign p) as [token ->]
    end.
    eexists. exists (gen_random_uuid w InsertTaxpayer).
    split; [reflexivity|]. split; [reflexivity|].
    split; [cbn; rewrite Hid; tauto|]. split.
    + unfold registered in *.
      match goal with
      | |- context [generateToken ?p] => destruct (generateToken p)
      end; [cbn; rewrite Hid; tauto | discriminate H201].
    + unfold roleOf. rewrite Hrole. cbn. tauto.
  - intros Hlong. specialize (Hcut Hlong).
    rewrite filter_cons_False by (rewrite Hkept; congruence).
    reflexivity.
Qed.
End RegisterFacts.

Lemma strict_eq_string (s : jsstring) (v : jsval) :
  strict_eq (JStr s) v = true -> v = JStr s.
Proof.
  destruct v; cbn; try discriminate.
  unfold jsstring_eqb. intros H. apply bool_decide_eq_true in H.
  congruence.
Qed.

(** X13.  A demo account is entered only with the password the code
    holds for it: whatever the tables and the world, a login under one
    of the three demo addresses that is answered with 200 carried
    exactly that password. *)
Theorem demo_login_needs_its_password {M : AuthMiddleware} (w : world)
    (email : string) (stored password : jsval) (d : db) :
  In (email, stored) validPasswords ->
  statusOf (login w (mkLoginBody (Some (str email)) password) d)
  = Some 200%nat ->
  password = stored.
Proof.
  intros Hin.
  assert (Hget : getProperty validPasswords (str email) = stored
                 /\ (exists s, stored = JStr s /\ s <> [])
                 /\ str email <> []).
  { cbn in Hin.
    destruct Hin as [[= <- <-] | [[= <- <-] | [[= <- <-] | []]]];
      (split; [vm_compute; reflexivity|]);
      (split; [eexists; split; [reflexivity | discriminate] | discriminate]). }
  destruct Hget as (Hget & (s & -> & Hs) & Hne).
  unfold login, statusOf, tryCatch, bind, selectByEmail, query, ret, lift.
  cbn [lb_email lb_password column textOf].
  destruct (str email) as [|c e] eqn:Hstr; [contradiction|].
  cbn [truthy negb orb].
  destruct (truthy password); cbn [negb]; [|discriminate].
  destruct (fault w SelectTaxpayer); [discriminate|].
  match goal with
  | |- context [match ?f with [] => _ | _ :: _ => _ end] =>
      destruct f as [|user rest]; [discriminate|]
  end.
  rewrite Hget. destruct s as [|s0 s]; [contradiction|]. cbn [truthy andb].
  destruct (strict_eq (JStr (s0 :: s)) password) eqn:Heq;
    cbn [negb]; [|discriminate].
  intros _. apply strict_eq_string. exact Heq.
Qed.

(** Beyond the width of the column: an address of 256 characters that
    ends in a space is registered, cannot log in as it was sent, and is
    registered a second time, two rows then holding the same stored
    address. *)
Example padded_address_registers_twice :
  let first :=
    register (C := tagCipher) (M := stubMiddleware) worldOffline paddedBody
      dbSeeded in
  let second :=
    register (C := tagCipher) (M := stubMiddleware) worldOfflineLater
      paddedBody (snd first) in
  statusOf first = Some 201%nat
  /\ statusOf (login (M := stubMiddleware) worldOffline
                 (mkLoginBody (Some paddedEmail) (JStr (str "correct horse")))
                 (snd first))
     = Some 401%nat
  /\ statusOf second = Some 201%nat
  /\ omap tp_email (taxpayers (snd second))
     = [str "taxpayer@tax.com"; repeat 97 243 ++ str "@example.com";
        repeat 97 243 ++ str "@example.com"].
Proof. vm_compute. repeat split; reflexivity. Qed.

Lemma register_ignores_password_witness :
  register (C := tagCipher) (M := stubMiddleware) worldOffline
    (withPassword (JStr (str "correct horse")) maryBody) emptyDb
  = register (C := tagCipher) (M := stubMiddleware) worldOffline
      (withPassword (JStr (str "battery staple")) maryBody) emptyDb.
Proof.
  apply (@register_ignores_password tagCipher worldOffline stubMiddleware);
    cbn; lia.
Defined.

Lemma register_refuses_known_email_witness :
  let again :=
    register (C := tagCipher) (M := stubMiddleware) worldOffline johnAgain
      dbSeeded in
  snd again = dbSeeded
  /\ (statusOf again = Some 400%nat
      \/ statusOf again = Some 409%nat
      \/ (statusOf again = Some 500%nat
          /\ fault worldOffline SelectTaxpayer <> None)).
Proof.
  apply (@register_refuses_known_email tagCipher worldOffline stubMiddleware
           johnAgain dbSeeded john).
  - apply list_elem_of_here.
  - reflexivity.
Defined.

Lemma register_keeps_emails_unique_witness :
  uniqueEmails
    (snd (register (C := tagCipher) (M := stubMiddleware) worldOffline
            maryBody dbSeeded)).
Proof.
  apply (@register_keeps_emails_unique tagCipher worldOffline stubMiddleware).
  - apply NoDup_singleton.
  - apply Nat.leb_le. vm_compute. reflexivity.
Defined.

Lemma register_ssn_reads_back_witness :
  exists ssn row,
    rb_ssn maryBody = JStr ssn
    /\ taxpayers
         (snd (register (C := tagCipher) (M := stubMiddleware) worldOffline
                 maryBody dbSeeded))
       = taxpayers dbSeeded ++ [row]
    /\ (wellFormed ssn = true ->
        decrypt (C := tagCipher)
          (ENCRYPTION_KEY (process_env_ENCRYPTION_KEY worldOffline))
          (JStr (tp_ssn_encrypted row)) = Ok (JStr ssn)).
Proof.
  apply (@register_ssn_reads_back tagCipher worldOffline stubMiddleware).
  - exact tagCipher_law.
  - vm_compute. reflexivity.
Defined.

Lemma register_then_login_witness :
  (exists resp userId,
     login (M := stubMiddleware) worldOffline
       (mkLoginBody (rb_email maryBody) (JStr (str "not her password")))
       (snd (register (C := tagCipher) (M := stubMiddleware) worldOffline
               maryBody dbSeeded))
     = (Ok resp,
        snd (register (C := tagCipher) (M := stubMiddleware) worldOffline
               maryBody dbSeeded))
     /\ status resp = 200%nat
     /\ In ("user.userId"%string, JsonText userId) (payload resp)
     /\ In ("user.userId"%string, JsonText userId)
          (payloadOf (register (C := tagCipher) (M := stubMiddleware)
                        worldOffline maryBody dbSeeded))
     /\ In ("user.role"%string, JsonText "taxpayer") (payload resp))
  /\ login (M := stubMiddleware) worldOffline
       (mkLoginBody (rb_email paddedBody) (JStr (str "correct horse")))
       (snd (register (C := tagCipher) (M := stubMiddleware) worldOffline
               paddedBody dbSeeded))
     = (Ok (errorResponse 401 "Invalid email or password"),
        snd (register (C := tagCipher) (M := stubMiddleware) worldOffline
               paddedBody dbSeeded)).
Proof.
  assert (Hsign : forall payload, exists token,
             generateToken (AuthMiddleware := stubMiddleware) payload
             = Ok token)
    by (intros payload; exists "signed-token"%string; reflexivity).
  split.
  - destruct (@register_then_login tagCipher worldOffline stubMiddleware
                worldOffline maryBody dbSeeded
                (JStr (str "not her password")))
      as [Hshort _]; [vm_compute; reflexivity .. | exact Hsign |].
    apply Hshort. apply Nat.leb_le. vm_compute. reflexivity.
  - destruct (@register_then_login tagCipher worldOffline stubMiddleware
                worldOffline paddedBody dbSeeded
                (JStr (str "correct horse")))
      as [_ Hlong]; [vm_compute; reflexivity .. | exact Hsign |].
    apply Hlong. apply Nat.ltb_lt. vm_compute. reflexivity.
Defined.

Lemma register_keeps_row_when_signing_fails_witness :
  let failed :=
    register (C := tagCipher) (M := refusingMiddleware) worldOffline maryBody
      dbSeeded in
  statusOf failed = Some 500%nat
  /\ snd failed
     = snd (register (C := tagCipher) (M := stubMiddleware) worldOffline
              maryBody dbSeeded)
  /\ snd failed <> dbSeeded
  /\ register (C := tagCipher) (M := stubMiddleware) worldOffline maryBody
       (snd failed)
     = (Ok (errorResponse 409 "Email already registered"), snd failed).
Proof.
  destruct (@register_keeps_row_when_signing_fails tagCipher worldOffline
              stubMiddleware refusingMiddleware maryBody dbSeeded)
    as (H500 & Hsame & Hnew & Hagain).
  - vm_compute. reflexivity.
  - intros payload. eexists. reflexivity.
  - split; [exact H500|]. split; [exact Hsame|]. split; [exact Hnew|].
    apply Hagain. apply Nat.leb_le. vm_compute. reflexivity.
Defined.

Lemma demo_login_needs_its_password_witness :
  In ("taxpayer@tax.com"%string, JStr (str "taxpayer123")) validPasswords
  /\ statusOf (login (M := stubMiddleware) worldOffline
                 (mkLoginBody (Some (str "taxpayer@tax.com"))
                    (JStr (str "taxpayer123"))) dbSeeded)
     = Some 200%nat
  /\ JStr (str "taxpayer123") = JStr (str "taxpayer123").
Proof.
  assert (Hin : In ("taxpayer@tax.com"%string, JStr (str "taxpayer123"))
                  validPasswords) by (cbn; tauto).
  assert (H200 : statusOf (login (M := stubMiddleware) worldOffline
                   (mkLoginBody (Some (str "taxpayer@tax.com"))
                      (JStr (str "taxpayer123"))) dbSeeded)
                 = Some 200%nat) by (vm_compute; reflexivity).
  split; [exact Hin|]. split; [exact H200|].
  exact (@demo_login_needs_its_password stubMiddleware worldOffline _ _ _
           dbSeeded Hin H200).
Defined.

(* ===================================================================== *)
(** * Proofs: the OAuth callback                                          *)
(* ===================================================================== *)

Section CallbackFacts.
Context {C : NodeCrypto}.
Variable w : world.

Lemma encrypt_inv_string (key : list byte) (rng : nat -> byte)
    (s envelope : jsstring) :
  encrypt key rng (JStr s) = Ok (JStr envelope) ->
  length key = 32%nat
  /\ envelope
     = hexEncode (randomBytes IV_LENGTH rng) ++ COLON ::
       hexEncode (cipherRun key (randomBytes IV_LENGTH rng) (utf8Encode s)).
Proof.
  unfold encrypt, checkCipherArgs.
  destruct (truthy (JStr s)); cbn [negb]; [|discriminate].
  rewrite randomBytes_length. cbn [Nat.eqb IV_LENGTH negb].
  destruct (Nat.eqb_spec (length key) KEY_LENGTH) as [Hk|Hk];
    cbn [negb bind_result]; [|discriminate].
  intros [= <-]. split; [exact Hk | reflexivity].
Qed.

(** A callback either leaves the tables alone and does not answer 200,
    or it stored the connection and its audit event and answered 200. *)
Lemma callback_inv (code state : jsval) (d : db) :
  (snd (handleFinchCallback w code state d) = d
   /\ statusOf (handleFinchCallback w code state d) <> Some 200%nat)
  \/ exists s sd tok co enc,
       state = JStr s
       /\ parseState w s = Ok (Some sd)
       /\ tokenExchange w code = Ok (Some tok)
       /\ companyInfo w (access_token tok) = Ok (Some co)
       /\ encrypt (vaultKey w) (entropy w) (access_token tok) = Ok enc
       /\ connections d !! gen_random_uuid w InsertConnection = None
       /\ statusOf (handleFinchCallback w code state d) = Some 200%nat
       /\ snd (handleFinchCallback w code state d)
          = set_audit_logs
              (fun l =>
                 l ++ [mkAuditLog "integration.connected" (sd_taxpayerId sd)
                         "connection" (gen_random_uuid w InsertConnection)
                         "create"
                         [("provider", JsonText "finch");
                          ("companyId", jsonOpt (company_id tok));
                          ("correlationId", jsonOpt (sd_correlationId sd))]
                         (now w InsertAuditLog)])
              (set_connections
                 (insert (gen_random_uuid w InsertConnection)
                    (mkConnection (sd_taxpayerId sd) (sd_businessId sd)
                       "finch" (company_id tok) (textParam enc) "active" None
                       [("company_name", jsonOpt (legal_name co));
                        ("ein", jsonOpt (ein co));
                        ("correlationId", jsonOpt (sd_correlationId sd))]
                       (now w InsertConnection))) d).
Proof.
  unfold handleFinchCallback, statusOf, tryCatch, bind, transaction,
    insertConnection, insertConnectedEvent, query, lift, ret.
  destruct (truthy code); cbn [negb orb];
    [|left; split; [reflexivity | discriminate]].
  destruct (truthy state); cbn [negb orb];
    [|left; split; [reflexivity | discriminate]].
  destruct state as [| | | |s| |];
    try (left; split; [reflexivity | discriminate]).
  destruct (parseState w s) as [[sd|]|] eqn:Hparse; cbn [bind_result prop];
    try (left; split; [reflexivity | discriminate]).
  destruct (tokenExchange w code) as [[tok|]|] eqn:Htok;
    cbn [bind_result prop];
    try (left; split; [reflexivity | discriminate]).
  destruct (companyInfo w (access_token tok)) as [[co|]|] eqn:Hco;
    try (left; split; [reflexivity | discriminate]).
  - destruct (encrypt (vaultKey w) (entropy w) (access_token tok))
      as [enc|] eqn:Henc; cbn [prop];
      try (left; split; [reflexivity | discriminate]).
    destruct (fault w InsertConnection);
      try (left; split; [reflexivity | discriminate]).
    cbv beta iota zeta.
    destruct (connections d !! gen_random_uuid w InsertConnection) eqn:Hfresh;
      try (left; split; [reflexivity | discriminate]).
    destruct (fault w InsertAuditLog);
      try (left; split; [reflexivity | discriminate]).
    right. exists s, sd, tok, co, enc. cbn. repeat split; auto.
  - destruct (encrypt (vaultKey w) (entropy w) (access_token tok));
      cbn [prop]; left; split; try reflexivity; discriminate.
Qed.

(** X14.  The callback writes all or nothing, [transaction] undoing
    the writes of a callback that throws.  Unless it answers 200 the
    tables are as before; when it answers 200 it has added exactly
    one connection, under an identifier that was free, for the
    provider 'finch' in status 'active', and exactly one audit event
    'integration.connected' that names this connection, and it has
    touched no other table. *)
Theorem callback_all_or_nothing (code state : jsval) (d : db) :
  (statusOf (handleFinchCallback w code state d) <> Some 200%nat
   /\ snd (handleFinchCallback w code state d) = d)
  \/ (statusOf (handleFinchCallback w code state d) = Some 200%nat
      /\ exists cid row event,
           connections d !! cid = None
           /\ connections (snd (handleFinchCallback w code state d))
              = <[cid := row]> (connections d)
           /\ conn_provider row = "finch"%string
           /\ conn_status row = "active"%string
           /\ conn_last_sync_at row = None
           /\ audit_logs (snd (handleFinchCallback w code state d))
              = audit_logs d ++ [event]
           /\ al_event_type event = "integration.connected"%string
           /\ al_entity_id event = cid
           /\ al_actor_id event = conn_taxpayer_id row
           /\ taxpayers (snd (handleFinchCallback w code state d))
              = taxpayers d
           /\ employees (snd (handleFinchCallback w code state d))
              = employees d
           /\ sync_jobs (snd (handleFinchCallback w code state d))
              = sync_jobs d).
Proof.
  destruct (callback_inv code state d)
    as [[Hd Hs] | (s & sd & tok & co & enc & _ & _ & _ & _ & _ & Hfresh
                   & H200 & ->)].
  - left. split; assumption.
  - right. split; [exact H200|].
    eexists _, _, _. split; [exact Hfresh|]. cbn. repeat split.
Qed.

(** X15.  The credential survives the way through the tables: after
    a callback answered with 200 for a provider token that is a
    non-empty string without unpaired surrogate, a sync attempt on the
    new connection (same key setting, its two statements not refused,
    its job identifier free) answers 200 and its background task calls
    the provider with exactly that token. *)
Theorem callback_token_reaches_sync (w' : world) (code state : jsval)
    (d : db) (tok : token_data) (bearer : jsstring) :
  cipherLaw C ->
  statusOf (handleFinchCallback w code state d) = Some 200%nat ->
  tokenExchange w code = Ok (Some tok) ->
  access_token tok = JStr bearer -> bearer <> [] ->
  wellFormed bearer = true ->
  process_env_ENCRYPTION_KEY w' = process_env_ENCRYPTION_KEY w ->
  fault w' SelectConnection = None -> fault w' InsertSyncJob = None ->
  sync_jobs d !! gen_random_uuid w' InsertSyncJob = None ->
  syncFinchData w' (gen_random_uuid w InsertConnection)
    (snd (handleFinchCallback w code state d))
  = (Ok (mkResponse 200
           [("success", JsonText "true");
            ("message", JsonText "Payroll sync started");
            ("jobId", JsonText (gen_random_uuid w' InsertSyncJob))]),
     snd (syncFinchPayrollData w' (gen_random_uuid w InsertConnection)
            (JStr bearer) (gen_random_uuid w' InsertSyncJob)
            (set_sync_jobs
               (insert (gen_random_uuid w' InsertSyncJob)
                  (mkSyncJob (gen_random_uuid w InsertConnection)
                     "finch_payroll_sync" "processing"
                     (Some (now w' InsertSyncJob)) None 0 0 None))
               (snd (handleFinchCallback w code state d))))).
Proof.
  intros Hlaw H200 Htok Hbearer Hne Hwf Hkey Hsel Hins Hjob.
  destruct (callback_inv code state d)
    as [[_ Hs] | (s & sd & tok' & co & enc & _ & _ & Htok' & _ & Henc & Hfresh
                  & _ & Hsnd)]; [contradiction|].
  rewrite Htok in Htok'. injection Htok' as <-.
  rewrite Hbearer in Henc.
  pose proof Henc as Henc'.
  destruct enc as [| | | |envelope| |];
    try (unfold encrypt in Henc'; destruct bearer; [contradiction|];
         cbn [truthy negb] in Henc';
         destruct (checkCipherArgs _ _); discriminate Henc').
  clear Henc'. apply encrypt_inv_string in Henc as (Hk & ->).
  rewrite Hsnd.
  eapply syncFinchData_started.
  - exact Hsel.
  - unfold selected. cbn [connections set_audit_logs set_connections].
    rewrite lookup_insert_eq. reflexivity.
  - cbn [conn_access_token_encrypted textParam column].
    unfold vaultKey in *. rewrite Hkey.
    rewrite decrypt_envelope by auto using randomBytes_length.
    rewrite utf8_roundtrip by exact Hwf. reflexivity.
  - exact Hins.
  - cbn. exact Hjob.
Qed.
End CallbackFacts.

(* ===================================================================== *)
(** * Proofs: reading the connections                                     *)
(* ===================================================================== *)

Lemma accessRows_spec (user : option string) (businessId : string) (d : db)
    (row : string * connection) :
  row ∈ accessRows user businessId d
  <-> connections d !! fst row = Some (snd row)
      /\ (exists u, user = Some u /\ conn_taxpayer_id (snd row) = Some u)
      /\ conn_business_id (snd row) = Some businessId
      /\ conn_status (snd row) = "active"%string.
Proof.
  unfold accessRows. rewrite list_elem_of_filter, elem_of_map_to_list'.
  unfold sqlEq. destruct user as [u|].
  - split.
    + intros ((Hu & Hb & Hs) & Hrow). eauto 10.
    + intros (Hrow & (u' & [= <-] & Hu) & Hb & Hs). auto.
  - split; [tauto|]. intros (_ & (u' & [=] & _) & _).
Qed.

Lemma verifyBusinessAccess_spec (refused : option string)
    (user : option string) (businessId : string) (d : db) :
  exists granted,
    verifyBusinessAccess refused user businessId d = (Ok granted, d)
    /\ (granted = true
        <-> refused = None
            /\ exists cid c u,
                 connections d !! cid = Some c
                 /\ user = Some u /\ conn_taxpayer_id c = Some u
                 /\ conn_business_id c = Some businessId
                 /\ conn_status c = "active"%string).
Proof.
  unfold verifyBusinessAccess, tryCatch, bind, select, ret.
  destruct refused as [e|].
  - exists false. split; [reflexivity|].
    split; [discriminate | intros [[=] _]].
  - eexists. split; [reflexivity|].
    destruct (accessRows user businessId d) as [|row rows] eqn:Hrows;
      cbn [length Nat.ltb Nat.leb].
    + split; [discriminate|]. intros (_ & cid & c & u & Hc & Hu & Ht & Hb & Hs).
      assert (Hin : (cid, c) ∈ accessRows user businessId d)
        by (apply accessRows_spec; cbn; eauto 10).
      rewrite Hrows in Hin. apply elem_of_nil in Hin. contradiction.
    + split; [|reflexivity]. intros _. split; [reflexivity|].
      assert (Hin : row ∈ accessRows user businessId d)
        by (rewrite Hrows; apply list_elem_of_here).
      apply accessRows_spec in Hin as (Hc & (u & Hu & Ht) & Hb & Hs).
      exists (fst row), (snd row), u. auto.
Qed.

(** X16.  Access to the business dashboard.  The handler only
    reads, and answers 200 or 403, never 500.  It answers 200 exactly
    when the caller's role is 'admin', or the check query goes through
    and some connection in status 'active' joins the caller's [userId]
    to the business; a refused query counts as no access, and so does
    a caller without [userId]. *)
Theorem business_dashboard_access {S : DashboardService}
    (refused : option string) (thisYear : Z) (user : req_user)
    (businessId : string) (tax_year : jsval) (d : db) :
  snd (getBusinessDashboard refused thisYear user businessId tax_year d) = d
  /\ (statusOf (getBusinessDashboard refused thisYear user businessId
                  tax_year d) = Some 200%nat
      \/ statusOf (getBusinessDashboard refused thisYear user businessId
                     tax_year d) = Some 403%nat)
  /\ (statusOf (getBusinessDashboard refused thisYear user businessId
                  tax_year d) = Some 200%nat
      <-> role user = Some "admin"%string
          \/ (refused = None
              /\ exists cid c u,
                   connections d !! cid = Some c
                   /\ userId user = Some u /\ conn_taxpayer_id c = Some u
                   /\ conn_business_id c = Some businessId
                   /\ conn_status c = "active"%string)).
Proof.
  unfold getBusinessDashboard, statusOf, tryCatch, bind.
  destruct (bool_decide_reflect (role user = Some "admin"%string))
    as [Hadmin|Hadmin].
  - cbn. split; [reflexivity|]. split; [left; reflexivity|]. tauto.
  - destruct (verifyBusinessAccess_spec refused (userId user) businessId d)
      as (granted & -> & Hgranted).
    destruct granted; cbn.
    + split; [reflexivity|]. split; [left; reflexivity|].
      split; [|reflexivity]. intros _. right. apply Hgranted. reflexivity.
    + split; [reflexivity|]. split; [right; reflexivity|].
      split; [discriminate|]. intros [Ha | Hc]; [contradiction|].
      apply Hgranted in Hc. discriminate.
Qed.



(** X18.  Connecting opens the business dashboard, as far as the
    handler is concerned.  Once a callback has been answered with 200,
    the taxpayer its [state] parameter names passes the handler's own
    access check for the business that parameter names: on the route,
    where [authorizeRole('business_owner', 'admin')] comes first, the
    answer is 200 when that guard lets the caller through, and the
    guard's own answer when it does not. *)
Theorem connect_grants_business_access {C : NodeCrypto}
    {R : RoleMiddleware} {S : DashboardService} (w : world) (code : jsval)
    (state : jsstring) (sd : state_data) (u businessId : string) (d : db)
    (user : req_user) (thisYear : Z) (tax_year : jsval) :
  statusOf (handleFinchCallback w code (JStr state) d) = Some 200%nat ->
  parseState w state = Ok (Some sd) ->
  sd_taxpayerId sd = Some u -> sd_businessId sd = Some businessId ->
  userId user = Some u ->
  (authorizeRole ["business_owner"; "admin"]%string user = None ->
   statusOf (businessDashboardRoute None thisYear user businessId tax_year
               (snd (handleFinchCallback w code (JStr state) d)))
   = Some 200%nat)
  /\ (forall refusal,
        authorizeRole ["business_owner"; "admin"]%string user = Some refusal ->
        businessDashboardRoute None thisYear user businessId tax_year
          (snd (handleFinchCallback w code (JStr state) d))
        = (Ok refusal, snd (handleFinchCallback w code (JStr state) d))).
Proof.
  intros H200 Hparse Hu Hb Huser.
  unfold businessDashboardRoute. split.
  - intros ->.
    destruct (callback_inv w code (JStr state) d)
      as [[_ Hs] | (s & sd' & tok & co & enc & [= <-] & Hparse' & _ & _ & _
                    & _ & _ & Hsnd)]; [contradiction|].
    rewrite Hparse in Hparse'. injection Hparse' as <-.
    rewrite Hsnd. clear Hsnd H200.
    unfold getBusinessDashboard, statusOf, tryCatch, bind.
    destruct (bool_decide (role user = Some "admin"%string)); [reflexivity|].
    match goal with
    | |- context [verifyBusinessAccess None ?a ?b ?db] =>
        destruct (verifyBusinessAccess_spec None a b db)
          as (granted & -> & Hgranted)
    end.
    assert (Hg : granted = true).
    { apply Hgranted. split; [reflexivity|].
      exists (gen_random_uuid w InsertConnection). eexists. exists u.
      split.
      - cbn [connections set_audit_logs set_connections].
        apply lookup_insert_eq.
      - cbn. auto. }
    rewrite Hg. reflexivity.
  - intros refusal ->. reflexivity.
Qed.

Lemma callback_token_reaches_sync_witness :
  syncFinchData (C := tagCipher) worldSecondMissing
    (gen_random_uuid worldConnect InsertConnection)
    (snd (handleFinchCallback (C := tagCipher) worldConnect
            (JStr (str "auth-code")) (JStr ownerState) dbOwner))
  = (Ok (mkResponse 200
           [("success", JsonText "true");
            ("message", JsonText "Payroll sync started");
            ("jobId", JsonText (gen_random_uuid worldSecondMissing
                                  InsertSyncJob))]),
     snd (syncFinchPayrollData worldSecondMissing
            (gen_random_uuid worldConnect InsertConnection)
            (JStr (str "finch-access-token"))
            (gen_random_uuid worldSecondMissing InsertSyncJob)
            (set_sync_jobs
               (insert (gen_random_uuid worldSecondMissing InsertSyncJob)
                  (mkSyncJob (gen_random_uuid worldConnect InsertConnection)
                     "finch_payroll_sync" "processing"
                     (Some (now worldSecondMissing InsertSyncJob)) None 0 0
                     None))
               (snd (handleFinchCallback (C := tagCipher) worldConnect
                       (JStr (str "auth-code")) (JStr ownerState)
                       dbOwner))))).
Proof.
  apply (@callback_token_reaches_sync tagCipher worldConnect
           worldSecondMissing (JStr (str "auth-code"))
           (JStr ownerState) dbOwner
           (mkTokenData token1 (Some "acme"%string))
           (str "finch-access-token")).
  - exact tagCipher_law.
  - vm_compute. reflexivity.
  - reflexivity.
  - reflexivity.
  - discriminate.
  - reflexivity.
  - reflexivity.
  - reflexivity.
  - reflexivity.
  - reflexivity.
Defined.

Lemma connect_grants_business_access_witness :
  statusOf (businessDashboardRoute (R := listedRoles) (S := echoDashboard)
              None 2026
              (mkReqUser (Some OWNER_ID) (Some "business_owner"%string))
              ACME_ID JUndefined
              (snd (handleFinchCallback (C := tagCipher) worldConnect
                      (JStr (str "auth-code")) (JStr ownerState) dbOwner)))
  = Some 200%nat.
Proof.
  destruct (@connect_grants_business_access tagCipher listedRoles
              echoDashboard worldConnect (JStr (str "auth-code")) ownerState
              (mkStateData (Some OWNER_ID) (Some ACME_ID)
                 (Some "corr-7"%string))
              OWNER_ID ACME_ID dbOwner
              (mkReqUser (Some OWNER_ID) (Some "business_owner"%string))
              2026 JUndefined)
    as [Hpass _];
    [vm_compute; reflexivity | reflexivity .. |].
  apply Hpass. reflexivity.
Defined.

(* ===================================================================== *)
(** * Proofs: what a sync does to the tables                              *)
(* ===================================================================== *)

Section TableFacts.
Variable w : world.
Variable connectionId : string.
Variable accessToken : jsval.

(** Whatever way the background task ends, [employees] is what the
    loop left. *)
Lemma payroll_employees (jobId : string) (d : db) :
  employees (snd (syncFinchPayrollData w connectionId accessToken jobId d))
  = employees (afterRecords w connectionId accessToken 0
                 (entries w accessToken) d).
Proof.
  unfold syncFinchPayrollData, entries, directoryOf.
  unfold tryCatch, bind at 1, lift at 1.
  destruct (directory w accessToken) as [[data|]|m].
  - unfold bind at 1, lift at 1, prop. unfold bind at 1.
    rewrite syncLoop_entries. unfold bind, query.
    destruct (allObjects _), (fault w CompleteSyncJob),
      (fault w TouchConnection), (fault w FailSyncJob); reflexivity.
  - unfold bind, lift, prop, query.
    destruct (fault w FailSyncJob); reflexivity.
  - unfold query. destruct (fault w FailSyncJob); reflexivity.
Qed.

(** The background task changes no job but its own. *)
Lemma payroll_other_jobs (jobId other : string) (d : db) :
  other <> jobId ->
  sync_jobs (snd (syncFinchPayrollData w connectionId accessToken jobId d))
    !! other
  = sync_jobs d !! other.
Proof.
  intros Hne.
  unfold syncFinchPayrollData.
  unfold tryCatch, bind at 1, lift at 1.
  destruct (directory w accessToken) as [[data|]|m].
  - unfold bind at 1, lift at 1, prop. unfold bind at 1.
    rewrite syncLoop_entries. unfold bind, query.
    match goal with
    | |- context [afterRecords w connectionId accessToken 0 ?l d] =>
        destruct (afterRecords_frame w connectionId accessToken l 0 d)
          as (_ & _ & Hj & _)
    end.
    destruct (allObjects _), (fault w CompleteSyncJob),
      (fault w TouchConnection), (fault w FailSyncJob); cbn;
      rewrite ?lookup_alter_ne by congruence; rewrite Hj; reflexivity.
  - unfold bind, lift, prop, query.
    destruct (fault w FailSyncJob); cbn;
      rewrite ?lookup_alter_ne by congruence; reflexivity.
  - unfold query. destruct (fault w FailSyncJob); cbn;
      rewrite ?lookup_alter_ne by congruence; reflexivity.
Qed.

Lemma payroll_taxpayers (jobId : string) (d : db) :
  taxpayers (snd (syncFinchPayrollData w connectionId accessToken jobId d))
  = taxpayers d.
Proof.
  unfold syncFinchPayrollData.
  unfold tryCatch, bind at 1, lift at 1.
  destruct (directory w accessToken) as [[data|]|m].
  - unfold bind at 1, lift at 1, prop. unfold bind at 1.
    rewrite syncLoop_entries. unfold bind, query.
    match goal with
    | |- context [afterRecords w connectionId accessToken 0 ?l d] =>
        destruct (afterRecords_frame w connectionId accessToken l 0 d)
          as (Ht & _ & _ & _)
    end.
    destruct (allObjects _), (fault w CompleteSyncJob),
      (fault w TouchConnection), (fault w FailSyncJob); cbn; exact Ht.
  - unfold bind, lift, prop, query.
    destruct (fault w FailSyncJob); reflexivity.
  - unfold query. destruct (fault w FailSyncJob); reflexivity.
Qed.

(** *** One record and the row under a key *)

Lemma afterRecord_skips (k : nat) (ind : individual) (d : db) :
  recordOk w accessToken k ind = false ->
  afterRecord w connectionId accessToken k ind d = d.
Proof.
  unfold recordOk, afterRecord.
  destruct (detailOf w accessToken k ind), (fault w (UpsertEmployee k));
    intros; try reflexivity; discriminate.
Qed.

Lemma afterRecord_other (k : nat) (ind : individual) (d : db)
    (key : string * string) :
  key <> (connectionId, id ind) ->
  employees (afterRecord w connectionId accessToken k ind d) !! key
  = employees d !! key.
Proof.
  intros Hne. unfold afterRecord.
  destruct (detailOf w accessToken k ind), (fault w (UpsertEmployee k));
    try reflexivity.
  cbn. apply upsertEmployee_other. exact Hne.
Qed.

Lemma afterRecord_writes (k : nat) (ind : individual) (d : db) :
  recordOk w accessToken k ind = true ->
  exists e,
    detailOf w accessToken k ind = Some e
    /\ employees (afterRecord w connectionId accessToken k ind d)
         !! (connectionId, id ind)
       = Some (match employees d !! (connectionId, id ind) with
               | None =>
                   mkEmployee connectionId (id ind) (ed_first_name e)
                     (ed_last_name e) (firstEmail e) (ed_hire_date e)
                     (employmentType e) e (now w (UpsertEmployee k))
                     (now w (UpsertEmployee k))
               | Some old =>
                   mkEmployee (emp_connection_id old)
                     (emp_provider_employee_id old) (ed_first_name e)
                     (ed_last_name e) (firstEmail e) (emp_hire_date old)
                     (employmentType e) (emp_source_data old)
                     (emp_created_at old) (now w (UpsertEmployee k))
               end).
Proof.
  unfold recordOk, afterRecord.
  destruct (detailOf w accessToken k ind) as [e|]; [|discriminate].
  destruct (fault w (UpsertEmployee k)); [discriminate|]. intros _.
  exists e. split; [reflexivity|]. cbn [employees set_employees].
  destruct (employees d !! (connectionId, id ind)) as [old|] eqn:Hold.
  - apply upsertEmployee_existing. exact Hold.
  - apply upsertEmployee_fresh. exact Hold.
Qed.

Lemma keptColumns_refl (a : employee) : keptColumns a a.
Proof. repeat split. Qed.

Lemma keptColumns_trans (a b c : employee) :
  keptColumns a b -> keptColumns b c -> keptColumns a c.
Proof.
  unfold keptColumns. intros (? & ? & ? & ? & ?) (? & ? & ? & ? & ?).
  repeat split; congruence.
Qed.

(** A row that is there stays, with the columns the update does not
    list; a row under another connection stays as it is. *)
Lemma afterRecord_history (k : nat) (ind : individual) (d : db)
    (key : string * string) (old : employee) :
  employees d !! key = Some old ->
  exists new,
    employees (afterRecord w connectionId accessToken k ind d) !! key
    = Some new
    /\ keptColumns old new
    /\ (fst key <> connectionId -> new = old).
Proof.
  intros Hold.
  destruct (decide (key = (connectionId, id ind))) as [->|Hne].
  - destruct (recordOk w accessToken k ind) eqn:Hok.
    + destruct (afterRecord_writes k ind d Hok) as (e & _ & ->).
      rewrite Hold. eexists. split; [reflexivity|].
      split; [repeat split|]. cbn. congruence.
    + rewrite afterRecord_skips by exact Hok.
      exists old. split; [exact Hold|]. split; [apply keptColumns_refl|auto].
  - rewrite afterRecord_other by exact Hne.
    exists old. split; [exact Hold|]. split; [apply keptColumns_refl|auto].
Qed.

Lemma afterRecords_history (inds : list individual) :
  forall (k : nat) (d : db) (key : string * string) (old : employee),
    employees d !! key = Some old ->
    exists new,
      employees (afterRecords w connectionId accessToken k inds d) !! key
      = Some new
      /\ keptColumns old new
      /\ (fst key <> connectionId -> new = old).
Proof.
  induction inds as [|ind rest IH]; intros k d key old Hold;
    cbn [afterRecords].
  - exists old. split; [exact Hold|]. split; [apply keptColumns_refl|auto].
  - destruct (afterRecord_history k ind d key old Hold)
      as (mid & Hmid & Hk1 & Ho1).
    destruct (IH (S k) _ key mid Hmid) as (new & Hnew & Hk2 & Ho2).
    exists new. split; [exact Hnew|].
    split; [eapply keptColumns_trans; eassumption|].
    intros Hne. rewrite (Ho2 Hne). apply Ho1. exact Hne.
Qed.

Lemma afterRecord_keyed (k : nat) (ind : individual) (d : db) :
  keyed (employees d) ->
  keyed (employees (afterRecord w connectionId accessToken k ind d)).
Proof.
  intros Hk. unfold afterRecord.
  destruct (detailOf w accessToken k ind), (fault w (UpsertEmployee k));
    try exact Hk.
  cbn. apply upsertEmployee_keyed. exact Hk.
Qed.

Lemma afterRecords_keyed (inds : list individual) :
  forall (k : nat) (d : db),
    keyed (employees d) ->
    keyed (employees (afterRecords w connectionId accessToken k inds d)).
Proof.
  induction inds as [|ind rest IH]; intros k d Hk; cbn [afterRecords];
    auto using afterRecord_keyed.
Qed.
End TableFacts.

Section AttemptTableFacts.
Context {C : NodeCrypto}.
Variable w : world.
Variable connectionId : string.

(** X19.  A sync attempt keeps [employees] keyed by its natural key:
    if every row sits under its own (connection_id,
    provider_employee_id) before, so it does after, whatever the
    provider answered and whichever statements were refused. *)
Theorem sync_keeps_natural_keys (d : db) :
  keyed (employees d) ->
  keyed (employees (snd (syncFinchData w connectionId d))).
Proof.
  intros Hk.
  destruct (syncFinchData_cases w connectionId d)
    as [-> | (c & tok & jid & _ & _ & _ & _ & ->)]; [exact Hk|].
  rewrite payroll_employees. apply afterRecords_keyed. exact Hk.
Qed.

(** X20.  A sync attempt never rewrites history: a row of [employees]
    that exists before is still there after, with its key, its
    hire_date, its source_data and its created_at as they were; and a
    row of another connection is not changed at all. *)
Theorem sync_never_rewrites_history (d : db) (key : string * string)
    (old : employee) :
  employees d !! key = Some old ->
  exists new,
    employees (snd (syncFinchData w connectionId d)) !! key = Some new
    /\ keptColumns old new
    /\ (fst key <> connectionId -> new = old).
Proof.
  intros Hold.
  destruct (syncFinchData_cases w connectionId d)
    as [-> | (c & tok & jid & _ & _ & _ & _ & ->)].
  - exists old. split; [exact Hold|]. split; [apply keptColumns_refl|auto].
  - rewrite payroll_employees. apply afterRecords_history. exact Hold.
Qed.

(** X21.  A sync attempt writes only when it answers 200, and then
    it changes no job that existed before (its own job is new) and no
    taxpayer. *)
Theorem sync_attempt_leaves_other_jobs (d : db) :
  (statusOf (syncFinchData w connectionId d) <> Some 200%nat ->
   snd (syncFinchData w connectionId d) = d)
  /\ (forall jobId job,
        sync_jobs d !! jobId = Some job ->
        sync_jobs (snd (syncFinchData w connectionId d)) !! jobId = Some job)
  /\ taxpayers (snd (syncFinchData w connectionId d)) = taxpayers d.
Proof.
  destruct (syncFinchData_cases w connectionId d)
    as [Hsame | (c & tok & jid & _ & _ & Hfresh & Hfst & Hsnd)].
  - rewrite Hsame. auto.
  - split; [|split].
    + intros Hs. exfalso. apply Hs. unfold statusOf. rewrite Hfst.
      reflexivity.
    + intros jobId job Hjob. rewrite Hsnd.
      assert (Hne : jobId <> jid) by congruence.
      rewrite payroll_other_jobs by exact Hne.
      cbn [sync_jobs set_sync_jobs]. rewrite lookup_insert_ne by congruence.
      exact Hjob.
    + rewrite Hsnd, payroll_taxpayers. reflexivity.
Qed.

(** X22.  A failure nobody records.  When the directory call fails
    and the UPDATE that should mark the job failed is refused too,
    the rejection of the background task is only logged: the attempt
    has answered 200, the job stays in 'processing' without end time
    or error message, and no other table has changed. *)
Theorem unrecorded_failure_leaves_job_processing (d : db) (c : connection)
    (accessToken : jsval) (msg : string) :
  fault w SelectConnection = None ->
  selected connectionId d = Some c ->
  decrypt (vaultKey w) (column (conn_access_token_encrypted c))
  = Ok accessToken ->
  fault w InsertSyncJob = None ->
  sync_jobs d !! gen_random_uuid w InsertSyncJob = None ->
  directoryOf w accessToken = None ->
  fault w FailSyncJob = Some msg ->
  statusOf (syncFinchData w connectionId d) = Some 200%nat
  /\ sync_jobs (snd (syncFinchData w connectionId d))
     = <[gen_random_uuid w InsertSyncJob :=
           mkSyncJob connectionId "finch_payroll_sync" "processing"
             (Some (now w InsertSyncJob)) None 0 0 None]> (sync_jobs d)
  /\ employees (snd (syncFinchData w connectionId d)) = employees d
  /\ connections (snd (syncFinchData w connectionId d)) = connections d
  /\ audit_logs (snd (syncFinchData w connectionId d)) = audit_logs d.
Proof.
  intros Hsel Hc Hdec Hins Hfresh Hdir Hfail.
  rewrite (syncFinchData_started w connectionId d c accessToken)
    by assumption.
  split; [reflexivity|]. cbn [snd].
  unfold syncFinchPayrollData, directoryOf in *.
  unfold tryCatch, bind at 1, lift at 1.
  destruct (directory w accessToken) as [[data|]|m]; [discriminate| |].
  - unfold bind, lift, prop, query. rewrite Hfail. cbn. auto.
  - unfold query. rewrite Hfail. cbn. auto.
Qed.
End AttemptTableFacts.

Section LateFailure.
Variable w : world.
Variable connectionId : string.
Variable accessToken : jsval.
Variable jobId : string.

End LateFailure.

(* ===================================================================== *)
(** * Proofs: syncing twice                                               *)
(* ===================================================================== *)

Section Resync.
Variables w1 w2 : world.
Variable connectionId : string.
Variable accessToken : jsval.
Hypothesis Hsame : sameAnswers w1 w2 accessToken.

Lemma recordOk_same (k : nat) (ind : individual) :
  recordOk w2 accessToken k ind = recordOk w1 accessToken k ind.
Proof.
  destruct Hsame as (_ & Hdet & Hfault).
  unfold recordOk. rewrite Hdet, Hfault. reflexivity.
Qed.

Lemma untouchedBy_tail (w : world) (key : string * string) (k : nat)
    (ind : individual) (rest : list individual) :
  untouchedBy w connectionId accessToken key k (ind :: rest) ->
  untouchedBy w connectionId accessToken key (S k) rest.
Proof.
  intros Hu i ind' Hi Hok. apply (Hu (S i) ind'); [exact Hi|].
  replace (k + S i)%nat with (S k + i)%nat by lia. exact Hok.
Qed.

Lemma untouchedBy_cons (w : world) (key : string * string) (k : nat)
    (ind : individual) (rest : list individual) :
  (recordOk w accessToken k ind = true -> key <> (connectionId, id ind)) ->
  untouchedBy w connectionId accessToken key (S k) rest ->
  untouchedBy w connectionId accessToken key k (ind :: rest).
Proof.
  intros Hhead Hrest [|i] ind' Hi Hok; cbn in Hi.
  - injection Hi as <-. rewrite Nat.add_0_r in Hok. auto.
  - apply (Hrest i ind'); [exact Hi|].
    replace (S k + i)%nat with (k + S i)%nat by lia. exact Hok.
Qed.

Lemma untouchedBy_lookup (w : world) (key : string * string)
    (inds : list individual) :
  forall (k : nat) (d : db),
    untouchedBy w connectionId accessToken key k inds ->
    employees (afterRecords w connectionId accessToken k inds d) !! key
    = employees d !! key.
Proof.
  induction inds as [|ind rest IH]; intros k d Hu; cbn [afterRecords];
    [reflexivity|].
  rewrite IH by (eapply untouchedBy_tail; exact Hu).
  destruct (recordOk w accessToken k ind) eqn:Hok.
  - apply afterRecord_other. apply (Hu 0%nat ind); [reflexivity|].
    rewrite Nat.add_0_r. exact Hok.
  - rewrite afterRecord_skips by exact Hok. reflexivity.
Qed.

(** The second run, started on tables that already look like the
    outcome of the first at [key], ends with that outcome there, up to
    updated_at. *)
Lemma resync_at_key (key : string * string) (inds : list individual) :
  forall (k : nat) (dA dB : db),
    sameKept
      (employees (afterRecords w1 connectionId accessToken k inds dA) !! key)
      (employees dB !! key) ->
    (untouchedBy w1 connectionId accessToken key k inds ->
     withoutUpdatedAt <$> employees dB !! key
     = withoutUpdatedAt
         <$> employees (afterRecords w1 connectionId accessToken k inds dA)
               !! key) ->
    withoutUpdatedAt
      <$> employees (afterRecords w2 connectionId accessToken k inds dB)
            !! key
    = withoutUpdatedAt
        <$> employees (afterRecords w1 connectionId accessToken k inds dA)
              !! key.
Proof.
  induction inds as [|ind rest IH]; intros k dA dB Hcore Hvol.
  - cbn [afterRecords] in *. apply Hvol. intros i ind Hi. discriminate Hi.
  - cbn [afterRecords] in *.
    set (dA' := afterRecord w1 connectionId accessToken k ind dA) in *.
    destruct (recordOk w1 accessToken k ind) eqn:Hok;
      [destruct (decide (key = (connectionId, id ind))) as [->|Hne]|].
    + (* this record writes the row under [key] *)
      destruct (afterRecord_writes w1 connectionId accessToken k ind dA Hok)
        as (e & He & Hrow1). fold dA' in Hrow1.
      assert (Hok2 : recordOk w2 accessToken k ind = true)
        by (rewrite recordOk_same; exact Hok).
      destruct (afterRecord_writes w2 connectionId accessToken k ind dB Hok2)
        as (e2 & He2 & Hrow2).
      assert (e2 = e) as ->.
      { destruct Hsame as (_ & Hdet & _). rewrite <- Hdet in He2.
        congruence. }
      destruct (afterRecords_history w1 connectionId accessToken rest (S k)
                  dA' _ _ Hrow1) as (f & Hf & Hkf & _).
      rewrite Hf in Hcore.
      destruct (employees dB !! (connectionId, id ind)) as [b|] eqn:Hb;
        [|contradiction].
      cbn [sameKept] in Hcore.
      apply IH.
      * rewrite Hf, Hrow2. cbn [sameKept].
        destruct Hcore as (? & ? & ? & ? & ?). repeat split; assumption.
      * intros Hu. rewrite (untouchedBy_lookup w1 _ rest (S k) dA' Hu) in *.
        rewrite Hrow2, Hrow1. rewrite Hrow1 in Hf. injection Hf as <-.
        destruct Hcore as (Hc1 & Hc2 & Hc3 & Hc4 & Hc5).
        cbn [fmap option_fmap option_map withoutUpdatedAt]. f_equal.
        destruct (employees dA !! (connectionId, id ind)) as [a|];
          cbn in *; unfold withoutUpdatedAt; cbn; congruence.
    + (* this record writes elsewhere *)
      apply IH.
      * rewrite afterRecord_other by exact Hne. exact Hcore.
      * intros Hu. rewrite afterRecord_other by exact Hne. apply Hvol.
        apply untouchedBy_cons; [intros _; exact Hne | exact Hu].
    + (* this record fails *)
      assert (Hok2 : recordOk w2 accessToken k ind = false)
        by (rewrite recordOk_same; exact Hok).
      apply IH.
      * rewrite (afterRecord_skips w2) by exact Hok2. exact Hcore.
      * intros Hu. rewrite (afterRecord_skips w2) by exact Hok2. apply Hvol.
        apply untouchedBy_cons; [rewrite Hok; discriminate | exact Hu].
Qed.

Lemma sameKept_refl (x : option employee) : sameKept x x.
Proof. destruct x; cbn; [apply keptColumns_refl | exact I]. Qed.

(** X24.  Syncing again changes nothing but updated_at.  A second run
    of the background task that gets the same answers from the
    provider, and has the same upserts refused, leaves [employees] as
    the first run left it, row for row and column for column, except
    for updated_at: no row is added, none removed. *)
Theorem resync_changes_only_updated_at (job1 job2 : string) (d : db) :
  withoutUpdatedAt
    <$> employees
          (snd (syncFinchPayrollData w2 connectionId accessToken job2
                  (snd (syncFinchPayrollData w1 connectionId accessToken
                          job1 d))))
  = withoutUpdatedAt
      <$> employees
            (snd (syncFinchPayrollData w1 connectionId accessToken job1 d)).
Proof.
  apply map_eq. intros key. rewrite !lookup_fmap.
  rewrite (payroll_employees w2).
  assert (Hent : entries w2 accessToken = entries w1 accessToken).
  { unfold entries. destruct Hsame as (-> & _). reflexivity. }
  rewrite Hent.
  pose proof (payroll_employees w1 connectionId accessToken job1 d) as Hfirst.
  rewrite Hfirst.
  apply resync_at_key.
  - rewrite Hfirst. apply sameKept_refl.
  - intros _. rewrite Hfirst. reflexivity.
Qed.
End Resync.

Lemma dbSynced_keyed : keyed (employees dbSynced).
Proof.
  intros key row H. cbn [employees dbSynced] in H.
  apply lookup_singleton_Some in H as [<- <-]. reflexivity.
Qed.

Lemma sync_keeps_natural_keys_witness :
  keyed (employees (snd (syncFinchData (C := tagCipher) worldSecondMissing
                           "conn-1" dbSynced))).
Proof.
  apply (@sync_keeps_natural_keys tagCipher worldSecondMissing "conn-1"
           dbSynced).
  exact dbSynced_keyed.
Defined.

Lemma sync_never_rewrites_history_witness :
  exists new,
    employees (snd (syncFinchData (C := tagCipher) worldRenamed "conn-1"
                      dbSynced)) !! ("conn-1", "emp-1")%string
    = Some new
    /\ keptColumns
         (mkEmployee "conn-1" "emp-1" (Some "Alice") (Some "Ng")
            (Some "alice@acme.test") (Some "2021-03-01") (Some "employee")
            alice 500 500)%string new
    /\ (fst ("conn-1", "emp-1")%string <> "conn-1"%string ->
        new = mkEmployee "conn-1" "emp-1" (Some "Alice") (Some "Ng")
                (Some "alice@acme.test") (Some "2021-03-01")
                (Some "employee") alice 500 500)%string.
Proof.
  apply (@sync_never_rewrites_history tagCipher worldRenamed "conn-1"
           dbSynced ("conn-1", "emp-1")%string).
  reflexivity.
Defined.

Lemma unrecorded_failure_leaves_job_processing_witness :
  let run := syncFinchData (C := tagCipher) worldNoRecord "conn-1"
               dbConnected in
  statusOf run = Some 200%nat
  /\ sync_jobs (snd run)
     = <[gen_random_uuid worldNoRecord InsertSyncJob :=
           mkSyncJob "conn-1" "finch_payroll_sync" "processing"
             (Some (now worldNoRecord InsertSyncJob)) None 0 0 None]>
         (sync_jobs dbConnected)
  /\ employees (snd run) = employees dbConnected
  /\ connections (snd run) = connections dbConnected
  /\ audit_logs (snd run) = audit_logs dbConnected.
Proof.
  apply (@unrecorded_failure_leaves_job_processing tagCipher worldNoRecord
           "conn-1" dbConnected
           (connectionWith (envelopeOf "finch-access-token")) token1
           "Connection terminated").
  - reflexivity.
  - vm_compute. reflexivity.
  - vm_compute. reflexivity.
  - reflexivity.
  - reflexivity.
  - reflexivity.
  - reflexivity.
Defined.


Lemma worldSecondMissingLater_sameAnswers :
  sameAnswers worldSecondMissing worldSecondMissingLater token1.
Proof. repeat split. Qed.

Lemma resync_changes_only_updated_at_witness :
  withoutUpdatedAt
    <$> employees
          (snd (syncFinchPayrollData worldSecondMissingLater "conn-1" token1
                  "job-2"
                  (snd (syncFinchPayrollData worldSecondMissing "conn-1"
                          token1 "job-1" dbConnected))))
  = withoutUpdatedAt
      <$> employees
            (snd (syncFinchPayrollData worldSecondMissing "conn-1" token1
                    "job-1" dbConnected)).
Proof.
  apply (@resync_changes_only_updated_at worldSecondMissing
           worldSecondMissingLater "conn-1" token1).
  exact worldSecondMissingLater_sameAnswers.
Defined.
